(** * plfit: a shallow embedding of the power-law fitter

    The development follows [plfit/plfit.py]: the continuous primitives
    [alpha_gen] and [kstest_gen], the class [plfit] with its constructor,
    its method [plfit] and its method [discrete_best_alpha], and the
    module-level discrete primitives.

    numpy arrays of dtype float64 are lists of binary64 numbers (Rocq's
    primitive floats, which are IEEE 754 binary64 like numpy's); counts and
    indices are [nat], the Python integer [nmax], which may be [-1], is a
    [Z].  Printing, attribute assignment and exceptions are threaded
    through a small state-and-error monad over the object and its output. *)

From Stdlib Require Import String ZArith List Bool Lia Floats Uint63 Permutation Sorted.
Import ListNotations.

Set Warnings "-inexact-float".

(* ================================================================== *)
(** ** binary64 helpers *)

Module F64.
Open Scope float_scope.

(** [float(n)] for a Python integer that is a count. *)
Definition of_nat (n : nat) : float := of_uint63 (Uint63.of_Z (Z.of_nat n)).

Definition of_Z (z : Z) : float :=
  if (z <? 0)%Z then - of_uint63 (Uint63.of_Z (- z)) else of_uint63 (Uint63.of_Z z).

(** The integer an integral float stands for (0 outside the finite numbers). *)
Definition to_Z (f : float) : Z :=
  match Prim2SF f with
  | S754_finite s m e => let v := Z.shiftl (Zpos m) e in if s then (- v)%Z else v
  | _ => 0%Z
  end.

(** Python's [a >= b], [a > b] and [a != b] on floats. *)
Definition geb (a b : float) : bool := b <=? a.
Definition gtb (a b : float) : bool := b <? a.
Definition neqb (a b : float) : bool := negb (a =? b).

(** An order-preserving key for the numbers (every float but NaN): the
    class (-inf, negative, zero, positive, +inf), then exponent and
    mantissa, both negated on the negative side. *)
Definition key (s : spec_float) : option (Z * Z * Z) :=
  match s with
  | S754_nan => None
  | S754_infinity true => Some ((-2)%Z, 0%Z, 0%Z)
  | S754_infinity false => Some (2%Z, 0%Z, 0%Z)
  | S754_zero _ => Some (0%Z, 0%Z, 0%Z)
  | S754_finite true m e => Some ((-1)%Z, (- e)%Z, (- Zpos m)%Z)
  | S754_finite false m e => Some (1%Z, e, Zpos m)
  end.

Definition klt (a b : Z * Z * Z) : Prop :=
  let '(c1, e1, m1) := a in
  let '(c2, e2, m2) := b in
  (c1 < c2 \/ (c1 = c2 /\ (e1 < e2 \/ (e1 = e2 /\ m1 < m2))))%Z.

Definition keq (a b : Z * Z * Z) : Prop :=
  let '(c1, e1, m1) := a in
  let '(c2, e2, m2) := b in
  (c1 = c2 /\ e1 = e2 /\ m1 = m2)%Z.

Definition kcompare (a b : Z * Z * Z) : comparison :=
  let '(c1, e1, m1) := a in
  let '(c2, e2, m2) := b in
  match (c1 ?= c2)%Z with
  | Eq => match (e1 ?= e2)%Z with
          | Eq => (m1 ?= m2)%Z
          | r => r
          end
  | r => r
  end.

Definition fkey (f : float) : option (Z * Z * Z) := key (Prim2SF f).

End F64.

(* ================================================================== *)
(** ** The numpy operations the fitter uses, on lists

    numpy is not part of the repository.  Its operations are modelled as
    release 1.21 has them, the last one for the Python 3.7 the package is
    installed under: a stable sort for [np.unique(return_index=True)],
    NaN entries that [np.unique] counts as one value, pairwise
    summation. *)

Module Np.
Import F64.
Open Scope float_scope.

(** The comparison numpy sorts floats with: NaN goes last. *)
Definition sort_lt (a b : float) : bool :=
  (a <? b) || (is_nan b && negb (is_nan a)).

(** A stable insertion sort on keyed entries; [argsort(kind='mergesort')]
    and [np.sort] both come from it.  An entry passes the entries ordered
    strictly before it and stops at the first one that is not; as
    [sort_entries] inserts the entries of the array from the last to the
    first, entries with equal keys keep the order of the array. *)
Fixpoint insert_entry {A : Type} (p : float * A) (l : list (float * A)) : list (float * A) :=
  match l with
  | [] => [p]
  | q :: t => if sort_lt (fst q) (fst p) then q :: insert_entry p t else p :: q :: t
  end.

Definition sort_entries {A : Type} (l : list (float * A)) : list (float * A) :=
  fold_right insert_entry [] l.

Fixpoint enumerate_from {A : Type} (i : nat) (l : list A) : list (A * nat) :=
  match l with
  | [] => []
  | a :: t => (a, i) :: enumerate_from (S i) t
  end.

Definition enumerate {A : Type} (l : list A) : list (A * nat) := enumerate_from 0 l.

(** [np.sort(x)] *)
Definition sort (x : list float) : list float :=
  map fst (sort_entries (map (fun v => (v, tt)) x)).

(** The mask [True, aux[1:] != aux[:-1]] of [np.unique]. *)
Fixpoint change_mask_from (prev : float) (l : list float) : list bool :=
  match l with
  | [] => []
  | v :: t => neqb v prev :: change_mask_from v t
  end.

Definition change_mask (aux : list float) : list bool :=
  match aux with
  | [] => []
  | v :: t => true :: change_mask_from v t
  end.

(** Boolean indexing [x[mask]]. *)
Fixpoint mask_select {A : Type} (x : list A) (mask : list bool) : list A :=
  match x, mask with
  | a :: x', b :: mask' => if b then a :: mask_select x' mask' else mask_select x' mask'
  | _, _ => []
  end.

Definition count_nonzero (mask : list bool) : nat := length (filter (fun b => b) mask).

(** [np.searchsorted(a, v, side='left')] for one [v] in a sorted [a]: the
    number of entries ordered strictly before [v]. *)
Definition searchsorted_left (a : list float) (v : float) : nat :=
  length (filter (fun y => sort_lt y v) a).

(** The mask of [np.unique] on the sorted array [aux], as numpy has it
    from release 1.21 on.  When [aux] ends in a NaN the NaN entries, which
    the sort has put last, count as one value: with [aux_firstnan] the
    place of the first of them, the mask is [True, aux[1:] != aux[:-1]]
    before that place, [True] at it and [False] after it. *)
Definition unique_mask (aux : list float) : list bool :=
  if is_nan (last aux 0) then
    let aux_firstnan := searchsorted_left aux (last aux 0) in
    change_mask (firstn aux_firstnan aux)
    ++ true :: repeat false (length aux - aux_firstnan - 1)
  else change_mask aux.

(** [np.unique(ar, return_index=True)]: the sorted distinct values and,
    for each, the index of its first occurrence in [ar]. *)
Definition unique_index (ar : list float) : list float * list nat :=
  let entries := sort_entries (enumerate ar) in
  let aux := map fst entries in
  let perm := map snd entries in
  let mask := unique_mask aux in
  (mask_select aux mask, mask_select perm mask).

(** [np.unique(ar)] *)
Definition unique (ar : list float) : list float := fst (unique_index ar).

(** [sum(a)] on a float64 array is [np.add.reduce(a)], and numpy adds
    pairwise.  The loop [DOUBLE_pairwise_sum] adds fewer than 8 entries
    in index order, from 0; up to [PW_BLOCKSIZE = 128] entries it keeps 8
    running sums, entry [i] going to sum [i % 8] as long as a whole group
    of 8 is left, adds the 8 sums as a balanced tree and then the
    remaining entries in index order; a longer array is cut in two, the
    first part holding [n/2] entries rounded down to a multiple of 8, and
    the sums of the two parts are added. *)
Definition sum_loop (a : list float) (res : float) : float :=
  fold_left PrimFloat.add a res.

Fixpoint sum_unrolled (a : list float) (r0 r1 r2 r3 r4 r5 r6 r7 : float) : float :=
  match a with
  | a0 :: a1 :: a2 :: a3 :: a4 :: a5 :: a6 :: a7 :: rest =>
      sum_unrolled rest (r0 + a0) (r1 + a1) (r2 + a2) (r3 + a3)
        (r4 + a4) (r5 + a5) (r6 + a6) (r7 + a7)
  | _ => sum_loop a (((r0 + r1) + (r2 + r3)) + ((r4 + r5) + (r6 + r7)))
  end.

Definition sum_block (a : list float) : float :=
  match a with
  | r0 :: r1 :: r2 :: r3 :: r4 :: r5 :: r6 :: r7 :: rest =>
      sum_unrolled rest r0 r1 r2 r3 r4 r5 r6 r7
  | _ => sum_loop a 0
  end.

(** The recursion of [pairwise_sum] halves the array; [fuel] bounds its
    depth and is the length of the array where the function is called
    ([pairwise_sum_fuel] below: any larger bound gives the same sum). *)
Fixpoint pairwise_sum (fuel : nat) (a : list float) : float :=
  let n := length a in
  if (n <=? 128)%nat then sum_block a
  else
    match fuel with
    | O => sum_block a
    | S fuel' =>
        let n2 := (n / 2)%nat in
        let n2 := (n2 - n2 mod 8)%nat in
        pairwise_sum fuel' (firstn n2 a) + pairwise_sum fuel' (skipn n2 a)
    end.

(** The reduction hands the array to the loop in stretches of the
    iterator's buffer size, 8192 entries, and adds the sum of each stretch
    to the output, which starts as the identity 0.  [fuel] bounds the
    number of stretches and is the length of the array
    ([add_reduce_fuel]). *)
Definition bufsize : nat := 64 * 128.

Fixpoint add_reduce (fuel : nat) (a : list float) (out : float) : float :=
  match a, fuel with
  | _ :: _, S fuel' =>
      let stretch := firstn bufsize a in
      add_reduce fuel' (skipn bufsize a) (out + pairwise_sum (length stretch) stretch)
  | _, _ => out
  end.

Definition sum (a : list float) : float := add_reduce (length a) a 0.

(** [np.maximum], which propagates NaN, and [max(a)]; the latter raises
    on an empty array, here [None]. *)
Definition maximum (a b : float) : float :=
  if is_nan a then a else if is_nan b then b else if geb a b then a else b.

Definition max (a : list float) : option float :=
  match a with
  | [] => None
  | v :: t => Some (fold_left maximum t v)
  end.

(** [argmin] on a float array: the loop of numpy's [DOUBLE_argmin].  The
    running minimum [mp] is replaced whenever [not (v >= mp)], and the scan
    stops at the first NaN.  [None] stands for the [ValueError] on an
    empty array. *)
Fixpoint argmin_loop (l : list float) (i : nat) (mp : float) (min_ind : nat) : nat :=
  match l with
  | [] => min_ind
  | v :: t =>
      if is_nan mp then min_ind
      else if negb (geb v mp) then argmin_loop t (S i) v i
      else argmin_loop t (S i) mp min_ind
  end.

Definition argmin (a : list float) : option nat :=
  match a with
  | [] => None
  | v :: t => Some (argmin_loop t 1 v 0)
  end.

(** [argmax] on a float array, the mirror image. *)
Fixpoint argmax_loop (l : list float) (i : nat) (mp : float) (max_ind : nat) : nat :=
  match l with
  | [] => max_ind
  | v :: t =>
      if is_nan mp then max_ind
      else if negb (v <=? mp) then argmax_loop t (S i) v i
      else argmax_loop t (S i) mp max_ind
  end.

Definition argmax (a : list float) : option nat :=
  match a with
  | [] => None
  | v :: t => Some (argmax_loop t 1 v 0)
  end.

(** [argmin] on a boolean array: the first strictly smaller entry wins. *)
Fixpoint argmin_bool_loop (l : list bool) (i : nat) (mp : bool) (min_ind : nat) : nat :=
  match l with
  | [] => min_ind
  | v :: t =>
      if negb v && mp then argmin_bool_loop t (S i) v i
      else argmin_bool_loop t (S i) mp min_ind
  end.

Definition argmin_bool (a : list bool) : option nat :=
  match a with
  | [] => None
  | v :: t => Some (argmin_bool_loop t 1 v 0)
  end.

(** [np.arange(n, dtype='float')] *)
Definition arange (n : nat) : list float := map of_nat (seq 0 n).

(** [np.linspace(start, stop, num)] *)
Definition linspace (start stop : float) (num : nat) : list float :=
  match num with
  | O => []
  | S O => [start]
  | S (S k as d) =>
      let step := (stop - start) / of_nat d in
      map (fun i => start + of_nat i * step) (seq 0 d) ++ [stop]
  end.

(** Elementwise binary operations with numpy's broadcasting of a
    one-element operand; [None] when the shapes do not agree. *)
Fixpoint zip_with {A B C : Type} (f : A -> B -> C) (a : list A) (b : list B) : list C :=
  match a, b with
  | x :: a', y :: b' => f x y :: zip_with f a' b'
  | _, _ => []
  end.

Definition broadcast2 {A B C : Type} (f : A -> B -> C) (a : list A) (b : list B) : option (list C) :=
  if Nat.eqb (length a) (length b) then Some (zip_with f a b)
  else match a, b with
       | [x], _ => Some (map (f x) b)
       | _, [y] => Some (map (fun x => f x y) a)
       | _, _ => None
       end.

(** A Python slice [a[:k]] for an integer [k] of either sign. *)
Definition slice_to {A : Type} (a : list A) (k : Z) : list A :=
  if (k <? 0)%Z then firstn (length a - Z.to_nat (- k)) a
  else firstn (Z.to_nat k) a.

End Np.

(* ================================================================== *)
(** ** The instance, its output and its exceptions *)

(** The attributes of a [plfit] instance.  All but [data] are bound in
    the course of a fit; [None] is an attribute not bound yet. *)
Record plfit_obj : Type := mk_obj {
  data : list float;
  _nunique : option nat;
  _alpha_values : option (list float);
  _xmin_kstest : option (list float);
  _ks_prob_all : option (list float);
  _sigma : option (list float);
  _likelihood : option float;
  _xmin : option float;
  _xmins : option (list float);
  _alpha : option float;
  _alphaerr : option float;
  _ks : option float;
  _ks_prob : option float;
  _ngtx : option nat
}.

Definition new_obj : plfit_obj :=
  mk_obj [] None None None None None None None None None None None None None.

(** Attribute assignment [self.a = v], one setter per attribute. *)
Definition set_data (v : list float) (o : plfit_obj) : plfit_obj :=
  mk_obj v (_nunique o) (_alpha_values o) (_xmin_kstest o) (_ks_prob_all o)
    (_sigma o) (_likelihood o) (_xmin o) (_xmins o) (_alpha o) (_alphaerr o)
    (_ks o) (_ks_prob o) (_ngtx o).

Definition set_nunique (v : nat) (o : plfit_obj) : plfit_obj :=
  mk_obj (data o) (Some v) (_alpha_values o) (_xmin_kstest o) (_ks_prob_all o)
    (_sigma o) (_likelihood o) (_xmin o) (_xmins o) (_alpha o) (_alphaerr o)
    (_ks o) (_ks_prob o) (_ngtx o).

Definition set_alpha_values (v : list float) (o : plfit_obj) : plfit_obj :=
  mk_obj (data o) (_nunique o) (Some v) (_xmin_kstest o) (_ks_prob_all o)
    (_sigma o) (_likelihood o) (_xmin o) (_xmins o) (_alpha o) (_alphaerr o)
    (_ks o) (_ks_prob o) (_ngtx o).

Definition set_xmin_kstest (v : list float) (o : plfit_obj) : plfit_obj :=
  mk_obj (data o) (_nunique o) (_alpha_values o) (Some v) (_ks_prob_all o)
    (_sigma o) (_likelihood o) (_xmin o) (_xmins o) (_alpha o) (_alphaerr o)
    (_ks o) (_ks_prob o) (_ngtx o).

Definition set_ks_prob_all (v : list float) (o : plfit_obj) : plfit_obj :=
  mk_obj (data o) (_nunique o) (_alpha_values o) (_xmin_kstest o) (Some v)
    (_sigma o) (_likelihood o) (_xmin o) (_xmins o) (_alpha o) (_alphaerr o)
    (_ks o) (_ks_prob o) (_ngtx o).

Definition set_sigma (v : list float) (o : plfit_obj) : plfit_obj :=
  mk_obj (data o) (_nunique o) (_alpha_values o) (_xmin_kstest o)
    (_ks_prob_all o) (Some v) (_likelihood o) (_xmin o) (_xmins o) (_alpha o)
    (_alphaerr o) (_ks o) (_ks_prob o) (_ngtx o).

Definition set_likelihood (v : float) (o : plfit_obj) : plfit_obj :=
  mk_obj (data o) (_nunique o) (_alpha_values o) (_xmin_kstest o)
    (_ks_prob_all o) (_sigma o) (Some v) (_xmin o) (_xmins o) (_alpha o)
    (_alphaerr o) (_ks o) (_ks_prob o) (_ngtx o).

Definition set_xmin (v : float) (o : plfit_obj) : plfit_obj :=
  mk_obj (data o) (_nunique o) (_alpha_values o) (_xmin_kstest o)
    (_ks_prob_all o) (_sigma o) (_likelihood o) (Some v) (_xmins o) (_alpha o)
    (_alphaerr o) (_ks o) (_ks_prob o) (_ngtx o).

Definition set_xmins (v : list float) (o : plfit_obj) : plfit_obj :=
  mk_obj (data o) (_nunique o) (_alpha_values o) (_xmin_kstest o)
    (_ks_prob_all o) (_sigma o) (_likelihood o) (_xmin o) (Some v) (_alpha o)
    (_alphaerr o) (_ks o) (_ks_prob o) (_ngtx o).

Definition set_alpha (v : float) (o : plfit_obj) : plfit_obj :=
  mk_obj (data o) (_nunique o) (_alpha_values o) (_xmin_kstest o)
    (_ks_prob_all o) (_sigma o) (_likelihood o) (_xmin o) (_xmins o) (Some v)
    (_alphaerr o) (_ks o) (_ks_prob o) (_ngtx o).

Definition set_alphaerr (v : float) (o : plfit_obj) : plfit_obj :=
  mk_obj (data o) (_nunique o) (_alpha_values o) (_xmin_kstest o)
    (_ks_prob_all o) (_sigma o) (_likelihood o) (_xmin o) (_xmins o) (_alpha
    o) (Some v) (_ks o) (_ks_prob o) (_ngtx o).

Definition set_ks (v : float) (o : plfit_obj) : plfit_obj :=
  mk_obj (data o) (_nunique o) (_alpha_values o) (_xmin_kstest o)
    (_ks_prob_all o) (_sigma o) (_likelihood o) (_xmin o) (_xmins o) (_alpha
    o) (_alphaerr o) (Some v) (_ks_prob o) (_ngtx o).

Definition set_ks_prob (v : float) (o : plfit_obj) : plfit_obj :=
  mk_obj (data o) (_nunique o) (_alpha_values o) (_xmin_kstest o)
    (_ks_prob_all o) (_sigma o) (_likelihood o) (_xmin o) (_xmins o) (_alpha
    o) (_alphaerr o) (_ks o) (Some v) (_ngtx o).

Definition set_ngtx (v : nat) (o : plfit_obj) : plfit_obj :=
  mk_obj (data o) (_nunique o) (_alpha_values o) (_xmin_kstest o)
    (_ks_prob_all o) (_sigma o) (_likelihood o) (_xmin o) (_xmins o) (_alpha
    o) (_alphaerr o) (_ks o) (_ks_prob o) (Some v).

(** The exceptions the fitter can end in.  [AssertionError] carries the
    two values its message formats, [UnboundLocalError] the variable. *)
Inductive exn : Type :=
| ValueError (msg : string)
| AssertionError (computed reported : float)
| ImportError (msg : string)
| IndexError
| AttributeError (attr : string)
| ZeroDivisionError
| UnboundLocalError (var : string).

(** What the fitter prints; the numbers a line formats are its arguments. *)
Inductive message : Type :=
| RemovedNegative (k : nat)
| UsingContinuous
| UsingDiscrete
| BackendExecuted (backend : string)
| NotEnoughData
| FiniteSizeBias (n : nat)
| OnlyOnePoint
| FitReport (verbose : bool) (xmin : float) (n : nat)
    (alpha alphaerr L ks : float) (ks_prob : option float)
| DiscreteReport (alpha xmin ks L : float) (nlt nge : nat).

Record world : Type := mk_world { self : plfit_obj; stdout : list message }.

(** Computations that read and write the instance, print, and may raise:
    what was assigned and printed before an exception stays. *)
Definition M (A : Type) : Type := world -> (exn + A) * world.

Definition ret {A : Type} (a : A) : M A := fun w => (inr a, w).

Definition bind {A B : Type} (m : M A) (k : A -> M B) : M B :=
  fun w => match m w with
           | (inl e, w') => (inl e, w')
           | (inr a, w') => k a w'
           end.

Definition raise {A : Type} (e : exn) : M A := fun w => (inl e, w).

Declare Scope py_scope.
Delimit Scope py_scope with py.
Notation "x <- m ;; k" := (bind m (fun x => k))
  (at level 100, m at next level, right associativity) : py_scope.
Notation "m ;; k" := (bind m (fun _ => k))
  (at level 100, right associativity) : py_scope.
Notation "' pat <- m ;; k" := (bind m (fun x => match x with pat => k end))
  (at level 100, pat pattern, m at next level, right associativity) : py_scope.
Open Scope py_scope.

Definition print (m : message) : M unit :=
  fun w => (inr tt, mk_world (self w) (stdout w ++ [m])).

Definition setattr (f : plfit_obj -> plfit_obj) : M unit :=
  fun w => (inr tt, mk_world (f (self w)) (stdout w)).

Definition getattr {A : Type} (name : string) (f : plfit_obj -> option A) : M A :=
  fun w => match f (self w) with
           | Some a => (inr a, w)
           | None => (inl (AttributeError name), w)
           end.

Definition when (b : bool) (m : M unit) : M unit := if b then m else ret tt.

Definition lift {A : Type} (r : exn + A) : M A :=
  match r with inl e => raise e | inr a => ret a end.

Definition or_raise {A : Type} (e : exn) (o : option A) : M A :=
  match o with Some a => ret a | None => raise e end.

(** [m] raises nothing outside [S]; [m] never returns. *)
Definition raises_only {A : Type} (S : exn -> Prop) (m : M A) : Prop :=
  forall w e w', m w = (inl e, w') -> S e.

Definition always_raises {A : Type} (m : M A) : Prop :=
  forall w, exists e w', m w = (inl e, w').

(** [m] assigns no attribute. *)
Definition keeps_self {A : Type} (m : M A) : Prop :=
  forall w a w', m w = (inr a, w') -> self w' = self w.

(** Reading a local variable: Python raises [UnboundLocalError] when the
    function assigns the name somewhere but has not done so yet. *)
Definition local {A : Type} (var : string) (v : option A) : M A :=
  or_raise (UnboundLocalError var) v.

(** The keyword arguments of [plfit.plfit], with the defaults of its
    signature. *)
Record kwargs : Type := {
  kw_nosmall : bool;
  kw_finite : bool;
  kw_quiet : bool;
  kw_silent : bool;
  kw_usefortran : bool;
  kw_usecy : bool;
  kw_xmin : option float;
  kw_verbose : bool;
  kw_discrete : option bool;
  kw_discrete_approx : bool;
  kw_discrete_n_alpha : nat;
  kw_skip_consistency_check : bool
}.

Definition defaults : kwargs :=
  {| kw_nosmall := true; kw_finite := false; kw_quiet := false;
     kw_silent := false; kw_usefortran := false; kw_usecy := false;
     kw_xmin := None; kw_verbose := false; kw_discrete := None;
     kw_discrete_approx := true; kw_discrete_n_alpha := 1000;
     kw_skip_consistency_check := false |}.

(** Passing one keyword explicitly. *)
Definition with_xmin (v : float) (kw : kwargs) : kwargs :=
  Build_kwargs (kw_nosmall kw) (kw_finite kw) (kw_quiet kw) (kw_silent kw)
    (kw_usefortran kw) (kw_usecy kw) (Some v) (kw_verbose kw) (kw_discrete kw)
    (kw_discrete_approx kw) (kw_discrete_n_alpha kw) (kw_skip_consistency_check kw).

Definition with_discrete (v : bool) (kw : kwargs) : kwargs :=
  Build_kwargs (kw_nosmall kw) (kw_finite kw) (kw_quiet kw) (kw_silent kw)
    (kw_usefortran kw) (kw_usecy kw) (kw_xmin kw) (kw_verbose kw) (Some v)
    (kw_discrete_approx kw) (kw_discrete_n_alpha kw) (kw_skip_consistency_check kw).

Definition with_silent (v : bool) (kw : kwargs) : kwargs :=
  Build_kwargs (kw_nosmall kw) (kw_finite kw) (kw_quiet kw) v
    (kw_usefortran kw) (kw_usecy kw) (kw_xmin kw) (kw_verbose kw) (kw_discrete kw)
    (kw_discrete_approx kw) (kw_discrete_n_alpha kw) (kw_skip_consistency_check kw).

Definition with_finite (v : bool) (kw : kwargs) : kwargs :=
  Build_kwargs (kw_nosmall kw) v (kw_quiet kw) (kw_silent kw)
    (kw_usefortran kw) (kw_usecy kw) (kw_xmin kw) (kw_verbose kw) (kw_discrete kw)
    (kw_discrete_approx kw) (kw_discrete_n_alpha kw) (kw_skip_consistency_check kw).

Definition with_skip_consistency_check (v : bool) (kw : kwargs) : kwargs :=
  Build_kwargs (kw_nosmall kw) (kw_finite kw) (kw_quiet kw) (kw_silent kw)
    (kw_usefortran kw) (kw_usecy kw) (kw_xmin kw) (kw_verbose kw) (kw_discrete kw)
    (kw_discrete_approx kw) (kw_discrete_n_alpha kw) v.

(* ================================================================== *)
(** ** What the module imports

    The elementary functions of numpy and scipy, the flags the imports at
    the top of the module set, and the two compiled backends [fplfit] and
    [cplfit], which are not part of the Python source.  Everything below
    is stated for an arbitrary platform. *)

Class Platform : Type := {
  log : float -> float;
  pow : float -> float -> float;
  ksone_sf : float -> nat -> float;
  zeta : float -> float -> float;
  scipyOK : bool;
  fortranOK : bool;
  cyOK : bool;
  fplfit_plfit : list float -> list float * list float;
  cplfit_plfit_loop : list float -> list float -> list nat -> list float * list float
}.

(* ================================================================== *)
(** ** The module-level functions *)

Section Primitives.
Context {P : Platform}.
Import F64.
Open Scope float_scope.

(** [np.testing.assert_almost_equal(actual, desired, decimal)]; [true]
    when the assertion passes.  Values that are not both finite must be
    both NaN or equal; finite ones must differ by less than
    [1.5 * 10**(-decimal)]. *)
Definition assert_almost_equal (actual desired : float) (decimal : nat) : bool :=
  if negb (is_finite desired && is_finite actual) then
    if is_nan desired || is_nan actual then is_nan desired && is_nan actual
    else desired =? actual
  else negb (geb (PrimFloat.abs (desired - actual)) (1.5 * pow 10 (- of_nat decimal))).

(** [alpha_gen(x)] returns the closure [alpha_], applied here to [xmin]. *)
Definition alpha_gen (x : list float) (xmin : float) : float :=
  let gexmin := map (fun v => geb v xmin) x in
  let n := Np.count_nonzero gexmin in
  if (n <? 2)%nat then 0
  else
    let x := Np.mask_select x gexmin in
    let a := 1 + of_nat n / Np.sum (map log (map (fun v => v / xmin) x)) in
    a.

(** [kstest_gen(x, unique, finite)] returns the closure [kstest_]. *)
Definition kstest_gen (x : list float) (unique finite : bool) (xmin : float) : float :=
  let x := if unique then Np.unique x else x in
  let x := Np.mask_select x (map (fun v => geb v xmin) x) in
  let n := length x in
  if (n =? 0)%nat then infinity
  else
    let a := 1 + of_nat n / Np.sum (map log (map (fun v => v / xmin) x)) in
    let a := if finite then a * (of_nat n - 1) / of_nat n + 1 / of_nat n else a in
    let cx := map (fun i => i / of_nat n) (Np.arange n) in
    let cf := map (fun v => 1 - pow (xmin / v) (a - 1)) x in
    match Np.max (map PrimFloat.abs (Np.zip_with PrimFloat.sub cf cx)) with
    | Some ks => ks
    | None => nan (* not reached: the array has n > 0 entries *)
    end.

(** Clauset et al 2007 equation 3.2 *)
Definition sigma (alpha n : float) : float := (alpha - 1) / pow n 0.5.

Definition discrete_likelihood (data : list float) (xmin alpha : float) : exn + float :=
  if negb scipyOK then
    inl (ImportError "Can't import scipy.  Need scipy for zeta function.")
  else
    let zz := Np.mask_select data (map (fun v => geb v xmin) data) in
    let nn := length zz in
    let sum_log_data := Np.sum (map log zz) in
    let zeta_ := zeta alpha xmin in
    let L_of_alpha := of_Z (-1 * Z.of_nat nn) * log zeta_ - alpha * sum_log_data in
    inr L_of_alpha.

Definition discrete_likelihood_vector (data : list float) (xmin : float)
    (alpharange : float * float) (n_alpha : nat) : exn + list float :=
  if negb scipyOK then inl (ImportError "No module named 'scipy'")
  else
    let zz := Np.mask_select data (map (fun v => geb v xmin) data) in
    let nn := length zz in
    let alpha_vector := Np.linspace (fst alpharange) (snd alpharange) n_alpha in
    let sum_log_data := Np.sum (map log zz) in
    let zeta_vector := map (fun a => zeta a xmin) alpha_vector in
    let L_of_alpha :=
      Np.zip_with PrimFloat.sub
        (map (fun zv => of_Z (-1 * Z.of_nat nn) * log zv) zeta_vector)
        (map (fun a => a * sum_log_data) alpha_vector) in
    inr L_of_alpha.

Definition discrete_max_likelihood_arg (data : list float) (xmin : float)
    (alpharange : float * float) (n_alpha : nat) : exn + nat :=
  match discrete_likelihood_vector data xmin alpharange n_alpha with
  | inl e => inl e
  | inr likelihoods =>
      match Np.argmax likelihoods with
      | Some Largmax => inr Largmax
      | None => inl (ValueError "attempt to get argmax of an empty sequence")
      end
  end.

Definition most_likely_alpha (data : list float) (xmin : float)
    (alpharange : float * float) (n_alpha : nat) : exn + float :=
  let alpha_vector := Np.linspace (fst alpharange) (snd alpharange) n_alpha in
  match discrete_max_likelihood_arg data xmin alpharange n_alpha with
  | inl e => inl e
  | inr i =>
      match nth_error alpha_vector i with
      | Some a => inr a
      | None => inl IndexError
      end
  end.

(** Equation B.17 of Clauset et al 2009 *)
Definition discrete_alpha_mle (data : list float) (xmin : float) : float :=
  let gexmin := map (fun v => geb v xmin) data in
  let nn := Np.count_nonzero gexmin in
  if (nn <? 2)%nat then 0
  else
    let xx := Np.mask_select data gexmin in
    let alpha := 1.0 + of_nat nn * pow (Np.sum (map log (map (fun v => v / (xmin - 0.5)) xx))) (-1) in
    alpha.

Definition discrete_ksD (data : list float) (xmin alpha : float) : float :=
  let zz := Np.sort (Np.mask_select data (map (fun v => geb v xmin) data)) in
  let nn := of_nat (length zz) in
  if nn <? 2 then infinity
  else
    let model_cdf := map (fun v => 1.0 - pow (v / xmin) (1.0 - alpha)) zz in
    let data_cdf := map (fun v => of_nat (Np.searchsorted_left zz v) / nn) zz in
    match Np.max (map PrimFloat.abs (Np.zip_with PrimFloat.sub model_cdf data_cdf)) with
    | Some ks => ks
    | None => nan (* not reached: the array has at least two entries *)
    end.

End Primitives.

(* ================================================================== *)
(** ** The class [plfit] *)

Module plfit.
Section Methods.
Context {P : Platform}.
Import F64.
Open Scope float_scope.

Definition get_data : M (list float) := fun w => (inr (data (self w)), w).

Fixpoint mapM {A B : Type} (f : A -> M B) (l : list A) : M (list B) :=
  match l with
  | [] => ret []
  | a :: t => b <- f a ;; bs <- mapM f t ;; ret (b :: bs)
  end.

Definition empty_argmin : exn :=
  ValueError "attempt to get argmin of an empty sequence".

(** The values the xmin search settles on, lines 255-307. *)
Record selection : Type := {
  sel_kstest_values : list float;
  sel_alpha_values : list float;
  sel_sigma : list float;
  sel_nmax : Z;
  sel_best_ks_index : nat;
  sel_xmin : float
}.

(** [discrete_best_alpha(self, alpharangemults, n_alpha, approximate,
    verbose, finite)].  The local [n] is assigned only after the
    finite-size correction reads it. *)
Definition discrete_best_alpha (n_alpha : nat) (approximate verbose finite : bool)
    : M (float * float * float * float) :=
  data <- get_data ;;
  let xmins := Np.unique data in
  setattr (set_xmins xmins) ;;
  alpha_of_xmin <-
    (if approximate then ret (map (fun xmin => discrete_alpha_mle data xmin) xmins)
     else
       let alpha_approx := map (fun xmin => discrete_alpha_mle data xmin) xmins in
       let alpharanges := map (fun a => (0.9 * a, 1.1 * a)) alpha_approx in
       mapM (fun '(xmin, ar) => lift (most_likely_alpha data xmin ar n_alpha))
            (combine xmins alpharanges)) ;;
  let ksvalues :=
    map (fun '(xmin, alpha) => discrete_ksD data xmin alpha) (combine xmins alpha_of_xmin) in
  setattr (set_alpha_values alpha_of_xmin) ;;
  setattr (set_xmin_kstest ksvalues) ;;
  (* ksvalues[np.isnan(ksvalues)] = np.inf, in place: the attribute just
     bound is the same array and changes with it *)
  let ksvalues := map (fun k => if is_nan k then infinity else k) ksvalues in
  setattr (set_xmin_kstest ksvalues) ;;
  best_index <- or_raise empty_argmin (Np.argmin ksvalues) ;;
  best_alpha <- or_raise IndexError (nth_error alpha_of_xmin best_index) ;;
  setattr (set_alpha best_alpha) ;;
  best_xmin <- or_raise IndexError (nth_error xmins best_index) ;;
  setattr (set_xmin best_xmin) ;;
  best_ks <- or_raise IndexError (nth_error ksvalues best_index) ;;
  setattr (set_ks best_ks) ;;
  best_likelihood <- lift (discrete_likelihood data best_xmin best_alpha) ;;
  setattr (set_likelihood best_likelihood) ;;
  let n : option nat := None in
  (if finite then
     a <- getattr "_alpha" _alpha ;;
     n <- local "n" n ;;
     setattr (set_alpha (a * (of_nat n - 1) / of_nat n + 1 / of_nat n))
   else ret tt) ;;
  when verbose
    (print (DiscreteReport best_alpha best_xmin best_ks best_likelihood
              (Np.count_nonzero (map (fun v => v <? best_xmin) data))
              (Np.count_nonzero (map (fun v => geb v best_xmin) data)))) ;;
  xmin_ <- getattr "_xmin" _xmin ;;
  let n := Np.count_nonzero (map (fun v => geb v xmin_) data) in
  setattr (set_ngtx n) ;;
  a <- getattr "_alpha" _alpha ;;
  setattr (set_alphaerr ((a - 1.0) / PrimFloat.sqrt (of_nat n))) ;;
  (if scipyOK then
     ks <- getattr "_ks" _ks ;;
     setattr (set_ks_prob (ksone_sf ks n))
   else ret tt) ;;
  ret (best_alpha, best_xmin, best_ks, best_likelihood).

(** Lines 255-281: the per-candidate statistics, from the backend asked for. *)
Definition run_backend (kw : kwargs) (z xmins : list float) (argxmins : list nat)
    : M (list float * list float) :=
  '(kstest_values, alpha_values) <-
    (if kw_usefortran kw && fortranOK then
       let r := fplfit_plfit z in
       when (negb (kw_quiet kw)) (print (BackendExecuted "FORTRAN")) ;;
       ret r
     else if kw_usecy kw && cyOK then
       let r := cplfit_plfit_loop z xmins argxmins in
       when (negb (kw_quiet kw)) (print (BackendExecuted "CYTHON")) ;;
       ret r
     else
       let f_alpha := alpha_gen z in
       let f_kstest := kstest_gen z false false in
       let alpha_values := map f_alpha xmins in
       let kstest_values := map f_kstest xmins in
       when (negb (kw_quiet kw)) (print (BackendExecuted "PYTHON")) ;;
       ret (kstest_values, alpha_values)) ;;
  (if negb (kw_quiet kw) then
     if kw_usefortran kw && negb fortranOK then
       raise (ImportError "fortran fplfit did not load")
     else if kw_usecy kw && negb cyOK then
       raise (ImportError "cython cplfit did not load")
     else ret tt
   else ret tt) ;;
  ret (kstest_values, alpha_values).

(** Lines 290-304: [nmax], the end of the usable candidate range. *)
Definition usable_nmax (kw : kwargs) (sigma xmins : list float) : M Z :=
  if kw_nosmall kw then
    let goodvals := map (fun s => s <? 0.1) sigma in
    nmax <- or_raise empty_argmin (Np.argmin_bool goodvals) ;;
    if (Z.of_nat nmax <=? 0)%Z then
      let nmax := (Z.of_nat (length xmins) - 1)%Z in
      when (negb (kw_silent kw)) (print NotEnoughData) ;;
      ret nmax
    else ret (Z.of_nat nmax)
  else
    ret (Z.of_nat (length xmins) - 1)%Z.

(** Lines 255-317: the xmin search of the continuous fitter. *)
Definition search (kw : kwargs) (z xmins : list float) (argxmins : list nat)
    : M selection :=
  '(kstest_values, alpha_values) <- run_backend kw z xmins argxmins ;;
  sigma <- or_raise (ValueError "operands could not be broadcast together")
             (Np.broadcast2 (fun a i => (a - 1) / PrimFloat.sqrt (of_nat (length z - i)))
                alpha_values argxmins) ;;
  nmax <- usable_nmax kw sigma xmins ;;
  best_ks_index <- or_raise empty_argmin (Np.argmin (Np.slice_to kstest_values nmax)) ;;
  xmin <- or_raise IndexError (nth_error xmins best_ks_index) ;;
  setattr (set_alpha_values alpha_values) ;;
  setattr (set_xmin_kstest kstest_values) ;;
  when scipyOK
    (setattr (set_ks_prob_all
                (map (fun '(D_stat, ii) => ksone_sf D_stat (length kstest_values - ii))
                     (Np.enumerate kstest_values)))) ;;
  setattr (set_sigma sigma) ;;
  ret {| sel_kstest_values := kstest_values; sel_alpha_values := alpha_values;
         sel_sigma := sigma; sel_nmax := nmax;
         sel_best_ks_index := best_ks_index; sel_xmin := xmin |}.

(** Line 321: alpha computed directly at the selected threshold. *)
Definition direct_alpha (z : list float) (xmin : float) : float :=
  let n := Np.count_nonzero (map (fun v => geb v xmin) z) in
  1 + of_nat n
      / Np.sum (map log (map (fun v => v / xmin)
                           (Np.mask_select z (map (fun v => geb v xmin) z)))).

(** Lines 319-336: the sanity check. *)
Definition consistency_check (kw : kwargs) (z : list float) (s : selection) : M unit :=
  let alpha := direct_alpha z (sel_xmin s) in
  if kw_skip_consistency_check kw then ret tt
  else
    reported <- or_raise IndexError (nth_error (sel_alpha_values s) (sel_best_ks_index s)) ;;
    if assert_almost_equal alpha reported 4 then ret tt
    else raise (AssertionError alpha reported).

(** Lines 338-394: the fit at the threshold [xmin]. *)
Definition fit_at (kw : kwargs) (z xmins : list float) (xmin : float) : M (float * float) :=
  let z := Np.mask_select z (map (fun v => geb v xmin) z) in
  let n := length z in
  let alpha := 1 + of_nat n / Np.sum (map log (map (fun v => v / xmin) z)) in
  alpha <- (if kw_finite kw then
              if (n =? 0)%nat then raise ZeroDivisionError
              else ret (alpha * (of_nat n - 1) / of_nat n + 1 / of_nat n)
            else ret alpha) ;;
  when ((n <? 50)%nat && negb (kw_finite kw) && negb (kw_silent kw))
    (print (FiniteSizeBias n)) ;;
  ks <- or_raise
          (ValueError "zero-size array to reduction operation maximum which has no identity")
          (Np.max (map PrimFloat.abs
                     (Np.zip_with PrimFloat.sub
                        (map (fun i => i / of_nat n) (Np.arange n))
                        (map (fun v => 1 - pow (xmin / v) (alpha - 1)) z)))) ;;
  let L := of_nat n * log ((alpha - 1) / xmin)
           - alpha * Np.sum (map log (map (fun v => v / xmin) z)) in
  setattr (set_likelihood L) ;;
  setattr (set_xmin xmin) ;;
  setattr (set_xmins xmins) ;;
  setattr (set_alpha alpha) ;;
  setattr (set_alphaerr ((alpha - 1) / PrimFloat.sqrt (of_nat n))) ;;
  setattr (set_ks ks) ;;
  when scipyOK (setattr (set_ks_prob (ksone_sf ks n))) ;;
  setattr (set_ngtx n) ;;
  if (n =? 1)%nat then
    when (negb (kw_silent kw)) (print OnlyOnePoint) ;;
    setattr (set_alpha 0) ;;
    setattr (set_alphaerr 0) ;;
    setattr (set_likelihood 0) ;;
    setattr (set_ks 0) ;;
    setattr (set_ks_prob 0) ;;
    setattr (set_xmin xmin) ;;
    ret (xmin, 0)
  else if is_nan L || is_nan xmin || is_nan alpha then
    raise (ValueError "plfit failed; returned a nan")
  else
    (if negb (kw_quiet kw) then
       alphaerr <- getattr "_alphaerr" _alphaerr ;;
       ks_prob <- (if scipyOK then p <- getattr "_ks_prob" _ks_prob ;; ret (Some p)
                   else ret None) ;;
       print (FitReport (kw_verbose kw) xmin n alpha alphaerr L ks ks_prob)
     else ret tt) ;;
    ret (xmin, alpha).

Definition negative_data : exn :=
  ValueError "Power law distributions are only valid for positive data.  Remove negative values before fitting.".

(** Lines 236-245: continuous or discrete, when the caller does not say. *)
Definition classify (kw : kwargs) (x xmins : list float) : M (option bool) :=
  match kw_discrete kw with
  | Some b => ret (Some b)
  | None =>
      if (length xmins =? length x)%nat then
        when (kw_verbose kw) (print UsingContinuous) ;;
        ret (Some false)
      else if (length xmins <? length x)%nat then
        when (kw_verbose kw) (print UsingDiscrete) ;;
        ret (Some true)
      else ret None
  end.

(** Lines 255-394: the continuous fitter with its xmin search. *)
Definition continuous_fit (kw : kwargs) (z xmins : list float) (argxmins : list nat)
    : M (float * float) :=
  s <- search kw z xmins argxmins ;;
  consistency_check kw z s ;;
  fit_at kw z xmins (sel_xmin s).

(** Lines 228-394: the method once the data has passed its validation. *)
Definition fit_checked (kw : kwargs) (x : list float) : M (float * float) :=
  let z := Np.sort x in
  let '(xmins, argxmins) := Np.unique_index z in
  setattr (set_nunique (length xmins)) ;;
  discrete <- classify kw x xmins ;;
  match kw_xmin kw with
  | None =>
      match discrete with
      | Some true =>
          discrete_best_alpha (kw_discrete_n_alpha kw) (kw_discrete_approx kw)
            (kw_verbose kw) (kw_finite kw) ;;
          xmin_ <- getattr "_xmin" _xmin ;;
          alpha_ <- getattr "_alpha" _alpha ;;
          ret (xmin_, alpha_)
      | _ => continuous_fit kw z xmins argxmins
      end
  | Some xmin => fit_at kw z xmins xmin
  end.

(** [plfit.plfit(self, nosmall, finite, quiet, silent, usefortran, usecy,
    xmin, verbose, discrete, discrete_approx, discrete_n_alpha,
    skip_consistency_check)] *)
Definition plfit (kw : kwargs) : M (float * float) :=
  x <- get_data ;;
  if existsb (fun v => v <? 0) x then raise negative_data
  else fit_checked kw x.

(** [plfit.__init__(self, x, **kwargs)]; what the call of [self.plfit]
    returns is dropped by Python and kept here. *)
Definition __init__ (x : list float) (kw : kwargs) : M (float * float) :=
  let negative := Np.count_nonzero (map (fun v => v <? 0) x) in
  x <- (if (0 <? negative)%nat then
          print (RemovedNegative negative) ;;
          ret (Np.mask_select x (map (fun v => gtb v 0) x))
        else ret x) ;;
  setattr (set_data x) ;;
  plfit kw.

End Methods.
End plfit.

(* ================================================================== *)
(** ** A reference platform

    To run the fitter on a sample the elementary functions have to be
    computed.  [Ref] supplies them in binary64 arithmetic: [log], [exp]
    and [pow] agree with the C library at the special values (zeros,
    infinities, NaN, [log 1 = 0], [pow 1 y = 1], [pow x 0 = 1],
    [pow x (-1) = 1/x]) and approximate it elsewhere; [ksone_sf] and
    [zeta] follow the textbook sums.  No statement below depends on the
    last digits of a value they return.  scipy is taken as installed, the
    compiled backends as absent. *)

Module Ref.
Import F64.
Open Scope float_scope.

Definition ln2 : float := 0x1.62e42fefa39efp-1.
Definition sqrt_half : float := 0x1.6a09e667f3bcdp-1.

(** [1/i + t2/(i+2) + t2^2/(i+4) + ...], [k] terms, by Horner's rule. *)
Fixpoint atanh_series (k : nat) (i t2 : float) : float :=
  match k with
  | O => 0
  | S k' => 1 / i + t2 * atanh_series k' (i + 2) t2
  end.

Definition log (x : float) : float :=
  if is_nan x then nan
  else if x <? 0 then nan
  else if x =? 0 then neg_infinity
  else if x =? infinity then infinity
  else
    let (m, e) := Z.frexp x in
    let (m, e) := if m <? sqrt_half then (2 * m, (e - 1)%Z) else (m, e) in
    let t := (m - 1) / (m + 1) in
    of_Z e * ln2 + 2 * t * atanh_series 14 1 (t * t).

(** [1 + r/i (1 + r/(i+1) (1 + ...))], [k] terms. *)
Fixpoint exp_series (k : nat) (i r : float) : float :=
  match k with
  | O => 1
  | S k' => 1 + r / i * exp_series k' (i + 1) r
  end.

Definition round_int (x : float) : float :=
  if x <? 0 then (x - 0x1p52) + 0x1p52 else (x + 0x1p52) - 0x1p52.

Definition exp (x : float) : float :=
  if is_nan x then nan
  else if 710 <? x then infinity
  else if x <? -746 then 0
  else
    let k := round_int (x / ln2) in
    let r := x - k * ln2 in
    Z.ldexp (exp_series 22 1 r) (to_Z k).

Definition is_integer (y : float) : bool :=
  is_finite y && ((0x1p52 <=? PrimFloat.abs y) || (round_int y =? y)).

Definition is_odd (y : float) : bool :=
  is_integer y && (PrimFloat.abs y <? 0x1p53) && Z.odd (to_Z y).

Definition pow (x y : float) : float :=
  if y =? 0 then 1
  else if x =? 1 then 1
  else if is_nan x || is_nan y then nan
  else if y =? 1 then x
  else if y =? -1 then 1 / x
  else if x =? 0 then
    let negative := get_sign x && is_odd y in
    if y <? 0 then (if negative then neg_infinity else infinity)
    else (if negative then neg_zero else 0)
  else if 0 <? x then exp (y * log x)
  else if is_integer y || is_infinity y || is_infinity x then
    let r := exp (y * log (- x)) in
    if is_odd y then - r else r
  else nan.

(** The survival function of the one-sided Kolmogorov-Smirnov statistic,
    by the Birnbaum-Tingey sum. *)
Fixpoint powi (b : float) (k : nat) : float :=
  match k with
  | O => 1
  | S k' => b * powi b k'
  end.

Fixpoint smirnov_sum (fuel j : nat) (c : float) (n : nat) (x : float) : float :=
  match fuel with
  | O => 0
  | S fuel' =>
      let t := of_nat j / of_nat n in
      if 1 <? x + t then 0
      else
        let a := match j with O => 1 / x | S j' => powi (x + t) j' end in
        c * a * powi (1 - x - t) (n - j)
        + smirnov_sum fuel' (S j) (c * of_nat (n - j) / of_nat (S j)) n x
  end.

Definition ksone_sf (x : float) (n : nat) : float :=
  if is_nan x then nan
  else match n with
       | O => nan
       | _ => if x <=? 0 then 1
              else if 1 <=? x then 0
              else x * smirnov_sum (S n) 0 1 n x
       end.

(** The Hurwitz zeta function, by Euler-Maclaurin summation after ten
    terms. *)
Fixpoint zeta_head (k : nat) (q s : float) : float :=
  match k with
  | O => 0
  | S k' => pow q (- s) + zeta_head k' (q + 1) s
  end.

Definition zeta (s q : float) : float :=
  if is_nan s || is_nan q then nan
  else if s =? 1 then infinity
  else if s <? 1 then nan
  else if q <=? 0 then (if is_integer q then infinity else nan)
  else
    let a := q + 10 in
    let w := pow a (- s) in
    let a2 := a * a in
    let t1 := s * w / a in
    let t3 := t1 * (s + 1) * (s + 2) / a2 in
    let t5 := t3 * (s + 3) * (s + 4) / a2 in
    let t7 := t5 * (s + 5) * (s + 6) / a2 in
    zeta_head 10 q s + a * w / (s - 1) + w / 2
    + t1 / 12 - t3 / 720 + t5 / 30240 - t7 / 1209600.

#[export] Instance platform : Platform :=
  Build_Platform log pow ksone_sf zeta true false false
    (fun _ => ([], [])) (fun _ _ _ => ([], [])).

(** A platform whose cython backend loaded and is off by [d] in every
    alpha it reports; its KS distances are those of the numpy code.  The
    docstring of [plfit.plfit] warns of numerical error in that backend. *)
Definition cython_off_by (d : float) : Platform :=
  Build_Platform log pow ksone_sf zeta true false true
    (fun _ => ([], []))
    (fun z xmins _ =>
       (map (kstest_gen z false false) xmins,
        map (fun xmin => alpha_gen z xmin + d) xmins)).

(** Running the constructor on a fresh instance. *)
Definition run (x : list float) (kw : kwargs) : (exn + float * float) * world :=
  plfit.__init__ x kw (mk_world new_obj []).

(** An instance holding [x] that has printed nothing yet. *)
Definition holding (x : list float) : world := mk_world (set_data x new_obj) [].

(** Running the xmin search of the continuous fitter on the data [x], as
    [plfit.plfit] sets it up. *)
Definition search_on (x : list float) (kw : kwargs) : (exn + plfit.selection) * world :=
  let z := Np.sort x in
  plfit.search kw z (fst (Np.unique_index z)) (snd (Np.unique_index z)) (holding x).

(** Samples the theorems below are run on. *)
Definition sample_spread : list float := [1; 10; 1e7; 2e7; 3e7].
Definition sample_zero : list float := [0; 1; 2; 3].
Definition sample_tied_max : list float := [1; 2; 2].
Definition sample_small : list float := [1; 2; 3].
Definition sample_nan : list float := [1; nan].
Definition sample_ties : list float := [1; 1; 2; 2; 3; 4; 5; 10; 20; 50].
Definition sample_zeros : list float := [0; 0; 1].
Definition sample_negative : list float := [-1; 0; 1; 2; 3].
Definition sample_single : list float := [5].
Definition sample_two_nan : list float := [1; nan; nan].
Definition sample_heavy : list float := [1; 1e3; 1e6; 1e9; 1e12].

End Ref.


(* ================================================================== *)
(** ** The formulas and notions of the specification *)

Section Specification.
Context {P : Platform}.
Import F64.
Open Scope float_scope.

(** Section 4.1: [alpha = 1 + n / sum(log(x_i / xmin))] over the points
    [x_i >= xmin], [n] their count; the sentinel 0 below two points. *)
Definition spec_alpha (x : list float) (xmin : float) : float :=
  let qualifying := filter (fun xi => geb xi xmin) x in
  let n := length qualifying in
  if (2 <=? n)%nat then
    1 + of_nat n / Np.sum (map (fun xi => log (xi / xmin)) qualifying)
  else 0.

(** Section 4.2: [alpha = 1 + n * (sum(log(x_i/(xmin-0.5))))^-1]. *)
Definition spec_discrete_alpha (data : list float) (xmin : float) : float :=
  let qualifying := filter (fun xi => geb xi xmin) data in
  let n := length qualifying in
  if (2 <=? n)%nat then
    1.0 + of_nat n * pow (Np.sum (map (fun xi => log (xi / (xmin - 0.5))) qualifying)) (-1)
  else 0.

(** The index of the first entry that passes a test. *)
Fixpoint first_index {A : Type} (p : A -> bool) (l : list A) : option nat :=
  match l with
  | [] => None
  | a :: t => if p a then Some 0%nat else option_map S (first_index p t)
  end.

(** Entry [i] of [range] is a minimum of the range, and the first one. *)
Definition minimal_first (range : list float) (i : nat) : Prop :=
  exists m, nth_error range i = Some m /\
    forall j v, nth_error range j = Some v ->
      (m <=? v) = true /\ ((j < i)%nat -> (m <? v) = true).

(** Entry [i] of [range] is the first NaN of the range. *)
Definition first_nan (range : list float) (i : nat) : Prop :=
  exists m, nth_error range i = Some m /\ is_nan m = true /\
    forall j v, (j < i)%nat -> nth_error range j = Some v -> is_nan v = false.

(** The exceptions of a fit other than the two the claims single out,
    the rejection of negative data and the failed consistency check. *)
Definition fit_exception (e : exn) : Prop :=
  match e with
  | ValueError _ => e <> plfit.negative_data
  | AssertionError _ _ => False
  | _ => True
  end.

(** The exceptions of the method past its validation: a failed
    consistency check, which takes [skip_consistency_check] off, or one
    of [fit_exception]. *)
Definition checked_exception (kw : kwargs) (e : exn) : Prop :=
  fit_exception e
  \/ (kw_skip_consistency_check kw = false /\ exists a b, e = AssertionError a b).


(** The candidates [xmins[:nmax]] the minimisation ranges over. *)
Definition usable_range (xmins : list float) (nmax : Z) : list float :=
  Np.slice_to xmins nmax.

End Specification.


(* ================================================================== *)
(** ** The module-level discrete fitter

    [discrete_best_alpha(data, alpharangemults, n_alpha, approximate,
    verbose)], the function the method of the same name was written
    from.  It binds no attribute, and it hands the KS values to [argmin]
    as they are, NaN included.  [alpharangemults] is not read by the
    body, which multiplies by 0.9 and 1.1. *)

Section Functions.
Context {P : Platform}.
Import F64.
Open Scope float_scope.

Definition discrete_max_likelihood (data : list float) (xmin : float)
    (alpharange : float * float) (n_alpha : nat) : exn + float :=
  match discrete_likelihood_vector data xmin alpharange n_alpha with
  | inl e => inl e
  | inr likelihoods =>
      match Np.max likelihoods with
      | Some Lmax => inr Lmax
      | None =>
          inl (ValueError "zero-size array to reduction operation maximum which has no identity")
      end
  end.

Definition discrete_best_alpha (data : list float) (alpharangemults : float * float)
    (n_alpha : nat) (approximate verbose : bool) : M (float * float * float * float) :=
  let xmins := Np.unique data in
  alpha_of_xmin <-
    (if approximate then ret (map (fun xmin => discrete_alpha_mle data xmin) xmins)
     else
       let alpha_approx := map (fun xmin => discrete_alpha_mle data xmin) xmins in
       let alpharanges := map (fun a => (0.9 * a, 1.1 * a)) alpha_approx in
       plfit.mapM (fun '(xmin, ar) => lift (most_likely_alpha data xmin ar n_alpha))
                  (combine xmins alpharanges)) ;;
  let ksvalues :=
    map (fun '(xmin, alpha) => discrete_ksD data xmin alpha) (combine xmins alpha_of_xmin) in
  best_index <- or_raise plfit.empty_argmin (Np.argmin ksvalues) ;;
  best_alpha <- or_raise IndexError (nth_error alpha_of_xmin best_index) ;;
  best_xmin <- or_raise IndexError (nth_error xmins best_index) ;;
  best_ks <- or_raise IndexError (nth_error ksvalues best_index) ;;
  best_likelihood <- lift (discrete_likelihood data best_xmin best_alpha) ;;
  when verbose
    (print (DiscreteReport best_alpha best_xmin best_ks best_likelihood
              (Np.count_nonzero (map (fun v => v <? best_xmin) data))
              (Np.count_nonzero (map (fun v => geb v best_xmin) data)))) ;;
  ret (best_alpha, best_xmin, best_ks, best_likelihood).

End Functions.

(* ================================================================== *)
(** ** The diagnostic plots

    [xminvsks] and [alphavsks] read the attributes a fit has bound and
    hand them to pylab.  pylab is outside the module: its calls are
    recorded, in order, on a canvas, and what was drawn before an
    exception stays drawn.  The axes object the methods return carries
    nothing here. *)

Inductive pylab_call : Type :=
| Plot (x y : list float) (fmt : string)
| PlotPoint (x y : float) (fmt : string)
| Errorbar (x y xerr : float) (fmt : string)
| Gca
| SetYlim (lo hi : float)
| SetXlim (lo hi : float)
| SetYlabel (label : string)
| SetXlabel (label : string)
| Draw.

Section Plots.
Open Scope float_scope.

(** Reading [self.name] in a method that draws. *)
Definition reading {A B : Type} (name : string) (a : option A) (canvas : list pylab_call)
    (k : A -> (exn + B) * list pylab_call) : (exn + B) * list pylab_call :=
  match a with
  | Some v => k v
  | None => (inl (AttributeError name), canvas)
  end.

Definition xminvsks (self : plfit_obj) (canvas : list pylab_call)
    : (exn + unit) * list pylab_call :=
  reading "_xmins" (_xmins self) canvas (fun xmins =>
  reading "_xmin_kstest" (_xmin_kstest self) canvas (fun xmin_kstest =>
  let canvas := canvas ++ [Plot xmins xmin_kstest "."] in
  reading "_xmin" (_xmin self) canvas (fun xmin =>
  reading "_ks" (_ks self) canvas (fun ks =>
  let canvas := canvas ++ [PlotPoint xmin ks "s"] in
  (inr tt,
   canvas ++ [Gca; SetYlabel "KS statistic"; SetXlabel "min(x)"; Draw]))))).

Definition alphavsks (autozoom : bool) (self : plfit_obj) (canvas : list pylab_call)
    : (exn + unit) * list pylab_call :=
  reading "_alpha_values" (_alpha_values self) canvas (fun alpha_values =>
  reading "_xmin_kstest" (_xmin_kstest self) canvas (fun xmin_kstest =>
  let canvas := canvas ++ [Plot alpha_values xmin_kstest "."] in
  reading "_alpha" (_alpha self) canvas (fun alpha =>
  reading "_ks" (_ks self) canvas (fun ks =>
  reading "_alphaerr" (_alphaerr self) canvas (fun alphaerr =>
  let canvas := canvas ++ [Errorbar alpha ks alphaerr "+"; Gca] in
  let canvas :=
    if autozoom then
      canvas ++ [SetYlim (0.8 * ks) (3 * ks);
                 SetXlim (alpha - 5 * alphaerr) (alpha + 5 * alphaerr)]
    else canvas in
  (inr tt, canvas ++ [SetYlabel "KS statistic"; SetXlabel "$\alpha$"; Draw])))))).

End Plots.

(* ================================================================== *)
(** ** The piecewise distribution

    [plexp_cdf] and [plexp_pdf]: exponential below [xmin], power law from
    [xmin] on.  [x] is the array; [xmin] and [alpha] are Python numbers,
    as their defaults are, so that the two quotients [-xmin/(1 - alpha)]
    and [xmin/alpha] of the constant [C] are Python divisions, which
    raise [ZeroDivisionError] on a zero divisor.  Every other division
    has a numpy number or the array on one side and returns an infinity
    or a NaN instead; those of the two lambdas that are Python divisions
    again have the divisors [C] has already divided by.  [exp] is
    numpy's. *)

(** Boolean-mask assignment [d[mask] = values]: the values go, in order,
    to the places where the mask is on; [None] stands for the
    [ValueError] numpy raises when their number is not that of the
    places. *)
Fixpoint mask_assign {A : Type} (d : list A) (mask : list bool) (values : list A)
    : option (list A) :=
  match d, mask with
  | a :: d', b :: mask' =>
      if b then
        match values with
        | v :: values' => option_map (cons v) (mask_assign d' mask' values')
        | [] => None
        end
      else option_map (cons a) (mask_assign d' mask' values)
  | _, _ => match values with [] => Some d | _ => None end
  end.

Section Piecewise.
Context {P : Platform}.
Variable exp : float -> float.
Import F64.
Open Scope float_scope.

Definition shape_mismatch : exn :=
  ValueError "NumPy boolean array indexing assignment cannot assign input values to the output values where the mask is true".

(** [a / b] on Python floats *)
Definition py_div (a b : float) : exn + float :=
  if b =? 0 then inl ZeroDivisionError else inr (a / b).

(** [C = 1/(-xmin/(1 - alpha) - xmin/alpha + exp(alpha)*xmin/alpha)],
    its operands evaluated from left to right. *)
Definition plexp_C (xmin alpha : float) : exn + float :=
  match py_div (- xmin) (1 - alpha) with
  | inl e => inl e
  | inr q1 =>
      match py_div xmin alpha with
      | inl e => inl e
      | inr q2 => inr (1 / (q1 - q2 + exp alpha * xmin / alpha))
      end
  end.

Definition plexp_cdf (x : list float) (xmin alpha : float) (pl_only exp_only : bool)
    : exn + list float :=
  match plexp_C xmin alpha with
  | inl e => inl e
  | inr C =>
      let Ppl := fun X : list float =>
        map (fun v => 1 + C * (xmin / (1 - alpha) * pow (v / xmin) (1 - alpha))) X in
      let Pexp := fun X : list float =>
        map (fun v => C * xmin / alpha * exp alpha
                      - C * (xmin / alpha) * exp (- alpha * (v / xmin - 1))) X in
      if exp_only then inr (Pexp x)
      else if pl_only then inr (Ppl x)
      else
        let d := Ppl x in
        let below := map (fun v => v <? xmin) x in
        match mask_assign d below (Np.mask_select (Pexp x) below) with
        | Some d => inr d
        | None => inl shape_mismatch
        end
  end.

Definition plexp_pdf (x : list float) (xmin alpha : float) : exn + list float :=
  match plexp_C xmin alpha with
  | inl e => inl e
  | inr C =>
      let Ppl := fun X : list float => map (fun v => C * pow (v / xmin) (- alpha)) X in
      let Pexp := fun X : list float =>
        map (fun v => C * exp (- alpha * (v / xmin - 1))) X in
      let d := Ppl x in
      let below := map (fun v => v <? xmin) x in
      match mask_assign d below (Np.mask_select (Pexp x) below) with
      | Some d => inr d
      | None => inl shape_mismatch
      end
  end.

End Piecewise.

(* ================================================================== *)
(** ** Notions the properties are stated with *)

Section Notions.
Context {P : Platform}.
Import F64.
Open Scope float_scope.

(** [m] leaves the sample alone, whatever it ends in. *)
Definition keeps_data {A : Type} (m : M A) : Prop :=
  forall w r w', m w = (r, w') -> data (self w') = data (self w).

(** [m] prints nothing, whatever it ends in. *)
Definition prints_nothing {A : Type} (m : M A) : Prop :=
  forall w r w', m w = (r, w') -> stdout w' = stdout w.

(** Two computations that end alike and leave the instance alike, from
    instances that are alike; what they print is not compared. *)
Definition same_outcome {A : Type} (m1 m2 : M A) : Prop :=
  forall w1 w2, self w1 = self w2 ->
    fst (m1 w1) = fst (m2 w2) /\ self (snd (m1 w1)) = self (snd (m2 w2)).

Definition with_quiet (v : bool) (kw : kwargs) : kwargs :=
  Build_kwargs (kw_nosmall kw) (kw_finite kw) v (kw_silent kw)
    (kw_usefortran kw) (kw_usecy kw) (kw_xmin kw) (kw_verbose kw) (kw_discrete kw)
    (kw_discrete_approx kw) (kw_discrete_n_alpha kw) (kw_skip_consistency_check kw).

Definition with_verbose (v : bool) (kw : kwargs) : kwargs :=
  Build_kwargs (kw_nosmall kw) (kw_finite kw) (kw_quiet kw) (kw_silent kw)
    (kw_usefortran kw) (kw_usecy kw) (kw_xmin kw) v (kw_discrete kw)
    (kw_discrete_approx kw) (kw_discrete_n_alpha kw) (kw_skip_consistency_check kw).

Definition with_usefortran (v : bool) (kw : kwargs) : kwargs :=
  Build_kwargs (kw_nosmall kw) (kw_finite kw) (kw_quiet kw) (kw_silent kw)
    v (kw_usecy kw) (kw_xmin kw) (kw_verbose kw) (kw_discrete kw)
    (kw_discrete_approx kw) (kw_discrete_n_alpha kw) (kw_skip_consistency_check kw).

Definition with_usecy (v : bool) (kw : kwargs) : kwargs :=
  Build_kwargs (kw_nosmall kw) (kw_finite kw) (kw_quiet kw) (kw_silent kw)
    (kw_usefortran kw) v (kw_xmin kw) (kw_verbose kw) (kw_discrete kw)
    (kw_discrete_approx kw) (kw_discrete_n_alpha kw) (kw_skip_consistency_check kw).

(** The fit runs on the numpy code of the module: neither compiled
    backend is asked for, as by default. *)
Definition python_only (kw : kwargs) : Prop :=
  kw_usefortran kw = false /\ kw_usecy kw = false.

(** No compiled backend is asked for that did not load. *)
Definition no_backend_missing (kw : kwargs) : Prop :=
  kw_usefortran kw && negb fortranOK = false /\ kw_usecy kw && negb cyOK = false.

(** The call goes to the continuous fitter and searches for xmin: no
    [xmin] is given, and [discrete] is off, or left to the data and no
    value of the data repeats. *)
Definition continuous_search (kw : kwargs) (x : list float) : Prop :=
  kw_xmin kw = None
  /\ (kw_discrete kw = Some false
      \/ (kw_discrete kw = None /\ length (Np.unique (Np.sort x)) = length x)).

(** The call goes to the discrete fitter: no [xmin] is given, and
    [discrete] is on, or left to the data when [np.unique] finds fewer
    values than the sample has entries. *)
Definition discrete_chosen (kw : kwargs) (x : list float) : bool :=
  match kw_xmin kw, kw_discrete kw with
  | Some _, _ => false
  | None, Some b => b
  | None, None => (length (Np.unique (Np.sort x)) <? length x)%nat
  end.

(** Two entries of the sample, at different places, compare equal. *)
Fixpoint has_repeat (x : list float) : bool :=
  match x with
  | [] => false
  | a :: t => existsb (fun b => a =? b) t || has_repeat t
  end.

(** [np.unique] finds fewer values than the sample has entries: two
    entries compare equal, or two entries are NaN, which [np.unique]
    counts as one value. *)
Definition repeated_value (x : list float) : bool :=
  has_repeat x || (2 <=? Np.count_nonzero (map is_nan x))%nat.

(** The tolerance of the consistency check is a positive number, as
    [1.5 * 10**-4] is for the C library's [pow]. *)
Definition tolerance_positive : Prop :=
  (0 <? 1.5 * pow 10 (- of_nat 4)) = true.

End Notions.

(* ================================================================== *)
(** ** Facts on binary64 comparisons *)

Module F64Facts.
Import F64.
Open Scope float_scope.

Lemma SFcompare_key (a b : spec_float) (ka kb : Z * Z * Z) :
  key a = Some ka -> key b = Some kb ->
  SFcompare a b = Some (kcompare ka kb).
Proof.
  destruct a as [[|]| [|] | | [|] m e]; destruct b as [[|]| [|] | | [|] m' e'];
    simpl; intros Ha Hb; try discriminate;
    injection Ha as <-; injection Hb as <-; simpl; try reflexivity.
  rewrite Z.compare_opp, (Z.compare_antisym e e').
  destruct (e ?= e')%Z; reflexivity.
Qed.

Lemma SFcompare_nan_l (a b : spec_float) : key a = None -> SFcompare a b = None.
Proof. destruct a as [[|]| [|] | | [|] m e]; simpl; intros; try discriminate; reflexivity. Qed.

Lemma SFcompare_nan_r (a b : spec_float) : key b = None -> SFcompare a b = None.
Proof.
  destruct b as [[|]| [|] | | [|] m e]; simpl; intros; try discriminate.
  destruct a; reflexivity.
Qed.

Lemma kcompare_lt (ka kb : Z * Z * Z) : kcompare ka kb = Lt <-> klt ka kb.
Proof.
  destruct ka as [[c1 e1] m1], kb as [[c2 e2] m2]; unfold klt, kcompare.
  destruct (Z.compare_spec c1 c2); destruct (Z.compare_spec e1 e2);
    destruct (Z.compare_spec m1 m2); split; intros; try discriminate; try reflexivity; lia.
Qed.

Lemma kcompare_eq (ka kb : Z * Z * Z) : kcompare ka kb = Eq <-> keq ka kb.
Proof.
  destruct ka as [[c1 e1] m1], kb as [[c2 e2] m2]; unfold keq, kcompare.
  destruct (Z.compare_spec c1 c2); destruct (Z.compare_spec e1 e2);
    destruct (Z.compare_spec m1 m2); split; intros; try discriminate; try reflexivity; lia.
Qed.

(** The comparisons of binary64, read on keys. *)
Lemma ltb_fkey (a b : float) :
  (a <? b) = true <->
  match fkey a, fkey b with
  | Some ka, Some kb => klt ka kb
  | _, _ => False
  end.
Proof.
  rewrite FloatAxioms.ltb_spec. unfold SFltb, fkey.
  destruct (key (Prim2SF a)) as [ka|] eqn:Ha.
  - destruct (key (Prim2SF b)) as [kb|] eqn:Hb.
    + rewrite (SFcompare_key _ _ _ _ Ha Hb), <- kcompare_lt.
      destruct (kcompare ka kb); split; congruence.
    + rewrite (SFcompare_nan_r _ _ Hb). split; [discriminate | tauto].
  - rewrite (SFcompare_nan_l _ _ Ha). split; [discriminate | tauto].
Qed.

Lemma leb_fkey (a b : float) :
  (a <=? b) = true <->
  match fkey a, fkey b with
  | Some ka, Some kb => klt ka kb \/ keq ka kb
  | _, _ => False
  end.
Proof.
  rewrite FloatAxioms.leb_spec. unfold SFleb, fkey.
  destruct (key (Prim2SF a)) as [ka|] eqn:Ha.
  - destruct (key (Prim2SF b)) as [kb|] eqn:Hb.
    + rewrite (SFcompare_key _ _ _ _ Ha Hb), <- kcompare_lt, <- kcompare_eq.
      destruct (kcompare ka kb); split; intros H; auto; try discriminate;
        destruct H as [H | H]; discriminate.
    + rewrite (SFcompare_nan_r _ _ Hb). split; [discriminate | tauto].
  - rewrite (SFcompare_nan_l _ _ Ha). split; [discriminate | tauto].
Qed.

Lemma eqb_fkey (a b : float) :
  (a =? b) = true <->
  match fkey a, fkey b with
  | Some ka, Some kb => keq ka kb
  | _, _ => False
  end.
Proof.
  rewrite FloatAxioms.eqb_spec. unfold SFeqb, fkey.
  destruct (key (Prim2SF a)) as [ka|] eqn:Ha.
  - destruct (key (Prim2SF b)) as [kb|] eqn:Hb.
    + rewrite (SFcompare_key _ _ _ _ Ha Hb), <- kcompare_eq.
      destruct (kcompare ka kb); split; congruence.
    + rewrite (SFcompare_nan_r _ _ Hb). split; [discriminate | tauto].
  - rewrite (SFcompare_nan_l _ _ Ha). split; [discriminate | tauto].
Qed.

Lemma is_nan_fkey (a : float) : is_nan a = true <-> fkey a = None.
Proof.
  unfold is_nan. rewrite negb_true_iff, <- not_true_iff_false, eqb_fkey.
  destruct (fkey a) as [[[c e] m]|]; unfold keq; split; intros H;
    try discriminate; try tauto.
Qed.

(** Rewrites every comparison in sight to keys and leaves linear
    arithmetic on the keys' components. *)
Ltac float_order :=
  repeat match goal with
         | H : _ = false |- _ => apply not_true_iff_false in H
         | |- _ = false => apply not_true_iff_false
         end;
  unfold geb, gtb in *;
  rewrite ?ltb_fkey, ?leb_fkey, ?is_nan_fkey in *;
  repeat match goal with
         | H : context [fkey ?x] |- _ => destruct (fkey x) as [[[? ?] ?]|]
         | |- context [fkey ?x] => destruct (fkey x) as [[[? ?] ?]|]
         end;
  unfold klt, keq in *;
  try tauto; try congruence; try lia.

Lemma leb_total (a b : float) :
  is_nan a = false -> is_nan b = false -> (a <=? b) = false -> (b <? a) = true.
Proof. intros. float_order. Qed.

Lemma ltb_trans (a b c : float) : (a <? b) = true -> (b <? c) = true -> (a <? c) = true.
Proof. intros. float_order. Qed.

Lemma ltb_leb_trans (a b c : float) : (a <? b) = true -> (b <=? c) = true -> (a <? c) = true.
Proof. intros. float_order. Qed.

Lemma leb_trans (a b c : float) : (a <=? b) = true -> (b <=? c) = true -> (a <=? c) = true.
Proof. intros. float_order. Qed.

Lemma ltb_leb (a b : float) : (a <? b) = true -> (a <=? b) = true.
Proof. intros. float_order. Qed.

Lemma leb_refl (a : float) : is_nan a = false -> (a <=? a) = true.
Proof. intros. float_order. Qed.

Lemma ltb_asym (a b : float) : (a <? b) = true -> (b <? a) = false.
Proof. intros. float_order. Qed.

Lemma leb_nan_l (a b : float) : is_nan a = true -> (a <=? b) = false.
Proof. intros. float_order. Qed.

Lemma leb_nan_r (a b : float) : is_nan b = true -> (a <=? b) = false.
Proof. intros. float_order. Qed.

Lemma ltb_not_nan (a b : float) : (a <? b) = true -> is_nan a = false /\ is_nan b = false.
Proof. intros. split; float_order. Qed.

Lemma leb_not_nan (a b : float) : (a <=? b) = true -> is_nan a = false /\ is_nan b = false.
Proof. intros. split; float_order. Qed.

End F64Facts.

(* ================================================================== *)
(** ** Facts on the numpy operations *)

Module NpFacts.
Import F64 F64Facts.
Open Scope float_scope.

Lemma mask_select_filter {A : Type} (p : A -> bool) (x : list A) :
  Np.mask_select x (map p x) = filter p x.
Proof.
  induction x as [|a x IH]; simpl; [reflexivity|].
  rewrite IH. reflexivity.
Qed.

Lemma count_nonzero_filter {A : Type} (p : A -> bool) (x : list A) :
  Np.count_nonzero (map p x) = length (filter p x).
Proof.
  unfold Np.count_nonzero.
  induction x as [|a x IH]; simpl; [reflexivity|].
  destruct (p a); simpl; rewrite IH; reflexivity.
Qed.

(** *** [argmin] on booleans *)

Lemma argmin_bool_loop_false (l : list bool) (i mi : nat) :
  Np.argmin_bool_loop l i false mi = mi.
Proof.
  revert i; induction l as [|v t IH]; intros i; simpl; [reflexivity|].
  rewrite andb_false_r. apply IH.
Qed.

Lemma argmin_bool_loop_true (l : list bool) (i mi : nat) :
  Np.argmin_bool_loop l i true mi =
  match first_index negb l with
  | Some k => (i + k)%nat
  | None => mi
  end.
Proof.
  revert i; induction l as [|v t IH]; intros i; simpl; [reflexivity|].
  destruct v; simpl.
  - rewrite IH. destruct (first_index negb t); simpl; [lia | reflexivity].
  - rewrite argmin_bool_loop_false. lia.
Qed.

Lemma argmin_bool_first_false (l : list bool) :
  Np.argmin_bool l =
  match l with
  | [] => None
  | _ => Some (match first_index negb l with Some k => k | None => 0%nat end)
  end.
Proof.
  destruct l as [|v t]; [reflexivity|]. unfold Np.argmin_bool.
  destruct v; simpl.
  - rewrite argmin_bool_loop_true. destruct (first_index negb t); reflexivity.
  - rewrite argmin_bool_loop_false. reflexivity.
Qed.

Lemma first_index_map {A B : Type} (f : A -> B) (p : B -> bool) (l : list A) :
  first_index p (map f l) = first_index (fun a => p (f a)) l.
Proof.
  induction l as [|a t IH]; simpl; [reflexivity|].
  rewrite IH. reflexivity.
Qed.

(** *** [argmin] on floats *)

Lemma argmin_loop_nan (l : list float) (i mi : nat) (mp : float) :
  is_nan mp = true -> Np.argmin_loop l i mp mi = mi.
Proof. intros H. destruct l; simpl; [reflexivity | rewrite H; reflexivity]. Qed.

Lemma argmin_loop_numbers (l : list float) :
  forall (i mi : nat) (mp : float),
  is_nan mp = false ->
  forallb (fun v => negb (is_nan v)) l = true ->
  (Np.argmin_loop l i mp mi = mi /\ (forall v, In v l -> (mp <=? v) = true))
  \/ (exists k m, Np.argmin_loop l i mp mi = (i + k)%nat
        /\ nth_error l k = Some m /\ (m <? mp) = true
        /\ forall j v, nth_error l j = Some v ->
             (m <=? v) = true /\ ((j < k)%nat -> (m <? v) = true)).
Proof.
  induction l as [|v t IH]; intros i mi mp Hmp Hl; simpl.
  - left. split; [reflexivity | intros v []].
  - simpl in Hl. apply andb_true_iff in Hl as [Hv Ht].
    apply negb_true_iff in Hv. rewrite Hmp. unfold geb.
    destruct (mp <=? v) eqn:Hle; simpl.
    + destruct (IH (S i) mi mp Hmp Ht) as [[Hr Hall] | (k & m & Hr & Hk & Hlt & Hmin)].
      * left. split; [exact Hr|]. intros u [<- | Hu]; auto.
      * right. exists (S k), m.
        split; [rewrite Hr; lia|]. split; [exact Hk|]. split; [exact Hlt|].
        intros [|j] u Hu; simpl in Hu.
        -- injection Hu as <-.
           assert (Hmv : (m <? v) = true) by (eapply ltb_leb_trans; eauto).
           split; [apply ltb_leb; exact Hmv | intros _; exact Hmv].
        -- destruct (Hmin j u Hu) as [H1 H2].
           split; [exact H1 | intros Hj; apply H2; lia].
    + assert (Hvm : (v <? mp) = true) by (apply leb_total; assumption).
      destruct (IH (S i) i v Hv Ht) as [[Hr Hall] | (k & m & Hr & Hk & Hlt & Hmin)].
      * right. exists 0%nat, v.
        split; [rewrite Hr; lia|]. split; [reflexivity|]. split; [exact Hvm|].
        intros [|j] u Hu; simpl in Hu.
        -- injection Hu as <-. split; [apply leb_refl; assumption | lia].
        -- split; [apply Hall; eapply nth_error_In; eauto | lia].
      * right. exists (S k), m.
        split; [rewrite Hr; lia|]. split; [exact Hk|].
        split; [eapply ltb_trans; eauto|].
        intros [|j] u Hu; simpl in Hu.
        -- injection Hu as <-.
           split; [apply ltb_leb; exact Hlt | intros _; exact Hlt].
        -- destruct (Hmin j u Hu) as [H1 H2].
           split; [exact H1 | intros Hj; apply H2; lia].
Qed.

Lemma argmin_numbers (range : list float) (i : nat) :
  forallb (fun v => negb (is_nan v)) range = true ->
  Np.argmin range = Some i -> minimal_first range i.
Proof.
  destruct range as [|v t]; simpl; [discriminate|].
  intros Hl Hi. apply andb_true_iff in Hl as [Hv Ht]. apply negb_true_iff in Hv.
  injection Hi as <-.
  destruct (argmin_loop_numbers t 1 0 v Hv Ht) as [[Hr Hall] | (k & m & Hr & Hk & Hlt & Hmin)].
  - rewrite Hr. exists v. split; [reflexivity|].
    intros j u Hj. split; [|lia].
    destruct j as [|j]; simpl in Hj.
    + injection Hj as <-. apply leb_refl; assumption.
    + apply Hall. eapply nth_error_In; eauto.
  - rewrite Hr. exists m. split; [exact Hk|].
    intros j u Hj. destruct j as [|j]; simpl in Hj.
    + injection Hj as <-. split; [apply ltb_leb; assumption | intros; assumption].
    + split; [apply (Hmin j u Hj) | intros; apply (Hmin j u Hj); lia].
Qed.

Lemma argmin_loop_first_nan (l : list float) :
  forall (i mi : nat) (mp : float),
  is_nan mp = false ->
  existsb is_nan l = true ->
  exists k m, Np.argmin_loop l i mp mi = (i + k)%nat
    /\ nth_error l k = Some m /\ is_nan m = true
    /\ forall j v, (j < k)%nat -> nth_error l j = Some v -> is_nan v = false.
Proof.
  induction l as [|v t IH]; intros i mi mp Hmp Hl; simpl in *; [discriminate|].
  rewrite Hmp. destruct (is_nan v) eqn:Hv; simpl in Hl.
  - unfold geb. rewrite (leb_nan_r mp v Hv). simpl.
    rewrite (argmin_loop_nan t (S i) i v Hv).
    exists 0%nat, v. repeat split; [lia | assumption | intros; lia].
  - assert (Hnext : forall mp' mi', is_nan mp' = false ->
             exists k m, Np.argmin_loop t (S i) mp' mi' = (i + k)%nat
               /\ nth_error (v :: t) k = Some m /\ is_nan m = true
               /\ forall j u, (j < k)%nat -> nth_error (v :: t) j = Some u -> is_nan u = false).
    { intros mp' mi' Hmp'.
      destruct (IH (S i) mi' mp' Hmp' Hl) as (k & m & Hr & Hk & Hm & Hbefore).
      exists (S k), m. repeat split; [rewrite Hr; lia | exact Hk | exact Hm |].
      intros [|j] u Hj Hu; simpl in Hu.
      - injection Hu as <-. exact Hv.
      - apply (Hbefore j u); [lia | exact Hu]. }
    destruct (negb (geb v mp)); apply Hnext; assumption.
Qed.

Lemma argmin_first_nan (range : list float) (i : nat) :
  existsb is_nan range = true ->
  Np.argmin range = Some i -> first_nan range i.
Proof.
  destruct range as [|v t]; simpl; [discriminate|].
  intros Hl Hi. injection Hi as <-.
  destruct (is_nan v) eqn:Hv; simpl in Hl.
  - rewrite (argmin_loop_nan t 1 0 v Hv).
    exists v. repeat split; [assumption | intros; lia].
  - destruct (argmin_loop_first_nan t 1 0 v Hv Hl) as (k & m & Hr & Hk & Hm & Hbefore).
    rewrite Hr. exists m. repeat split; [exact Hk | exact Hm |].
    intros [|j] u Hj Hu; simpl in Hu.
    + injection Hu as <-. exact Hv.
    + apply (Hbefore j u); [lia | exact Hu].
Qed.

Lemma argmin_in_range (range : list float) (i : nat) :
  Np.argmin range = Some i -> (i < length range)%nat.
Proof.
  intros Hi.
  destruct (existsb is_nan range) eqn:Hn.
  - destruct (argmin_first_nan range i Hn Hi) as (m & Hm & _).
    apply nth_error_Some. congruence.
  - assert (Hall : forallb (fun v => negb (is_nan v)) range = true).
    { clear Hi. induction range as [|v t IH]; simpl in *; [reflexivity|].
      apply orb_false_iff in Hn as [-> Ht]. simpl. auto. }
    destruct (argmin_numbers range i Hall Hi) as (m & Hm & _).
    apply nth_error_Some. congruence.
Qed.

(** *** Sorting *)

Lemma insert_entry_perm {A : Type} (p : float * A) (l : list (float * A)) :
  Permutation (Np.insert_entry p l) (p :: l).
Proof.
  induction l as [|q t IH]; simpl; [reflexivity|].
  destruct (Np.sort_lt (fst q) (fst p)); [|reflexivity].
  rewrite IH. apply perm_swap.
Qed.

Lemma sort_entries_perm {A : Type} (l : list (float * A)) :
  Permutation (Np.sort_entries l) l.
Proof.
  induction l as [|p t IH]; simpl; [reflexivity|].
  rewrite insert_entry_perm, IH. reflexivity.
Qed.

Lemma sort_perm (x : list float) : Permutation (Np.sort x) x.
Proof.
  unfold Np.sort. rewrite sort_entries_perm, map_map. simpl.
  rewrite map_id. reflexivity.
Qed.

Lemma filter_length_perm {A : Type} (p : A -> bool) (l l' : list A) :
  Permutation l l' -> length (filter p l) = length (filter p l').
Proof.
  induction 1; simpl; try congruence.
  - destruct (p x); simpl; congruence.
  - destruct (p x), (p y); reflexivity.
Qed.

Lemma slice_to_drop_last {A : Type} (l : list A) :
  Np.slice_to l (Z.of_nat (length l) - 1) = removelast l.
Proof.
  unfold Np.slice_to. destruct l as [|a t]; [reflexivity|].
  replace (Z.of_nat (length (a :: t)) - 1 <? 0)%Z with false
    by (symmetry; apply Z.ltb_ge; simpl length; lia).
  rewrite removelast_firstn_len. f_equal. simpl length. lia.
Qed.

Lemma slice_to_nat {A : Type} (l : list A) (k : nat) :
  Np.slice_to l (Z.of_nat k) = firstn k l.
Proof.
  unfold Np.slice_to.
  replace (Z.of_nat k <? 0)%Z with false by (symmetry; apply Z.ltb_ge; lia).
  rewrite Nat2Z.id. reflexivity.
Qed.

(** *** Summation *)

(** The recursion of [pairwise_sum] never runs out of fuel: any bound
    from the length of the array on gives the same sum. *)
Lemma pairwise_sum_fuel (fuel : nat) :
  forall fuel' a, (length a <= fuel)%nat -> (length a <= fuel')%nat ->
  Np.pairwise_sum fuel a = Np.pairwise_sum fuel' a.
Proof.
  induction fuel as [|f IH]; intros fuel' a H1 H2.
  - destruct a; [|simpl in H1; lia]. destruct fuel'; reflexivity.
  - destruct fuel' as [|f'].
    + destruct a; [reflexivity | simpl in H2; lia].
    + cbn [Np.pairwise_sum]. cbv zeta.
      destruct (length a <=? 128)%nat eqn:Hn; [reflexivity|].
      apply Nat.leb_gt in Hn.
      pose proof (Nat.div_mod_eq (length a) 2) as Hdiv.
      pose proof (Nat.mod_upper_bound (length a) 2 ltac:(lia)) as Hm2.
      pose proof (Nat.mod_upper_bound (length a / 2) 8 ltac:(lia)) as Hm8.
      f_equal; apply IH; rewrite ?length_firstn, ?length_skipn; lia.
Qed.

(** The stretches of the reduction are never empty, so its fuel lasts. *)
Lemma add_reduce_fuel (fuel : nat) :
  forall fuel' a out, (length a <= fuel)%nat -> (length a <= fuel')%nat ->
  Np.add_reduce fuel a out = Np.add_reduce fuel' a out.
Proof.
  assert (Hbuf : (1 <= Np.bufsize)%nat) by (unfold Np.bufsize; lia).
  induction fuel as [|f IH]; intros fuel' a out H1 H2.
  - destruct a; [|simpl in H1; lia]. destruct fuel'; reflexivity.
  - destruct fuel' as [|f'].
    + destruct a; [reflexivity | simpl in H2; lia].
    + destruct a as [|v t]; [reflexivity|].
      cbn [Np.add_reduce]. cbv zeta.
      apply IH; rewrite length_skipn; simpl length in *; lia.
Qed.

Lemma add_reduce_nil (fuel : nat) (out : float) : Np.add_reduce fuel [] out = out.
Proof. destruct fuel; reflexivity. Qed.

(** Up to 8192 entries the reduction is one stretch. *)
Lemma sum_one_stretch (a : list float) :
  (length a <= Np.bufsize)%nat ->
  Np.sum a = match a with [] => 0 | _ => 0 + Np.pairwise_sum (length a) a end.
Proof.
  intros Hn. unfold Np.sum. destruct a as [|v t]; [reflexivity|].
  change (length (v :: t)) with (S (length t)) at 1.
  cbn [Np.add_reduce]. cbv zeta.
  rewrite firstn_all2 by exact Hn. rewrite skipn_all2 by exact Hn.
  apply add_reduce_nil.
Qed.

(** Fewer than 8 entries are added in index order, 8 entries as a
    balanced tree. *)
Lemma sum_short (a : list float) :
  (0 < length a < 8)%nat -> Np.sum a = 0 + fold_left PrimFloat.add a 0.
Proof.
  intros Hn. rewrite sum_one_stretch by (unfold Np.bufsize; lia).
  do 8 (destruct a as [|? a]; [try reflexivity; simpl in Hn; lia|]).
  simpl in Hn. lia.
Qed.

Lemma sum_eight (a0 a1 a2 a3 a4 a5 a6 a7 : float) :
  Np.sum [a0; a1; a2; a3; a4; a5; a6; a7]
  = 0 + (((a0 + a1) + (a2 + a3)) + ((a4 + a5) + (a6 + a7))).
Proof.
  rewrite sum_one_stretch by (unfold Np.bufsize; simpl; lia). reflexivity.
Qed.

End NpFacts.

(* ================================================================== *)
(** ** Facts on the monad *)

Module MFacts.

Lemma bind_inr {A B : Type} (m : M A) (k : A -> M B) (w w' : world) (b : B) :
  bind m k w = (inr b, w') ->
  exists a w1, m w = (inr a, w1) /\ k a w1 = (inr b, w').
Proof.
  unfold bind. destruct (m w) as [[e|a] w1]; intros H; [discriminate|].
  exists a, w1. split; [reflexivity | exact H].
Qed.

Lemma bind_step {A B : Type} (m : M A) (k : A -> M B) (w w1 : world) (a : A) :
  m w = (inr a, w1) -> bind m k w = k a w1.
Proof. unfold bind. intros ->. reflexivity. Qed.

Lemma bind_raise {A B : Type} (m : M A) (k : A -> M B) (w w1 : world) (e : exn) :
  m w = (inl e, w1) -> bind m k w = (inl e, w1).
Proof. unfold bind. intros ->. reflexivity. Qed.

Lemma or_raise_inr {A : Type} (e : exn) (o : option A) (w w' : world) (a : A) :
  or_raise e o w = (inr a, w') -> o = Some a /\ w' = w.
Proof.
  destruct o as [a'|]; unfold or_raise, ret, raise; intros H; [|discriminate].
  injection H as <- <-. split; reflexivity.
Qed.

Lemma getattr_inr {A : Type} (name : string) (f : plfit_obj -> option A)
    (w w' : world) (a : A) :
  getattr name f w = (inr a, w') -> f (self w) = Some a /\ w' = w.
Proof.
  unfold getattr. destruct (f (self w)) as [a'|]; intros H; [|discriminate].
  injection H as <- <-. split; reflexivity.
Qed.

Lemma lift_inr {A : Type} (r : exn + A) (w w' : world) (a : A) :
  lift r w = (inr a, w') -> r = inr a /\ w' = w.
Proof.
  destruct r as [e|a']; unfold lift, ret, raise; intros H; [discriminate|].
  injection H as <- <-. split; reflexivity.
Qed.

Lemma setattr_inr (f : plfit_obj -> plfit_obj) (w w' : world) (u : unit) :
  setattr f w = (inr u, w') -> w' = mk_world (f (self w)) (stdout w).
Proof. unfold setattr. intros H. injection H as _ <-. reflexivity. Qed.

Lemma when_print_self (b : bool) (msg : message) (w w' : world) (u : unit) :
  when b (print msg) w = (inr u, w') -> self w' = self w.
Proof.
  destruct b; unfold when, print, ret; intros H; injection H as _ <-; reflexivity.
Qed.

Lemma when_setattr_inr (b : bool) (f : plfit_obj -> plfit_obj) (w w' : world) (u : unit) :
  when b (setattr f) w = (inr u, w') ->
  w' = mk_world (if b then f (self w) else self w) (stdout w).
Proof.
  destruct b; unfold when, setattr, ret; intros H; injection H as _ <-;
    [reflexivity | destruct w; reflexivity].
Qed.

(** *** Computations that assign nothing *)

Lemma keeps_self_ret {A : Type} (a : A) : keeps_self (ret a).
Proof. intros w a' w' H. injection H as _ <-. reflexivity. Qed.

Lemma keeps_self_raise {A : Type} (e : exn) : keeps_self (@raise A e).
Proof. intros w a w' H. discriminate. Qed.

Lemma keeps_self_print (msg : message) : keeps_self (print msg).
Proof. intros w a w' H. injection H as _ <-. reflexivity. Qed.

Lemma keeps_self_getattr {A : Type} (name : string) (f : plfit_obj -> option A) :
  keeps_self (getattr name f).
Proof. intros w a w' H. apply getattr_inr in H as [_ ->]. reflexivity. Qed.

Lemma keeps_self_or_raise {A : Type} (e : exn) (o : option A) : keeps_self (or_raise e o).
Proof. intros w a w' H. apply or_raise_inr in H as [_ ->]. reflexivity. Qed.

Lemma keeps_self_lift {A : Type} (r : exn + A) : keeps_self (lift r).
Proof. intros w a w' H. apply lift_inr in H as [_ ->]. reflexivity. Qed.

Lemma keeps_self_when (b : bool) (m : M unit) : keeps_self m -> keeps_self (when b m).
Proof. destruct b; simpl; [auto | intros _; apply keeps_self_ret]. Qed.

Lemma keeps_self_bind {A B : Type} (m : M A) (k : A -> M B) :
  keeps_self m -> (forall a, keeps_self (k a)) -> keeps_self (bind m k).
Proof.
  intros Hm Hk w b w' H. apply bind_inr in H as (a & w1 & H1 & H2).
  rewrite (Hk a w1 b w' H2). apply (Hm w a w1 H1).
Qed.

Lemma keeps_self_mapM {A B : Type} (f : A -> M B) (l : list A) :
  (forall a, keeps_self (f a)) -> keeps_self (plfit.mapM f l).
Proof.
  intros Hf. induction l as [|a t IH]; simpl.
  - apply keeps_self_ret.
  - apply keeps_self_bind; [apply Hf|]. intros b.
    apply keeps_self_bind; [exact IH|]. intros bs. apply keeps_self_ret.
Qed.

Ltac keeps_step :=
  first
    [ apply keeps_self_ret
    | apply keeps_self_raise
    | apply keeps_self_print
    | apply keeps_self_getattr
    | apply keeps_self_or_raise
    | apply keeps_self_lift
    | apply keeps_self_when
    | apply keeps_self_bind; [|intros ?]
    | match goal with
      | |- keeps_self (if ?b then _ else _) => destruct b
      | |- keeps_self (match ?x with _ => _ end) => destruct x
      end ].

Ltac keeps_tac := repeat keeps_step.

(** Steps over one bind of a run that returned: [mskip] keeps nothing of
    it, [mset] records the assignment it made, [mkeep] that it made
    none. *)
Ltac mset H :=
  let u := fresh "u" in
  let w := fresh "w" in
  let Hs := fresh "Hs" in
  apply bind_inr in H as (u & w & Hs & H);
  first [ apply setattr_inr in Hs | apply when_setattr_inr in Hs ];
  subst w; cbn [self stdout] in H.
Ltac mskip H := apply bind_inr in H as (? & ? & _ & H).

(** *** Which exceptions a computation can raise *)

Section RaisesOnly.
Variable S : exn -> Prop.

Lemma raises_only_ret {A : Type} (a : A) : raises_only S (ret a).
Proof. intros w e w' H. discriminate. Qed.

Lemma raises_only_raise {A : Type} (e : exn) : S e -> raises_only S (@raise A e).
Proof. intros He w e' w' H. injection H as <- _. exact He. Qed.

Lemma raises_only_bind {A B : Type} (m : M A) (k : A -> M B) :
  raises_only S m -> (forall a, raises_only S (k a)) -> raises_only S (bind m k).
Proof.
  intros Hm Hk w e w'. unfold bind.
  destruct (m w) as [[e1|a] w1] eqn:E.
  - intros H. injection H as <- _. eapply Hm; eauto.
  - apply Hk.
Qed.

Lemma raises_only_print (msg : message) : raises_only S (print msg).
Proof. intros w e w' H. discriminate. Qed.

Lemma raises_only_setattr (f : plfit_obj -> plfit_obj) : raises_only S (setattr f).
Proof. intros w e w' H. discriminate. Qed.

Lemma raises_only_get_data : raises_only S plfit.get_data.
Proof. intros w e w' H. discriminate. Qed.

Lemma raises_only_getattr {A : Type} (name : string) (f : plfit_obj -> option A) :
  S (AttributeError name) -> raises_only S (getattr name f).
Proof.
  intros He w e w'. unfold getattr. destruct (f (self w)); intros H; [discriminate|].
  injection H as <- _. exact He.
Qed.

Lemma raises_only_when (b : bool) (m : M unit) :
  raises_only S m -> raises_only S (when b m).
Proof. destruct b; simpl; [auto | intros _; apply raises_only_ret]. Qed.

Lemma raises_only_or_raise {A : Type} (e : exn) (o : option A) :
  S e -> raises_only S (or_raise e o).
Proof.
  intros He. destruct o; simpl; [apply raises_only_ret | apply raises_only_raise; exact He].
Qed.

Lemma raises_only_lift {A : Type} (r : exn + A) :
  (forall e, r = inl e -> S e) -> raises_only S (lift r).
Proof.
  intros Hr. destruct r as [e|a]; simpl;
    [apply raises_only_raise; auto | apply raises_only_ret].
Qed.

Lemma raises_only_weaken {A : Type} (S' : exn -> Prop) (m : M A) :
  (forall e, S e -> S' e) -> raises_only S m -> raises_only S' m.
Proof. intros HS Hm w e w' H. apply HS. eapply Hm; eauto. Qed.

Lemma raises_only_mapM {A B : Type} (f : A -> M B) (l : list A) :
  (forall a, raises_only S (f a)) -> raises_only S (plfit.mapM f l).
Proof.
  intros Hf. induction l as [|a t IH]; simpl.
  - apply raises_only_ret.
  - apply raises_only_bind; [apply Hf|]. intros b.
    apply raises_only_bind; [exact IH|]. intros bs. apply raises_only_ret.
Qed.

End RaisesOnly.

(** Peels a computation apart: binds, conditionals and matches, down to
    the raises, whose exceptions are left as goals. *)
Ltac raises_step :=
  first
    [ apply raises_only_ret
    | apply raises_only_print
    | apply raises_only_setattr
    | apply raises_only_get_data
    | apply raises_only_getattr
    | apply raises_only_when
    | apply raises_only_or_raise
    | apply raises_only_raise
    | apply raises_only_bind; [|intros ?]
    | match goal with
      | |- raises_only _ (if ?b then _ else _) => destruct b
      | |- raises_only _ (match ?x with _ => _ end) => destruct x
      | |- raises_only _ (let '(_, _) := ?x in _) => destruct x
      end ].

Ltac raises_tac := repeat raises_step.

(** *** Computations that never return *)

Lemma always_raises_bind_l {A B : Type} (m : M A) (k : A -> M B) :
  always_raises m -> always_raises (bind m k).
Proof.
  intros Hm w. destruct (Hm w) as (e & w' & H). exists e, w'.
  apply bind_raise. exact H.
Qed.

Lemma always_raises_bind_r {A B : Type} (m : M A) (k : A -> M B) :
  (forall a, always_raises (k a)) -> always_raises (bind m k).
Proof.
  intros Hk w. unfold bind. destruct (m w) as [[e|a] w1].
  - exists e, w1. reflexivity.
  - apply Hk.
Qed.

Lemma always_raises_raise {A : Type} (e : exn) : always_raises (@raise A e).
Proof. intros w. exists e, w. reflexivity. Qed.

End MFacts.

(* ================================================================== *)
(** ** The claims *)

Import F64 F64Facts NpFacts MFacts.
Open Scope float_scope.

(** *** The estimators at one threshold *)

Section Estimators.
Context {P : Platform}.

(** C3.  For every sample and every candidate threshold, [alpha_gen]
    returns [1 + n / sum(log(x_i / xmin))] over the [n] points
    [x_i >= xmin] when [n >= 2], and the sentinel 0 otherwise. *)
Theorem alpha_gen_spec (x : list float) (xmin : float) :
  alpha_gen x xmin = spec_alpha x xmin.
Proof.
  unfold alpha_gen, spec_alpha.
  rewrite count_nonzero_filter, mask_select_filter, map_map.
  rewrite Nat.ltb_antisym.
  destruct (2 <=? length (filter (fun v => geb v xmin) x))%nat; reflexivity.
Qed.

(** C5.  For every data set and threshold, [discrete_alpha_mle] returns
    [1 + n * (sum(log(x_i/(xmin-0.5))))^-1] over the [n] points
    [x_i >= xmin] when [n >= 2], and 0 otherwise. *)
Theorem discrete_alpha_mle_spec (data : list float) (xmin : float) :
  discrete_alpha_mle data xmin = spec_discrete_alpha data xmin.
Proof.
  unfold discrete_alpha_mle, spec_discrete_alpha.
  rewrite count_nonzero_filter, mask_select_filter, map_map.
  rewrite Nat.ltb_antisym.
  destruct (2 <=? length (filter (fun v => geb v xmin) data))%nat; reflexivity.
Qed.

End Estimators.

(** *** The xmin search *)

Section Search.
Context {P : Platform}.

(** What a search that returns went through: sigma is the elementwise
    [(alpha_i - 1) / sqrt(len(z) - argxmins_i)], [nmax] comes from it, and
    the selected index is [argmin] over the KS values before [nmax]. *)
Lemma search_inr (kw : kwargs) (z xmins : list float) (argxmins : list nat)
    (w w' : world) (s : plfit.selection) :
  plfit.search kw z xmins argxmins w = (inr s, w') ->
  Np.broadcast2 (fun a i => (a - 1) / PrimFloat.sqrt (of_nat (length z - i)))
    (plfit.sel_alpha_values s) argxmins = Some (plfit.sel_sigma s)
  /\ (exists w1 w2,
        plfit.usable_nmax kw (plfit.sel_sigma s) xmins w1 = (inr (plfit.sel_nmax s), w2))
  /\ Np.argmin (Np.slice_to (plfit.sel_kstest_values s) (plfit.sel_nmax s))
       = Some (plfit.sel_best_ks_index s)
  /\ nth_error xmins (plfit.sel_best_ks_index s) = Some (plfit.sel_xmin s).
Proof.
  unfold plfit.search. intros H.
  apply bind_inr in H as ([ks al] & w1 & _ & H).
  apply bind_inr in H as (sg & w2 & Hsg & H).
  apply or_raise_inr in Hsg as [Hsg ->].
  apply bind_inr in H as (nmax & w3 & Hnmax & H).
  apply bind_inr in H as (best & w4 & Hbest & H).
  apply bind_inr in H as (xmin & w5 & Hxmin & H).
  apply or_raise_inr in Hbest as [Hbest _].
  apply or_raise_inr in Hxmin as [Hxmin _].
  do 4 mskip H.
  unfold ret in H. injection H as <- _. simpl. eauto 6.
Qed.

End Search.

(** *** The search on the numpy backend *)

Section PythonSearch.
Context {P : Platform}.

Lemma run_backend_python (kw : kwargs) (z xmins : list float) (argxmins : list nat)
    (w : world) :
  python_only kw ->
  plfit.run_backend kw z xmins argxmins w =
    (inr (map (kstest_gen z false false) xmins, map (alpha_gen z) xmins),
     if kw_quiet kw then w
     else mk_world (self w) (stdout w ++ [BackendExecuted "PYTHON"])).
Proof.
  intros [Hf Hc]. unfold plfit.run_backend. rewrite Hf, Hc. simpl.
  destruct (kw_quiet kw); reflexivity.
Qed.

Lemma first_index_lt {A : Type} (p : A -> bool) (l : list A) (k : nat) :
  first_index p l = Some k -> (k < length l)%nat.
Proof.
  revert k; induction l as [|a t IH]; intros k; simpl; [discriminate|].
  destruct (p a).
  - intros H. injection H as <-. lia.
  - destruct (first_index p t) as [j|]; simpl; [|discriminate].
    intros H. injection H as <-. specialize (IH j eq_refl). lia.
Qed.

(** With two candidates or more [nmax] leaves at least one candidate in
    the range and at least the last one out. *)
Lemma usable_nmax_bounds (kw : kwargs) (sigma xmins : list float) (w : world) :
  (2 <= length xmins)%nat -> length sigma = length xmins ->
  exists nmax w',
    plfit.usable_nmax kw sigma xmins w = (inr nmax, w')
    /\ self w' = self w
    /\ (1 <= nmax <= Z.of_nat (length xmins) - 1)%Z.
Proof.
  intros Hlen Hsg. unfold plfit.usable_nmax.
  destruct (kw_nosmall kw).
  - rewrite argmin_bool_first_false.
    destruct sigma as [|s0 st]; [simpl in Hsg; lia|].
    cbn [map]. set (good := (s0 <? 0.1) :: map (fun s => s <? 0.1) st).
    assert (Hgood : length good = length xmins)
      by (unfold good; simpl; rewrite length_map; exact Hsg).
    destruct (first_index negb good) as [[|k]|] eqn:Hk.
    + cbn. destruct (kw_silent kw); cbn; eexists; eexists;
        (split; [reflexivity|]); (split; [reflexivity|]); lia.
    + apply first_index_lt in Hk.
      unfold or_raise, ret, bind.
      replace (Z.of_nat (S k) <=? 0)%Z with false by (symmetry; apply Z.leb_gt; lia).
      eexists; eexists. split; [reflexivity|]. split; [reflexivity|]. lia.
    + cbn. destruct (kw_silent kw); cbn; eexists; eexists;
        (split; [reflexivity|]); (split; [reflexivity|]); lia.
  - eexists; eexists. split; [reflexivity|]. split; [reflexivity|]. lia.
Qed.

Lemma search_python_values (kw : kwargs) (z xmins : list float) (argxmins : list nat)
    (w w' : world) (s : plfit.selection) :
  python_only kw ->
  plfit.search kw z xmins argxmins w = (inr s, w') ->
  plfit.sel_kstest_values s = map (kstest_gen z false false) xmins
  /\ plfit.sel_alpha_values s = map (alpha_gen z) xmins.
Proof.
  intros Hpy. unfold plfit.search. intros H.
  rewrite (bind_step _ _ _ _ _ (run_backend_python kw z xmins argxmins w Hpy)) in H.
  do 8 mskip H.
  unfold ret in H. injection H as <- _. split; reflexivity.
Qed.

Lemma search_python_returns (kw : kwargs) (z xmins : list float) (argxmins : list nat)
    (w : world) :
  python_only kw -> length argxmins = length xmins -> (2 <= length xmins)%nat ->
  exists s w',
    plfit.search kw z xmins argxmins w = (inr s, w')
    /\ (S (plfit.sel_best_ks_index s) < length xmins)%nat.
Proof.
  intros Hpy Harg Hlen. unfold plfit.search.
  rewrite (bind_step _ _ _ _ _ (run_backend_python kw z xmins argxmins w Hpy)).
  set (w0 := if kw_quiet kw then w else _).
  unfold Np.broadcast2. rewrite length_map, Harg, Nat.eqb_refl.
  set (sg := Np.zip_with _ _ _).
  assert (Hsg : length sg = length xmins).
  { unfold sg. clear - Harg. revert argxmins Harg.
    induction xmins as [|a t IH]; intros [|i ti] Hl; simpl in *; try lia.
    f_equal. apply IH. lia. }
  cbn [or_raise]. unfold bind at 1. cbn [ret].
  destruct (usable_nmax_bounds kw sg xmins w0 Hlen Hsg) as (nmax & w1 & Hn & _ & Hb).
  rewrite (bind_step _ _ _ _ _ Hn).
  set (ks := map (kstest_gen z false false) xmins).
  assert (Hslice : Np.slice_to ks nmax = firstn (Z.to_nat nmax) ks).
  { unfold Np.slice_to. replace (nmax <? 0)%Z with false; [reflexivity|].
    symmetry. apply Z.ltb_ge. lia. }
  rewrite Hslice.
  destruct (Np.argmin (firstn (Z.to_nat nmax) ks)) as [i|] eqn:Hi.
  - pose proof (argmin_in_range _ _ Hi) as Hr.
    rewrite length_firstn in Hr.
    assert (Hix : (S i < length xmins)%nat) by lia.
    cbn [or_raise]. rewrite (bind_step (ret i) _ w1 w1 i eq_refl).
    destruct (nth_error xmins i) as [xm|] eqn:Hxm.
    + cbn [or_raise]. rewrite (bind_step (ret xm) _ w1 w1 xm eq_refl).
      unfold bind, setattr, when, ret.
      destruct scipyOK; eexists; eexists; (split; [reflexivity|]); exact Hix.
    + apply nth_error_None in Hxm. lia.
  - exfalso. unfold Np.argmin in Hi.
    destruct (firstn (Z.to_nat nmax) ks) as [|v t] eqn:E; [|discriminate].
    apply (f_equal (@length float)) in E. rewrite length_firstn in E.
    unfold ks in E. rewrite length_map in E. simpl in E. lia.
Qed.

Lemma search_python_too_few (kw : kwargs) (z xmins : list float) (argxmins : list nat)
    (w : world) :
  python_only kw -> length argxmins = length xmins -> (length xmins <= 1)%nat ->
  exists w', plfit.search kw z xmins argxmins w = (inl plfit.empty_argmin, w').
Proof.
  intros Hpy Harg Hlen. unfold plfit.search.
  rewrite (bind_step _ _ _ _ _ (run_backend_python kw z xmins argxmins w Hpy)).
  set (w0 := if kw_quiet kw then w else _). clearbody w0.
  destruct xmins as [|a [|b t]]; [| |simpl in Hlen; lia].
  - destruct argxmins; [|discriminate].
    unfold plfit.usable_nmax. destruct (kw_nosmall kw); cbn; eexists; reflexivity.
  - destruct argxmins as [|i [|]]; try discriminate.
    unfold plfit.usable_nmax.
    destruct (kw_nosmall kw); cbn.
    + destruct (kw_silent kw); cbn; eexists; reflexivity.
    + eexists; reflexivity.
Qed.

End PythonSearch.

(** *** The usable candidate range *)

Section UsableRange.
Context {P : Platform}.

Lemma broadcast2_same_length {A B C : Type} (f : A -> B -> C) (a : list A) (b : list B)
    (c : list C) :
  length a = length b -> Np.broadcast2 f a b = Some c -> length c = length a.
Proof.
  intros Hl. unfold Np.broadcast2. rewrite Hl, Nat.eqb_refl.
  intros H. injection H as <-.
  revert b Hl; induction a as [|x a' IH]; intros [|y b'] Hl; simpl in *;
    try discriminate; [reflexivity|].
  f_equal. apply IH. congruence.
Qed.

(** C1, as the code has it.  With [nosmall], the usable range ends at the
    first candidate whose sigma is not below 0.1, the candidates before
    it being kept; when that is the very first candidate, or when no
    candidate is such, the range is every candidate but the last and the
    warning is printed unless [silent]; the computation of [nmax] itself
    raises only when sigma is empty.  Without [nosmall] exactly the last
    candidate is dropped.  In the search, sigma is
    [(alpha_i - 1) / sqrt(n_i)] with [n_i = len(z) - argxmins_i], the
    number of points from candidate [i] on, and [nmax] is computed from
    it.  The fallback does not keep the search from failing: whatever the
    backend, the minimisation over an empty range raises the [ValueError]
    of [argmin].  On the numpy backend that is the end of every search
    with fewer than two candidates, right after the warning when there is
    one candidate and with no warning when there is none; with two
    candidates or more the range is not empty and the search returns. *)
Theorem usable_range_nosmall (kw : kwargs) :
  (forall xmins sigma w,
      match plfit.usable_nmax kw sigma xmins w with
      | (inr nmax, w') =>
          self w' = self w /\
          if kw_nosmall kw then
            match first_index (fun s => negb (s <? 0.1)) sigma with
            | Some (S k) =>
                usable_range xmins nmax = firstn (S k) xmins /\ stdout w' = stdout w
            | _ =>
                usable_range xmins nmax = removelast xmins /\
                stdout w' = stdout w ++ (if kw_silent kw then [] else [NotEnoughData])
            end
          else usable_range xmins nmax = removelast xmins /\ stdout w' = stdout w
      | (inl e, w') =>
          kw_nosmall kw = true /\ sigma = [] /\ e = plfit.empty_argmin /\ w' = w
      end)
  /\ (forall z xmins argxmins w s w',
        plfit.search kw z xmins argxmins w = (inr s, w') ->
        Np.broadcast2 (fun a i => (a - 1) / PrimFloat.sqrt (of_nat (length z - i)))
          (plfit.sel_alpha_values s) argxmins = Some (plfit.sel_sigma s)
        /\ exists w1 w2,
            plfit.usable_nmax kw (plfit.sel_sigma s) xmins w1
            = (inr (plfit.sel_nmax s), w2))
  /\ (forall z xmins argxmins w ks al w0 sigma nmax w1,
        plfit.run_backend kw z xmins argxmins w = (inr (ks, al), w0) ->
        Np.broadcast2 (fun a i => (a - 1) / PrimFloat.sqrt (of_nat (length z - i)))
          al argxmins = Some sigma ->
        plfit.usable_nmax kw sigma xmins w0 = (inr nmax, w1) ->
        Np.slice_to ks nmax = [] ->
        plfit.search kw z xmins argxmins w = (inl plfit.empty_argmin, w1))
  /\ (python_only kw ->
      (forall z x0 i0 w,
          plfit.search kw z [x0] [i0] w =
            (inl plfit.empty_argmin,
             mk_world (self w)
               (stdout w
                ++ (if kw_quiet kw then [] else [BackendExecuted "PYTHON"])
                ++ (if kw_nosmall kw && negb (kw_silent kw) then [NotEnoughData] else []))))
      /\ (forall z w,
          plfit.search kw z [] [] w =
            (inl plfit.empty_argmin,
             mk_world (self w)
               (stdout w ++ (if kw_quiet kw then [] else [BackendExecuted "PYTHON"]))))
      /\ (forall z xmins argxmins w,
          (2 <= length xmins)%nat -> length argxmins = length xmins ->
          exists s w',
            plfit.search kw z xmins argxmins w = (inr s, w')
            /\ usable_range xmins (plfit.sel_nmax s) <> [])).
Proof.
  split; [|split; [|split]].
  - intros xmins sigma w. unfold plfit.usable_nmax, usable_range.
    destruct (kw_nosmall kw).
    + rewrite argmin_bool_first_false, first_index_map.
      destruct sigma as [|s0 sigma']; [simpl; auto|].
      set (sigma := s0 :: sigma').
      change (map (fun s => s <? 0.1) sigma) with
        ((s0 <? 0.1) :: map (fun s => s <? 0.1) sigma').
      cbn iota beta.
      destruct (first_index (fun a => negb (a <? 0.1)) sigma) as [[|k]|];
        unfold bind, or_raise, ret.
      * change (Z.of_nat 0 <=? 0)%Z with true.
        destruct (kw_silent kw); cbn; rewrite ?app_nil_r;
          auto using slice_to_drop_last.
      * replace (Z.of_nat (S k) <=? 0)%Z with false
          by (symmetry; apply Z.leb_gt; lia).
        rewrite slice_to_nat. auto.
      * change (Z.of_nat 0 <=? 0)%Z with true.
        destruct (kw_silent kw); cbn; rewrite ?app_nil_r;
          auto using slice_to_drop_last.
    + unfold ret. cbn. auto using slice_to_drop_last.
  - intros z xmins argxmins w s w' H.
    destruct (search_inr _ _ _ _ _ _ _ H) as (Hsigma & Hnmax & _).
    split; assumption.
  - intros z xmins argxmins w ks al w0 sigma nmax w1 Hrun Hsigma Hnmax Hempty.
    unfold plfit.search. rewrite (bind_step _ _ _ _ _ Hrun). cbv beta iota.
    rewrite Hsigma. cbn [or_raise].
    rewrite (bind_step (ret sigma) _ w0 w0 sigma eq_refl).
    rewrite (bind_step _ _ _ _ _ Hnmax).
    rewrite Hempty. reflexivity.
  - intros Hpy. split; [|split].
    + intros z x0 i0 [o out]. unfold plfit.search.
      rewrite (bind_step _ _ _ _ _ (run_backend_python kw z [x0] [i0] _ Hpy)).
      unfold plfit.usable_nmax.
      destruct (kw_quiet kw), (kw_nosmall kw), (kw_silent kw); cbn;
        rewrite ?app_nil_r, <- ?app_assoc; reflexivity.
    + intros z [o out]. unfold plfit.search.
      rewrite (bind_step _ _ _ _ _ (run_backend_python kw z [] [] _ Hpy)).
      unfold plfit.usable_nmax.
      destruct (kw_quiet kw), (kw_nosmall kw); cbn; rewrite ?app_nil_r; reflexivity.
    + intros z xmins argxmins w Hlen Harg.
      destruct (search_python_returns kw z xmins argxmins w Hpy Harg Hlen)
        as (s & w' & Hs & _).
      exists s, w'. split; [exact Hs|].
      destruct (search_inr _ _ _ _ _ _ _ Hs) as (Hsigma & (w1 & w2 & Hnmax) & _).
      destruct (search_python_values _ _ _ _ _ _ _ Hpy Hs) as [_ Hal].
      rewrite Hal in Hsigma.
      apply broadcast2_same_length in Hsigma; [|rewrite length_map; congruence].
      rewrite length_map in Hsigma.
      destruct (usable_nmax_bounds kw _ xmins w1 Hlen Hsigma) as (nmax & w3 & Hn & _ & Hb).
      rewrite Hnmax in Hn. injection Hn as <- _.
      unfold usable_range, Np.slice_to.
      replace (plfit.sel_nmax s <? 0)%Z with false by (symmetry; apply Z.ltb_ge; lia).
      intros E. apply (f_equal (@length float)) in E.
      rewrite length_firstn in E. simpl in E. lia.
Qed.

End UsableRange.

(** Witness of C1: on [1, 10, 1e7, 2e7, 3e7] the first candidate whose
    sigma is not below 0.1 is candidate 2, and the usable range is the
    two candidates before it. *)
Lemma usable_range_nosmall_witness :
  exists s w',
    Ref.search_on Ref.sample_spread defaults = (inr s, w')
    /\ first_index (fun v => negb (v <? 0.1)) (plfit.sel_sigma s) = Some 2%nat
    /\ usable_range Ref.sample_spread (plfit.sel_nmax s) = firstn 2 Ref.sample_spread.
Proof.
  eexists. eexists. split; [vm_compute; reflexivity|].
  split; [vm_compute; reflexivity|].
  destruct (usable_range_nosmall (P := Ref.platform) defaults)
    as (Hrange & Hsearch & _).
  destruct (Hsearch Ref.sample_spread Ref.sample_spread [0; 1; 2; 3; 4]%nat
              (Ref.holding Ref.sample_spread) _ _ ltac:(vm_compute; reflexivity))
    as (_ & w1 & w2 & Hnmax).
  match type of Hnmax with
  | plfit.usable_nmax _ ?sg _ _ = _ => pose proof (Hrange Ref.sample_spread sg w1) as Hr
  end.
  rewrite Hnmax in Hr. destruct Hr as (_ & Hr). exact (proj1 Hr).
Defined.

(** C1 as the specification words it fails on four samples.  On
    [1, 10, 1e7, 2e7, 3e7] the first candidate whose sigma is below 0.1
    is candidate 0, yet the range is not cut there: it holds the first
    two candidates.  On [1, 2, 2], fitted as continuous, no candidate has
    a sigma below 0.1, yet the range is not the full one: the last
    candidate is dropped.  With [silent] that fallback prints no
    warning.  And on the single observation [5] the fallback range is
    empty: the warning is printed and the fit fails all the same, with
    the [ValueError] of [argmin]. *)
Lemma usable_range_counterexample :
  (exists s w',
      Ref.search_on Ref.sample_spread defaults = (inr s, w')
      /\ first_index (fun v => v <? 0.1) (plfit.sel_sigma s) = Some 0%nat
      /\ usable_range Ref.sample_spread (plfit.sel_nmax s) = [1; 10])
  /\ (exists s w',
      Ref.search_on Ref.sample_tied_max (with_discrete false defaults) = (inr s, w')
      /\ first_index (fun v => v <? 0.1) (plfit.sel_sigma s) = None
      /\ usable_range [1; 2] (plfit.sel_nmax s) = [1])
  /\ (exists s w',
      Ref.search_on Ref.sample_tied_max
        (with_silent true (with_discrete false defaults)) = (inr s, w')
      /\ first_index (fun v => v <? 0.1) (plfit.sel_sigma s) = None
      /\ ~ In NotEnoughData (stdout w'))
  /\ (exists w',
      Ref.run Ref.sample_single defaults
      = (inl (ValueError "attempt to get argmin of an empty sequence"), w')
      /\ stdout w' = [BackendExecuted "PYTHON"; NotEnoughData]).
Proof.
  split; [|split; [|split]].
  - eexists. eexists. split; [vm_compute; reflexivity|].
    split; vm_compute; reflexivity.
  - eexists. eexists. split; [vm_compute; reflexivity|].
    split; vm_compute; reflexivity.
  - eexists. eexists. split; [vm_compute; reflexivity|].
    split; [vm_compute; reflexivity|].
    simpl. intros [H | []]. discriminate.
  - eexists. split; vm_compute; reflexivity.
Qed.

(** *** The selected threshold *)

Section Selection.
Context {P : Platform}.

(** C4, as the code has it.  The xmin the search selects is the candidate
    at the index [argmin] returns on the usable range of KS values: when
    no value in the range is NaN it is a minimum of the range and the
    first one; when some value is NaN it is the first NaN. *)
Theorem selected_is_first_minimum (kw : kwargs) (z xmins : list float)
    (argxmins : list nat) (w w' : world) (s : plfit.selection) :
  plfit.search kw z xmins argxmins w = (inr s, w') ->
  nth_error xmins (plfit.sel_best_ks_index s) = Some (plfit.sel_xmin s)
  /\ (forallb (fun v => negb (is_nan v))
        (Np.slice_to (plfit.sel_kstest_values s) (plfit.sel_nmax s)) = true ->
      minimal_first (Np.slice_to (plfit.sel_kstest_values s) (plfit.sel_nmax s))
        (plfit.sel_best_ks_index s))
  /\ (existsb is_nan
        (Np.slice_to (plfit.sel_kstest_values s) (plfit.sel_nmax s)) = true ->
      first_nan (Np.slice_to (plfit.sel_kstest_values s) (plfit.sel_nmax s))
        (plfit.sel_best_ks_index s)).
Proof.
  intros H. destruct (search_inr _ _ _ _ _ _ _ H) as (_ & _ & Hbest & Hxmin).
  split; [exact Hxmin|]. split; intros Hr.
  - apply argmin_numbers; assumption.
  - apply argmin_first_nan; assumption.
Qed.

End Selection.

(** Witness of C4: on [1, 10, 1e7, 2e7, 3e7] the search returns, its
    usable range holds no NaN, and the selected candidate is the first
    minimum of the range. *)
Lemma selected_is_first_minimum_witness :
  exists s w',
    Ref.search_on Ref.sample_spread defaults = (inr s, w')
    /\ nth_error Ref.sample_spread (plfit.sel_best_ks_index s) = Some (plfit.sel_xmin s)
    /\ minimal_first (Np.slice_to (plfit.sel_kstest_values s) (plfit.sel_nmax s))
         (plfit.sel_best_ks_index s).
Proof.
  eexists. eexists. split; [vm_compute; reflexivity|].
  pose proof (selected_is_first_minimum (P := Ref.platform) defaults
                Ref.sample_spread Ref.sample_spread [0; 1; 2; 3; 4]%nat
                (Ref.holding Ref.sample_spread) _ _ ltac:(vm_compute; reflexivity))
    as (Hx & Hmin & _).
  split; [exact Hx|]. apply Hmin. vm_compute. reflexivity.
Defined.

(** C4 as the specification words it fails on [0, 1, 2, 3]: at the
    candidate 0 every ratio [x / xmin] is a division by zero, its KS
    value is NaN, and [argmin] selects it, though NaN is not at most the
    KS value of the next candidate. *)
Lemma selected_is_first_minimum_counterexample :
  exists s w',
    Ref.search_on Ref.sample_zero defaults = (inr s, w')
    /\ ~ minimal_first (Np.slice_to (plfit.sel_kstest_values s) (plfit.sel_nmax s))
           (plfit.sel_best_ks_index s).
Proof.
  eexists. eexists. split; [vm_compute; reflexivity|].
  intros (m & Hm & Hall).
  vm_compute in Hm. injection Hm as <-.
  destruct (Hall 1%nat _ eq_refl) as [Hle _].
  vm_compute in Hle. discriminate.
Qed.

(** *** Which exceptions a fit can end in *)

Section Exceptions.
Context {P : Platform}.

Ltac fit_exception_tac :=
  match goal with
  | |- fit_exception _ =>
      first [ exact I
            | unfold fit_exception, plfit.negative_data, plfit.empty_argmin;
              discriminate ]
  end.

Lemma most_likely_alpha_raises (data : list float) (xmin : float)
    (alpharange : float * float) (n_alpha : nat) (e : exn) :
  most_likely_alpha data xmin alpharange n_alpha = inl e -> fit_exception e.
Proof.
  unfold most_likely_alpha, discrete_max_likelihood_arg, discrete_likelihood_vector.
  destruct (negb scipyOK); [intros H; injection H as <-; fit_exception_tac|].
  destruct (Np.argmax _); [|intros H; injection H as <-; fit_exception_tac].
  destruct (nth_error _ _); intros H; [discriminate|].
  injection H as <-. fit_exception_tac.
Qed.

Lemma discrete_likelihood_raises (data : list float) (xmin alpha : float) (e : exn) :
  discrete_likelihood data xmin alpha = inl e -> fit_exception e.
Proof.
  unfold discrete_likelihood.
  destruct (negb scipyOK); intros H; [|discriminate].
  injection H as <-. fit_exception_tac.
Qed.

Lemma discrete_best_alpha_raises (n_alpha : nat) (approximate verbose finite : bool) :
  raises_only fit_exception (plfit.discrete_best_alpha n_alpha approximate verbose finite).
Proof.
  unfold plfit.discrete_best_alpha, local.
  raises_tac; try fit_exception_tac.
  - apply raises_only_mapM. intros [xmin ar].
    apply raises_only_lift. apply most_likely_alpha_raises.
  - apply raises_only_lift. apply discrete_likelihood_raises.
Qed.

Lemma run_backend_raises (kw : kwargs) (z xmins : list float) (argxmins : list nat) :
  raises_only fit_exception (plfit.run_backend kw z xmins argxmins).
Proof. unfold plfit.run_backend. raises_tac; fit_exception_tac. Qed.

Lemma usable_nmax_raises (kw : kwargs) (sigma xmins : list float) :
  raises_only fit_exception (plfit.usable_nmax kw sigma xmins).
Proof. unfold plfit.usable_nmax. raises_tac; fit_exception_tac. Qed.

Lemma search_raises (kw : kwargs) (z xmins : list float) (argxmins : list nat) :
  raises_only fit_exception (plfit.search kw z xmins argxmins).
Proof.
  unfold plfit.search.
  apply raises_only_bind; [apply run_backend_raises|]. intros [ks al].
  apply raises_only_bind; [raises_tac; fit_exception_tac|]. intros sg.
  apply raises_only_bind; [apply usable_nmax_raises|]. intros nmax.
  raises_tac; fit_exception_tac.
Qed.

Lemma fit_at_raises (kw : kwargs) (z xmins : list float) (xmin : float) :
  raises_only fit_exception (plfit.fit_at kw z xmins xmin).
Proof. unfold plfit.fit_at. raises_tac; fit_exception_tac. Qed.

Lemma classify_raises (kw : kwargs) (x xmins : list float) :
  raises_only fit_exception (plfit.classify kw x xmins).
Proof. unfold plfit.classify. raises_tac; fit_exception_tac. Qed.

Lemma consistency_check_raises (kw : kwargs) (z : list float) (s : plfit.selection) :
  raises_only (checked_exception kw) (plfit.consistency_check kw z s).
Proof.
  unfold plfit.consistency_check, checked_exception.
  destruct (kw_skip_consistency_check kw); raises_tac;
    try (left; fit_exception_tac).
  right. split; [reflexivity|]. eauto.
Qed.

Lemma fit_checked_raises (kw : kwargs) (x : list float) :
  raises_only (checked_exception kw) (plfit.fit_checked kw x).
Proof.
  assert (Hweak : forall e, fit_exception e -> checked_exception kw e)
    by (intros e He; left; exact He).
  unfold plfit.fit_checked, plfit.continuous_fit.
  destruct (Np.unique_index (Np.sort x)) as [xmins argxmins].
  apply raises_only_bind; [apply raises_only_setattr|]. intros _.
  apply raises_only_bind;
    [apply (raises_only_weaken fit_exception); [exact Hweak | apply classify_raises]|].
  intros discrete.
  assert (Hfit : forall xmin,
             raises_only (checked_exception kw) (plfit.fit_at kw (Np.sort x) xmins xmin)).
  { intros xmin.
    apply (raises_only_weaken fit_exception); [exact Hweak | apply fit_at_raises]. }
  assert (Hcont : raises_only (checked_exception kw)
            (s <- plfit.search kw (Np.sort x) xmins argxmins ;;
             plfit.consistency_check kw (Np.sort x) s ;;
             plfit.fit_at kw (Np.sort x) xmins (plfit.sel_xmin s))).
  { apply raises_only_bind;
      [apply (raises_only_weaken fit_exception); [exact Hweak | apply search_raises]|].
    intros s. apply raises_only_bind; [apply consistency_check_raises|].
    intros _. apply Hfit. }
  destruct (kw_xmin kw) as [xmin|]; [apply Hfit|].
  destruct discrete as [[|]|]; try exact Hcont.
  apply (raises_only_weaken fit_exception); [exact Hweak|].
  apply raises_only_bind; [apply discrete_best_alpha_raises|]. intros _.
  raises_tac; fit_exception_tac.
Qed.

End Exceptions.

(** *** The consistency check *)

Section ConsistencyCheck.
Context {P : Platform}.

(** C2, as the code has it.  After the continuous xmin selection alpha
    is recomputed at the selected threshold, the candidate at the
    selected index, as [1 + n / sum(log(z_i / xmin))] over the [n] points
    [z_i >= xmin] whatever [n] is, and compared with the alpha the
    backend reported for that candidate (on the numpy backend
    [alpha_gen] at that candidate, with its sentinel 0), by
    [assert_almost_equal] to 4 decimals: when [skip_consistency_check] is off the fit raises
    [AssertionError] if the comparison fails and goes on to the fit if it
    passes; when it is on, no [AssertionError] is raised at all.  The
    comparison is absolute: finite values pass exactly when they differ
    by less than [1.5 * 10**(-4)]; values that are not both finite pass
    exactly when both are NaN or, none being NaN, they are equal. *)
Theorem consistency_check_guard (kw : kwargs) :
  (kw_skip_consistency_check kw = true ->
   forall w a b w', plfit.plfit kw w <> (inl (AssertionError a b), w'))
  /\ (kw_skip_consistency_check kw = false ->
      forall z xmins argxmins w s w1 reported,
        plfit.search kw z xmins argxmins w = (inr s, w1) ->
        nth_error (plfit.sel_alpha_values s) (plfit.sel_best_ks_index s) = Some reported ->
        plfit.continuous_fit kw z xmins argxmins w =
          if assert_almost_equal (plfit.direct_alpha z (plfit.sel_xmin s)) reported 4
          then plfit.fit_at kw z xmins (plfit.sel_xmin s) w1
          else (inl (AssertionError (plfit.direct_alpha z (plfit.sel_xmin s)) reported), w1))
  /\ (forall z xmin,
      plfit.direct_alpha z xmin =
        1 + of_nat (length (filter (fun v => geb v xmin) z))
            / Np.sum (map (fun v => log (v / xmin)) (filter (fun v => geb v xmin) z)))
  /\ (forall z xmins argxmins w s w1,
      plfit.search kw z xmins argxmins w = (inr s, w1) ->
      nth_error xmins (plfit.sel_best_ks_index s) = Some (plfit.sel_xmin s)
      /\ (exists ks w0,
             plfit.run_backend kw z xmins argxmins w
             = (inr (ks, plfit.sel_alpha_values s), w0))
      /\ (python_only kw -> plfit.sel_alpha_values s = map (alpha_gen z) xmins))
  /\ (forall computed reported,
      assert_almost_equal computed reported 4 =
        if is_finite reported && is_finite computed
        then negb (geb (PrimFloat.abs (reported - computed)) (1.5 * pow 10 (- of_nat 4)))
        else if is_nan reported || is_nan computed
             then is_nan reported && is_nan computed
             else reported =? computed).
Proof.
  split; [|split; [|split; [|split]]].
  - intros Hskip w a b w' H.
    unfold plfit.plfit, bind, plfit.get_data in H.
    destruct (existsb (fun v => v <? 0) (data (self w))).
    + discriminate.
    + apply fit_checked_raises in H. destruct H as [[] | [Hs _]]. congruence.
  - intros Hskip z xmins argxmins w s w1 reported Hsearch Hnth.
    unfold plfit.continuous_fit. rewrite (bind_step _ _ _ _ _ Hsearch).
    unfold plfit.consistency_check. rewrite Hskip, Hnth.
    unfold bind, or_raise, ret, raise.
    destruct (assert_almost_equal _ _ _); reflexivity.
  - intros z xmin. unfold plfit.direct_alpha.
    rewrite count_nonzero_filter, mask_select_filter, map_map. reflexivity.
  - intros z xmins argxmins w s w1 Hsearch.
    split; [apply (search_inr _ _ _ _ _ _ _ Hsearch)|]. split.
    + revert Hsearch. unfold plfit.search. intros H.
      apply bind_inr in H as ([ks al] & w0 & Hrun & H).
      do 8 mskip H.
      unfold ret in H. injection H as <- _. cbn [plfit.sel_alpha_values].
      exists ks, w0. exact Hrun.
    + intros Hpy. apply (search_python_values _ _ _ _ _ _ _ Hpy Hsearch).
  - intros computed reported. unfold assert_almost_equal.
    destruct (is_finite reported && is_finite computed); reflexivity.
Qed.

End ConsistencyCheck.

(** Witness of C2: with the check skipped no run ends in
    [AssertionError]; with the defaults, on the sample [1, nan], the
    search selects the candidate 1, for which the selector reports the
    sentinel 0 while the direct computation gives infinity, and the fit
    raises. *)
Lemma consistency_check_guard_witness :
  (forall w a b w',
      plfit.plfit (P := Ref.platform) (with_skip_consistency_check true defaults) w
      <> (inl (AssertionError a b), w'))
  /\ exists w1,
      plfit.continuous_fit (P := Ref.platform) defaults
        Ref.sample_nan Ref.sample_nan [0; 1]%nat (Ref.holding Ref.sample_nan)
      = (inl (AssertionError infinity 0), w1).
Proof.
  split.
  - exact (proj1 (consistency_check_guard (P := Ref.platform)
                    (with_skip_consistency_check true defaults)) eq_refl).
  - eexists.
    rewrite (proj1 (proj2 (consistency_check_guard (P := Ref.platform) defaults)) eq_refl
               Ref.sample_nan Ref.sample_nan [0; 1]%nat (Ref.holding Ref.sample_nan)
               _ _ 0
               ltac:(vm_compute; reflexivity) ltac:(vm_compute; reflexivity)).
    vm_compute. reflexivity.
Defined.

(** C2 as the specification words it fails: the tolerance is not a
    relative one of about 1e-4.  With a cython backend whose alphas are
    off by 1.4e-4, the fit of [1, 1e3, 1e6, 1e9, 1e12] selects the
    candidate 1, where the direct alpha is 1.0724 and the reported one
    1.0725: they disagree by more than 1e-4 of either, and the fit
    returns.  With a backend off by 2e-4, the fit of [1, 2, 3] selects
    the candidate 1, where the two alphas, 2.6743 and 2.6745, disagree by
    less than 1e-4 of either, and the fit raises [AssertionError]. *)
Lemma consistency_check_guard_counterexample :
  (exists s w1 reported,
      plfit.search (P := Ref.cython_off_by 1.4e-4) (with_usecy true defaults)
        (Np.sort Ref.sample_heavy) (fst (Np.unique_index (Np.sort Ref.sample_heavy)))
        (snd (Np.unique_index (Np.sort Ref.sample_heavy)))
        (Ref.holding Ref.sample_heavy) = (inr s, w1)
      /\ nth_error (plfit.sel_alpha_values s) (plfit.sel_best_ks_index s) = Some reported
      /\ (let computed :=
            plfit.direct_alpha (P := Ref.cython_off_by 1.4e-4)
              (Np.sort Ref.sample_heavy) (plfit.sel_xmin s) in
          (1e-4 * PrimFloat.abs reported <? PrimFloat.abs (computed - reported)) = true
          /\ (1e-4 * PrimFloat.abs computed <? PrimFloat.abs (computed - reported)) = true
          /\ assert_almost_equal (P := Ref.cython_off_by 1.4e-4) computed reported 4 = true)
      /\ exists xmin alpha w',
          plfit.__init__ (P := Ref.cython_off_by 1.4e-4) Ref.sample_heavy
            (with_usecy true defaults) (mk_world new_obj [])
          = (inr (xmin, alpha), w'))
  /\ (exists s w1 reported,
      plfit.search (P := Ref.cython_off_by 2e-4) (with_usecy true defaults)
        (Np.sort Ref.sample_small) (fst (Np.unique_index (Np.sort Ref.sample_small)))
        (snd (Np.unique_index (Np.sort Ref.sample_small)))
        (Ref.holding Ref.sample_small) = (inr s, w1)
      /\ nth_error (plfit.sel_alpha_values s) (plfit.sel_best_ks_index s) = Some reported
      /\ (let computed :=
            plfit.direct_alpha (P := Ref.cython_off_by 2e-4)
              (Np.sort Ref.sample_small) (plfit.sel_xmin s) in
          (PrimFloat.abs (computed - reported) <? 1e-4 * PrimFloat.abs reported) = true
          /\ (PrimFloat.abs (computed - reported) <? 1e-4 * PrimFloat.abs computed) = true
          /\ fst (plfit.__init__ (P := Ref.cython_off_by 2e-4) Ref.sample_small
                    (with_usecy true defaults) (mk_world new_obj []))
             = inl (AssertionError computed reported))).
Proof.
  split.
  - do 3 eexists. split; [vm_compute; reflexivity|].
    split; [vm_compute; reflexivity|].
    split; [repeat split; vm_compute; reflexivity|].
    do 3 eexists. vm_compute. reflexivity.
  - do 3 eexists. split; [vm_compute; reflexivity|].
    split; [vm_compute; reflexivity|].
    repeat split; vm_compute; reflexivity.
Qed.

(** *** The constructor *)

Section Constructor.
Context {P : Platform}.

Lemma count_nonzero_positive {A : Type} (p : A -> bool) (x : list A) :
  (0 <? Np.count_nonzero (map p x))%nat = existsb p x.
Proof.
  rewrite count_nonzero_filter.
  induction x as [|a t IH]; simpl; [reflexivity|].
  destruct (p a); simpl; [reflexivity | exact IH].
Qed.

Lemma positive_has_no_negative (x : list float) :
  existsb (fun v => v <? 0) (filter (fun v => gtb v 0) x) = false.
Proof.
  induction x as [|a t IH]; simpl; [reflexivity|].
  destruct (gtb a 0) eqn:Ha; [|exact IH].
  simpl. rewrite IH, orb_false_r. unfold gtb in Ha. apply ltb_asym. exact Ha.
Qed.

(** C10, as the code has it.  The constructor filters with the strict
    [x > 0] only when the input holds a negative value: zeros then go as
    well and the message counts the strictly negative points; an input
    without a negative value is stored as it is, zeros included.  Either
    way the stored data holds no negative value, and the fit the
    constructor starts runs past the validation of [plfit.plfit]: it
    never ends in the [ValueError] on negative data. *)
Theorem constructor_keeps_negatives_out (x : list float) (kw : kwargs) (w : world) :
  let negative := existsb (fun v => v <? 0) x in
  let stored := if negative then filter (fun v => gtb v 0) x else x in
  let printed :=
    if negative then [RemovedNegative (length (filter (fun v => v <? 0) x))] else [] in
  existsb (fun v => v <? 0) stored = false
  /\ plfit.__init__ x kw w =
       plfit.fit_checked kw stored
         (mk_world (set_data stored (self w)) (stdout w ++ printed))
  /\ forall w', plfit.__init__ x kw w <> (inl plfit.negative_data, w').
Proof.
  cbv zeta.
  assert (Hrun : plfit.__init__ x kw w =
    plfit.fit_checked kw
      (if existsb (fun v => v <? 0) x then filter (fun v => gtb v 0) x else x)
      (mk_world
         (set_data (if existsb (fun v => v <? 0) x
                    then filter (fun v => gtb v 0) x else x) (self w))
         (stdout w ++
            (if existsb (fun v => v <? 0) x
             then [RemovedNegative (length (filter (fun v => v <? 0) x))] else [])))
    /\ existsb (fun v => v <? 0)
         (if existsb (fun v => v <? 0) x then filter (fun v => gtb v 0) x else x) = false).
  { unfold plfit.__init__. cbv zeta. rewrite count_nonzero_positive.
    destruct (existsb (fun v => v <? 0) x) eqn:E.
    - rewrite count_nonzero_filter, mask_select_filter.
      unfold bind, print, ret, setattr, plfit.plfit, plfit.get_data. cbn.
      rewrite positive_has_no_negative. split; reflexivity.
    - unfold bind, print, ret, setattr, plfit.plfit, plfit.get_data. cbn.
      rewrite app_nil_r, E. split; reflexivity. }
  destruct Hrun as [Hrun Hstored].
  split; [exact Hstored|]. split; [exact Hrun|].
  intros w' H. rewrite Hrun in H. apply fit_checked_raises in H.
  destruct H as [H | [_ (a & b & H)]]; [apply H; reflexivity | discriminate].
Qed.

End Constructor.

(** C10 as the specification words it fails on [0, 1, 2, 3]: no value is
    negative, nothing is filtered, and the stored data keeps its zero, so
    it is not strictly positive. *)
Lemma constructor_keeps_negatives_out_counterexample :
  exists r w',
    Ref.run Ref.sample_zero defaults = (r, w')
    /\ data (self w') = Ref.sample_zero
    /\ existsb (fun v => v =? 0) (data (self w')) = true
    /\ forallb (fun v => gtb v 0) (data (self w')) = false.
Proof.
  eexists. eexists. split; [vm_compute; reflexivity|].
  repeat split; vm_compute; reflexivity.
Qed.

(** *** What a fit that returns has stored *)

Section Results.
Context {P : Platform}.

(** What the continuous fit has stored when it returns. *)
Lemma fit_at_inr (kw : kwargs) (z xmins : list float) (xmin xm al : float) (w w' : world) :
  plfit.fit_at kw z xmins xmin w = (inr (xm, al), w') ->
  xm = xmin
  /\ _alpha (self w') = Some al
  /\ _xmin (self w') = Some xmin
  /\ _ngtx (self w') = Some (length (filter (fun v => geb v xmin) z))
  /\ if (length (filter (fun v => geb v xmin) z) =? 1)%nat
     then al = 0 /\ _alphaerr (self w') = Some 0
     else _alphaerr (self w') =
            Some ((al - 1) / PrimFloat.sqrt (of_nat (length (filter (fun v => geb v xmin) z))))
          /\ is_nan al = false /\ is_nan xmin = false
          /\ exists L, _likelihood (self w') = Some L /\ is_nan L = false.
Proof.
  unfold plfit.fit_at. rewrite mask_select_filter. cbv zeta.
  set (zz := filter (fun v => geb v xmin) z).
  set (n := length zz).
  intros H.
  apply bind_inr in H as (alpha & w1 & _ & H).
  apply bind_inr in H as (u1 & w2 & _ & H).
  apply bind_inr in H as (ks & w3 & _ & H).
  set (L := of_nat n * log ((alpha - 1) / xmin)
            - alpha * Np.sum (map log (map (fun v => v / xmin) zz))) in H.
  do 8 mset H.
  destruct (n =? 1)%nat.
  - apply bind_inr in H as (? & w4 & Hp & H).
    apply when_print_self in Hp.
    do 6 mset H.
    unfold ret in H. injection H as <- <- <-.
    cbn [self]. rewrite Hp.
    repeat split; reflexivity.
  - destruct (is_nan L || is_nan xmin || is_nan alpha) eqn:Hnan; [discriminate|].
    apply orb_false_iff in Hnan as [Hnan Hal].
    apply orb_false_iff in Hnan as [HL Hxm].
    apply bind_inr in H as (? & w4 & Hrep & H).
    unfold ret in H. injection H as <- <- <-.
    revert Hrep.
    match goal with
    | |- ?m ?w = _ -> _ =>
        intros Hrep;
        assert (Hself : self w4 = self w)
          by (refine ((_ : keeps_self m) w _ w4 Hrep); keeps_tac)
    end.
    rewrite Hself. cbn [self].
    destruct scipyOK;
      (do 5 (split; [reflexivity|]); do 2 (split; [assumption|]);
       exists L; split; [reflexivity | assumption]).

Qed.
(** What the discrete fitter has stored when it returns. *)
Lemma discrete_best_alpha_inr (n_alpha : nat) (approximate verbose finite : bool)
    (w w' : world) (r : float * float * float * float) :
  plfit.discrete_best_alpha n_alpha approximate verbose finite w = (inr r, w') ->
  exists xm al,
    _xmin (self w') = Some xm /\ _alpha (self w') = Some al
    /\ _ngtx (self w') = Some (Np.count_nonzero (map (fun v => geb v xm) (data (self w))))
    /\ _alphaerr (self w') =
         Some ((al - 1.0)
               / PrimFloat.sqrt
                   (of_nat (Np.count_nonzero (map (fun v => geb v xm) (data (self w)))))).
Proof.
  unfold plfit.discrete_best_alpha. intros H.
  apply bind_inr in H as (x & w0 & Hx & H).
  unfold plfit.get_data in Hx. injection Hx as <- <-.
  do 16 mskip H.
  apply bind_inr in H as (xm & w1 & Hxm & H).
  apply getattr_inr in Hxm as [Hxm ->].
  apply bind_inr in H as (u1 & w2 & Hset1 & H).
  apply setattr_inr in Hset1. subst w2.
  apply bind_inr in H as (al & w3 & Hal & H).
  apply getattr_inr in Hal as [Hal ->]. cbn in Hal.
  apply bind_inr in H as (u2 & w4 & Hset2 & H).
  apply setattr_inr in Hset2. subst w4.
  apply bind_inr in H as (u3 & w5 & Hprob & H).
  unfold ret in H. injection H as _ <-.
  exists xm, al.
  destruct scipyOK.
  - apply bind_inr in Hprob as (ks & w6 & Hks & Hprob).
    apply getattr_inr in Hks as [_ ->].
    apply setattr_inr in Hprob. subst w5. cbn. auto.
  - unfold ret in Hprob. injection Hprob as _ <-. cbn. auto.
Qed.

Lemma classify_keeps_self (kw : kwargs) (x xmins : list float) :
  keeps_self (plfit.classify kw x xmins).
Proof. unfold plfit.classify. keeps_tac. Qed.

Lemma count_sorted (xmin : float) (x : list float) :
  length (filter (fun v => geb v xmin) (Np.sort x))
  = Np.count_nonzero (map (fun v => geb v xmin) x).
Proof.
  rewrite count_nonzero_filter. apply filter_length_perm, sort_perm.
Qed.

(** On the continuous path a NaN never reaches the caller. *)
Lemma fit_at_returns_no_nan (kw : kwargs) (z xmins : list float) (t xmin alpha : float)
    (w w' : world) :
  plfit.fit_at kw z xmins t w = (inr (xmin, alpha), w') ->
  is_nan xmin = false /\ is_nan alpha = false.
Proof.
  intros H. apply fit_at_inr in H as (-> & _ & _ & _ & Herr).
  destruct (length (filter (fun v => geb v t) z) =? 1)%nat eqn:Hn.
  - destruct Herr as [-> _]. split; [|reflexivity].
    apply Nat.eqb_eq in Hn.
    destruct (filter (fun v => geb v t) z) as [|v [|]] eqn:E; try discriminate.
    assert (Hin : In v (filter (fun u => geb u t) z)) by (rewrite E; left; reflexivity).
    apply filter_In in Hin as [_ Hge]. unfold geb in Hge.
    apply leb_not_nan in Hge. apply Hge.
  - destruct Herr as (_ & Hal & Hxm & _). auto.
Qed.

End Results.

(** *** NaN results *)

(** C8, where the code departs from it.  The sample [0, 0, 1] has ties,
    so the fit takes the discrete branch, which returns from
    [plfit.plfit] before the NaN test: the caller receives a NaN alpha,
    next to a NaN likelihood. *)
Theorem discrete_fit_returns_nan :
  exists xmin alpha L w',
    Ref.run Ref.sample_zeros defaults = (inr (xmin, alpha), w')
    /\ is_nan alpha = true
    /\ _alpha (self w') = Some alpha
    /\ _likelihood (self w') = Some L /\ is_nan L = true.
Proof.
  do 4 eexists. split; [vm_compute; reflexivity|].
  repeat split; vm_compute; reflexivity.
Qed.

(** *** The discrete selection and its finite-size correction *)

Section Discrete.
Context {P : Platform}.

Lemma nan_to_inf_numbers (l : list float) :
  forallb (fun v => negb (is_nan v))
    (map (fun k => if is_nan k then infinity else k) l) = true.
Proof.
  induction l as [|k t IH]; simpl; [reflexivity|].
  rewrite IH, andb_true_r.
  destruct (is_nan k) eqn:Hk; [reflexivity | rewrite Hk; reflexivity].
Qed.

(** The part of C6 the code keeps: when the discrete fitter returns, the
    array [_xmin_kstest] is free of NaN, each having become infinity, and
    the selected KS value is its first minimum, so that an infinite
    value is selected only when no finite one is there. *)
Lemma discrete_selection_minimal (n_alpha : nat) (approximate verbose finite : bool)
    (w w' : world) (best_alpha best_xmin best_ks best_likelihood : float) :
  plfit.discrete_best_alpha n_alpha approximate verbose finite w
    = (inr (best_alpha, best_xmin, best_ks, best_likelihood), w') ->
  exists ksvalues i,
    _xmin_kstest (self w') = Some ksvalues
    /\ forallb (fun v => negb (is_nan v)) ksvalues = true
    /\ nth_error ksvalues i = Some best_ks
    /\ nth_error (Np.unique (data (self w))) i = Some best_xmin
    /\ minimal_first ksvalues i.
Proof.
  unfold plfit.discrete_best_alpha. intros H.
  apply bind_inr in H as (x & w0 & Hx & H).
  unfold plfit.get_data in Hx. injection Hx as <- <-.
  apply bind_inr in H as (u0 & w1 & _ & H).
  apply bind_inr in H as (alpha_of_xmin & w2 & _ & H).
  apply bind_inr in H as (u1 & w3 & _ & H).
  apply bind_inr in H as (u2 & w4 & _ & H).
  apply bind_inr in H as (u3 & w5 & Hset & H).
  apply setattr_inr in Hset.
  apply bind_inr in H as (best_index & w6 & Hbest & H).
  apply or_raise_inr in Hbest as [Hbest ->].
  apply bind_inr in H as (a & w7 & Ha & H).
  apply or_raise_inr in Ha as [_ ->].
  apply bind_inr in H as (u4 & w8 & Hset1 & H). apply setattr_inr in Hset1.
  apply bind_inr in H as (xm & w9 & Hxm & H).
  apply or_raise_inr in Hxm as [Hxm ->].
  apply bind_inr in H as (u5 & w10 & Hset2 & H). apply setattr_inr in Hset2.
  apply bind_inr in H as (ks & w11 & Hks & H).
  apply or_raise_inr in Hks as [Hks ->].
  apply bind_inr in H as (u6 & w12 & Hset3 & H). apply setattr_inr in Hset3.
  apply bind_inr in H as (L & w13 & HL & H).
  apply lift_inr in HL as [_ ->].
  apply bind_inr in H as (u7 & w14 & Hset4 & H). apply setattr_inr in Hset4.
  apply bind_inr in H as (u8 & w15 & Hfin & H).
  assert (Hkeep15 : _xmin_kstest (self w15) = _xmin_kstest (self w14)).
  { destruct finite.
    - apply bind_inr in Hfin as (? & ? & _ & Hfin).
      apply bind_inr in Hfin as (? & ? & Hn & _).
      unfold local, or_raise, raise in Hn. discriminate.
    - unfold ret in Hfin. injection Hfin as _ <-. reflexivity. }
  apply bind_inr in H as (u9 & w16 & Hpr & H). apply when_print_self in Hpr.
  apply bind_inr in H as (xm' & w17 & Hxm' & H).
  apply getattr_inr in Hxm' as [_ ->].
  apply bind_inr in H as (u10 & w18 & Hset5 & H). apply setattr_inr in Hset5.
  apply bind_inr in H as (a' & w19 & Ha' & H).
  apply getattr_inr in Ha' as [_ ->].
  apply bind_inr in H as (u11 & w20 & Hset6 & H). apply setattr_inr in Hset6.
  apply bind_inr in H as (u12 & w21 & Hprob & H).
  unfold ret in H. injection H as <- <- <- <- <-.
  assert (Hkeep21 : _xmin_kstest (self w21) = _xmin_kstest (self w20)).
  { destruct scipyOK.
    - apply bind_inr in Hprob as (? & ? & Hg & Hprob).
      apply getattr_inr in Hg as [_ ->].
      apply setattr_inr in Hprob. subst w21. reflexivity.
    - unfold ret in Hprob. injection Hprob as _ <-. reflexivity. }
  eexists. exists best_index.
  split.
  { rewrite Hkeep21. subst w20 w18. cbn. rewrite Hpr, Hkeep15.
    subst w14 w12 w10 w8 w5. cbn. reflexivity. }
  split; [apply nan_to_inf_numbers|].
  split; [exact Hks|]. split; [exact Hxm|].
  apply argmin_numbers; [apply nan_to_inf_numbers | exact Hbest].
Qed.

Ltac find_raise :=
  lazy beta iota;
  first
    [ apply always_raises_raise
    | apply always_raises_bind_l; find_raise
    | apply always_raises_bind_r; intros ?; find_raise ].

Lemma discrete_finite_always_raises (n_alpha : nat) (approximate verbose : bool) :
  always_raises (plfit.discrete_best_alpha n_alpha approximate verbose true).
Proof.
  unfold plfit.discrete_best_alpha, local, or_raise. find_raise.
Qed.

End Discrete.

(** C6, where the code departs from it.  Asked for the finite-size
    correction, [discrete_best_alpha] reads its local [n] before the
    assignment that binds it: on every platform and every instance it
    ends in an exception, and on the sample with ties of the
    specification's section 8 that exception is [UnboundLocalError]. *)
Theorem discrete_finite_correction_unbound :
  (forall (P : Platform) (n_alpha : nat) (approximate verbose : bool),
      always_raises (plfit.discrete_best_alpha n_alpha approximate verbose true))
  /\ fst (Ref.run Ref.sample_ties (with_finite true defaults))
     = inl (UnboundLocalError "n").
Proof.
  split.
  - intros. apply discrete_finite_always_raises.
  - vm_compute. reflexivity.
Qed.

(* ================================================================== *)
(** ** The fitter, run

    Facts on sorted samples and their distinct values, on the continuous
    fitter on the numpy backend, on the fit at a threshold and on the
    discrete fitter, which the claims on the degenerate fit and on the
    reported error, and the further properties, rest on. *)

(** *** More on binary64: differences *)

Section Differences.

Lemma finite_cases (a : float) :
  is_finite a = true ->
  (exists s, Prim2SF a = S754_zero s) \/ (exists s m e, Prim2SF a = S754_finite s m e).
Proof.
  unfold is_finite, is_infinity, is_nan. intros H.
  apply negb_true_iff, orb_false_iff in H as [Hn Hi].
  rewrite FloatAxioms.eqb_spec in Hn, Hi. rewrite FloatAxioms.abs_spec in Hi.
  change (Prim2SF infinity) with (S754_infinity false) in Hi.
  destruct (Prim2SF a) as [s|s| |s m e]; simpl in Hn, Hi; try discriminate; eauto.
Qed.

Lemma sub_diag_key (a : float) :
  is_finite a = true -> fkey (PrimFloat.abs (a - a)) = Some (0, 0, 0)%Z.
Proof.
  intros H. unfold fkey. rewrite FloatAxioms.abs_spec, FloatAxioms.sub_spec.
  destruct (finite_cases a H) as [[s E] | (s & m & e & E)]; rewrite E.
  - destruct s; reflexivity.
  - unfold FloatAxioms.SF64sub, SFsub. cbv zeta. rewrite Z.sub_diag. reflexivity.
Qed.

Lemma SFabs_binary_round (s : bool) (m : positive) (e : Z) :
  SFabs (binary_round prec emax s m e) = SFabs (binary_round prec emax (negb s) m e).
Proof.
  unfold binary_round, binary_round_aux.
  destruct (shl_align m e _) as [mz ez].
  destruct (shr_fexp prec emax (Z.pos mz) ez loc_Exact) as [mrs' e'].
  destruct (shr_fexp prec emax _ e' loc_Exact) as [mrs'' e''].
  destruct (shr_m mrs''); try reflexivity.
  destruct (e'' <=? emax - prec)%Z; reflexivity.
Qed.

Lemma SFabs_binary_normalize (m e : Z) :
  SFabs (binary_normalize prec emax m e false)
  = SFabs (binary_normalize prec emax (- m) e false).
Proof.
  destruct m as [|p|p]; simpl; [reflexivity | |].
  - apply (SFabs_binary_round false).
  - apply (SFabs_binary_round true).
Qed.

(** [abs(a - b)] and [abs(b - a)] are the same number. *)
Lemma abs_sub_comm (a b : float) : PrimFloat.abs (a - b) = PrimFloat.abs (b - a).
Proof.
  apply FloatAxioms.Prim2SF_inj.
  rewrite !FloatAxioms.abs_spec, !FloatAxioms.sub_spec.
  unfold FloatAxioms.SF64sub, SFsub.
  destruct (Prim2SF a) as [s|s| |s m e], (Prim2SF b) as [s'|s'| |s' m' e'];
    try reflexivity; try (destruct s, s'; reflexivity).
  cbv zeta. rewrite (Z.min_comm e' e).
  rewrite SFabs_binary_normalize. f_equal. f_equal. lia.
Qed.

End Differences.

Section Tolerance.
Context {P : Platform}.

(** A number compared with itself passes [assert_almost_equal]. *)
Lemma assert_almost_equal_refl (a : float) (decimal : nat) :
  (0 <? 1.5 * pow 10 (- of_nat decimal)) = true ->
  assert_almost_equal a a decimal = true.
Proof.
  intros Htol. unfold assert_almost_equal.
  destruct (is_finite a) eqn:Hfin; simpl.
  - apply negb_true_iff. unfold geb. apply not_true_iff_false.
    rewrite leb_fkey, (sub_diag_key a Hfin).
    apply ltb_fkey in Htol. change (fkey 0) with (Some (0, 0, 0)%Z) in Htol.
    destruct (fkey (1.5 * pow 10 (- of_nat decimal))) as [[[c e] m]|]; [|tauto].
    unfold klt, keq in *. lia.
  - destruct (is_nan a) eqn:Hnan; simpl; [reflexivity|].
    apply eqb_fkey. apply not_true_iff_false in Hnan. rewrite is_nan_fkey in Hnan.
    destruct (fkey a) as [[[c e] m]|]; [|congruence].
    unfold keq. lia.
Qed.

End Tolerance.

(** *** Sorted samples and their distinct values *)

Section Sorting.

Lemma insert_entry_sorted {A : Type} (p : float * A) (l : list (float * A)) :
  is_nan (fst p) = false ->
  Forall (fun q => is_nan (fst q) = false) l ->
  StronglySorted (fun a b => (fst a <=? fst b) = true) l ->
  StronglySorted (fun a b => (fst a <=? fst b) = true) (Np.insert_entry p l).
Proof.
  intros Hp. induction l as [|q t IH]; intros Hl Hs; simpl.
  - constructor; constructor.
  - inversion Hl as [|? ? Hq Ht]; subst. inversion Hs as [|? ? Hst Hqt]; subst.
    unfold Np.sort_lt. rewrite Hp, andb_false_l, orb_false_r.
    destruct (fst q <? fst p) eqn:Hlt.
    + constructor; [apply IH; assumption|].
      eapply Permutation_Forall; [symmetry; apply insert_entry_perm|].
      constructor; [apply ltb_leb; exact Hlt | exact Hqt].
    + assert (Hle : (fst p <=? fst q) = true) by (clear - Hp Hq Hlt; float_order).
      constructor; [exact Hs|]. constructor; [exact Hle|].
      eapply Forall_impl; [|exact Hqt]. simpl. intros r Hr.
      eapply leb_trans; [exact Hle | exact Hr].
Qed.

Lemma sort_entries_sorted {A : Type} (l : list (float * A)) :
  Forall (fun q => is_nan (fst q) = false) l ->
  StronglySorted (fun a b => (fst a <=? fst b) = true) (Np.sort_entries l).
Proof.
  induction l as [|p t IH]; intros Hl; simpl; [constructor|].
  inversion Hl as [|? ? Hp Ht]; subst.
  apply insert_entry_sorted; [exact Hp | | apply IH; exact Ht].
  eapply Permutation_Forall; [symmetry; apply sort_entries_perm | exact Ht].
Qed.

Lemma StronglySorted_map {A B : Type} (R : B -> B -> Prop) (f : A -> B) (l : list A) :
  StronglySorted (fun a b => R (f a) (f b)) l -> StronglySorted R (map f l).
Proof.
  induction 1 as [|a t Ht IH Ha]; simpl; constructor; [exact IH|].
  apply Forall_map. exact Ha.
Qed.

Lemma enumerate_from_fst {A : Type} (l : list A) (i : nat) :
  map fst (Np.enumerate_from i l) = l.
Proof.
  revert i; induction l as [|a t IH]; intros i; simpl; [reflexivity|].
  rewrite IH. reflexivity.
Qed.

(** The sorted values [np.unique] works on are the array's own. *)
Lemma unique_aux_perm (ar : list float) :
  Permutation (map fst (Np.sort_entries (Np.enumerate ar))) ar.
Proof.
  rewrite sort_entries_perm. unfold Np.enumerate. rewrite enumerate_from_fst. reflexivity.
Qed.

Lemma mask_select_incl {A : Type} (x : list A) (mask : list bool) :
  incl (Np.mask_select x mask) x.
Proof.
  revert mask; induction x as [|a t IH]; intros [|b m]; simpl;
    try (intros v []).
  destruct b.
  - intros v [<- | Hv]; [left; reflexivity | right; apply (IH m); exact Hv].
  - intros v Hv. right. apply (IH m); exact Hv.
Qed.

Lemma mask_select_length {A : Type} (x : list A) (mask : list bool) :
  (length (Np.mask_select x mask) <= length x)%nat.
Proof.
  revert mask; induction x as [|a t IH]; intros [|b m]; simpl; try lia.
  specialize (IH m). destruct b; simpl; lia.
Qed.

Lemma mask_select_same_length {A B : Type} (x : list A) (y : list B) (mask : list bool) :
  length x = length y ->
  length (Np.mask_select x mask) = length (Np.mask_select y mask).
Proof.
  revert y mask; induction x as [|a t IH]; intros [|b u] [|c m] H; simpl in *;
    try reflexivity; try discriminate.
  injection H as H. specialize (IH u m H). destruct c; simpl; congruence.
Qed.

Lemma change_mask_from_length (l : list float) (prev : float) :
  length (Np.change_mask_from prev l) = length l.
Proof.
  revert prev; induction l as [|v t IH]; intros prev; simpl; [reflexivity|].
  rewrite IH. reflexivity.
Qed.

Lemma change_mask_length (l : list float) : length (Np.change_mask l) = length l.
Proof. destruct l; simpl; [|rewrite change_mask_from_length]; reflexivity. Qed.

(** The mask of [np.unique] keeps the first entry. *)
Lemma unique_mask_head (v : float) (t : list float) :
  exists mask, Np.unique_mask (v :: t) = true :: mask.
Proof.
  unfold Np.unique_mask. destruct (is_nan (last (v :: t) 0)).
  - destruct (Np.searchsorted_left (v :: t) (last (v :: t) 0)); simpl; eauto.
  - simpl. eauto.
Qed.

(** Every distinct value is a value of the array. *)
Lemma unique_incl (ar : list float) : incl (Np.unique ar) ar.
Proof.
  unfold Np.unique, Np.unique_index. cbn [fst]. intros v Hv.
  apply mask_select_incl in Hv.
  eapply Permutation_in; [apply unique_aux_perm | exact Hv].
Qed.

Lemma unique_index_lengths (ar : list float) :
  length (snd (Np.unique_index ar)) = length (fst (Np.unique_index ar)).
Proof.
  unfold Np.unique_index. cbn [fst snd].
  apply mask_select_same_length. rewrite !length_map. reflexivity.
Qed.

Lemma unique_length (ar : list float) : (length (Np.unique ar) <= length ar)%nat.
Proof.
  unfold Np.unique, Np.unique_index. cbn [fst].
  etransitivity; [apply mask_select_length|].
  rewrite (Permutation_length (unique_aux_perm ar)). lia.
Qed.

Lemma change_mask_increasing (l : list float) :
  forall prev,
  StronglySorted (fun a b => (a <=? b) = true) (prev :: l) ->
  Forall (fun v => (prev <? v) = true) (Np.mask_select l (Np.change_mask_from prev l))
  /\ StronglySorted (fun a b => (a <? b) = true)
       (Np.mask_select l (Np.change_mask_from prev l)).
Proof.
  induction l as [|v t IH]; intros prev Hs; simpl.
  - split; constructor.
  - inversion Hs as [|? ? Hvt Hprev]; subst.
    inversion Hprev as [|? ? Hpv Hpt]; subst.
    destruct (IH v Hvt) as [Hgt Hsorted].
    unfold neqb. destruct (v =? prev) eqn:Heq; simpl.
    + split; [|exact Hsorted].
      eapply Forall_impl; [|exact Hgt]. simpl. intros u Hu.
      clear - Hpv Hu. float_order.
    + assert (Hlt : (prev <? v) = true).
      { clear - Hpv Heq. apply not_true_iff_false in Heq. rewrite eqb_fkey in Heq.
        float_order. }
      split.
      * constructor; [exact Hlt|].
        eapply Forall_impl; [|exact Hgt]. simpl. intros u Hu.
        eapply ltb_trans; eauto.
      * constructor; assumption.
Qed.

End Sorting.

Section DistinctValues.

(** Without a NaN the mask of [np.unique] is the plain one. *)
Lemma unique_mask_numbers (aux : list float) :
  forallb (fun v => negb (is_nan v)) aux = true ->
  Np.unique_mask aux = Np.change_mask aux.
Proof.
  intros Hnum. unfold Np.unique_mask.
  destruct aux as [|v t]; [reflexivity|].
  assert (Hlast : In (last (v :: t) 0) (v :: t)).
  { destruct (exists_last (l := v :: t) ltac:(discriminate)) as (l' & a & E).
    rewrite E, last_last. apply in_or_app. right. left. reflexivity. }
  rewrite forallb_forall in Hnum. apply Hnum, negb_true_iff in Hlast.
  rewrite Hlast. reflexivity.
Qed.

Lemma numbers_perm (l l' : list float) :
  Permutation l l' ->
  forallb (fun v => negb (is_nan v)) l = true ->
  forallb (fun v => negb (is_nan v)) l' = true.
Proof.
  intros Hp H. apply forallb_forall. intros v Hv.
  rewrite forallb_forall in H. apply H.
  eapply Permutation_in; [symmetry; exact Hp | exact Hv].
Qed.

(** On an array without NaN the distinct values come out in strictly
    increasing order. *)
Lemma unique_increasing (ar : list float) :
  forallb (fun v => negb (is_nan v)) ar = true ->
  StronglySorted (fun a b => (a <? b) = true) (Np.unique ar).
Proof.
  intros Hnum. unfold Np.unique, Np.unique_index. cbn [fst].
  assert (Hs : StronglySorted (fun a b => (a <=? b) = true)
                 (map fst (Np.sort_entries (Np.enumerate ar)))).
  { apply StronglySorted_map, sort_entries_sorted.
    apply Forall_forall. intros q Hq.
    rewrite forallb_forall in Hnum.
    apply negb_true_iff, Hnum.
    rewrite <- (enumerate_from_fst ar 0). apply in_map. exact Hq. }
  rewrite unique_mask_numbers
    by (eapply numbers_perm; [symmetry; apply unique_aux_perm | exact Hnum]).
  destruct (map fst (Np.sort_entries (Np.enumerate ar))) as [|v t]; simpl.
  - constructor.
  - destruct (change_mask_increasing t v Hs) as [Hgt Hsorted].
    constructor; assumption.
Qed.

Lemma StronglySorted_nth_error {A : Type} (R : A -> A -> Prop) (l : list A) :
  StronglySorted R l ->
  forall i j a b, (i < j)%nat ->
    nth_error l i = Some a -> nth_error l j = Some b -> R a b.
Proof.
  induction 1 as [|h t Ht IH Hh]; intros i j a b Hij Hi Hj.
  - destruct i; discriminate.
  - destruct j as [|j]; [lia|]. simpl in Hj.
    destruct i as [|i]; simpl in Hi.
    + injection Hi as <-. rewrite Forall_forall in Hh.
      apply Hh. eapply nth_error_In; eauto.
    + apply (IH i j); [lia | assumption | assumption].
Qed.

Lemma two_members {A : Type} (p : A -> bool) (l : list A) (a b : A) :
  In a l -> In b l -> a <> b -> p a = true -> p b = true ->
  (2 <= length (filter p l))%nat.
Proof.
  intros Ha Hb Hab Hpa Hpb.
  assert (Hnd : NoDup [a; b]).
  { constructor; [intros [H | []]; congruence|]. constructor; [intros []|constructor]. }
  apply (NoDup_incl_length Hnd).
  intros v [<- | [<- | []]]; apply filter_In; auto.
Qed.

(** On a sample without NaN, a candidate that is not the last one has two
    points of the sample at or above it. *)
Lemma candidate_has_two_points (x : list float) (i : nat) (xm : float) :
  forallb (fun v => negb (is_nan v)) x = true ->
  (S i < length (Np.unique (Np.sort x)))%nat ->
  nth_error (Np.unique (Np.sort x)) i = Some xm ->
  (2 <= length (filter (fun v => geb v xm) (Np.sort x)))%nat.
Proof.
  intros Hnum Hi Hxm.
  assert (Hz : forallb (fun v => negb (is_nan v)) (Np.sort x) = true)
    by (eapply numbers_perm; [symmetry; apply sort_perm | exact Hnum]).
  pose proof (unique_increasing _ Hz) as Hs.
  destruct (nth_error (Np.unique (Np.sort x)) (S i)) as [u|] eqn:Hu;
    [|apply nth_error_None in Hu; lia].
  assert (Hlt : (xm <? u) = true)
    by (apply (StronglySorted_nth_error _ _ Hs i (S i)); [lia | assumption | assumption]).
  apply (two_members _ _ xm u).
  - apply unique_incl. eapply nth_error_In; eauto.
  - apply unique_incl. eapply nth_error_In; eauto.
  - intros ->. clear - Hlt. float_order.
  - unfold geb. clear - Hlt. float_order.
  - unfold geb. apply ltb_leb. exact Hlt.
Qed.

End DistinctValues.

(** *** The continuous fitter on the numpy backend *)

Section ContinuousPath.
Context {P : Platform}.

(** Where a call that searches for xmin on the continuous side goes. *)
Lemma plfit_continuous_search (kw : kwargs) (w : world) :
  existsb (fun v => v <? 0) (data (self w)) = false ->
  continuous_search kw (data (self w)) ->
  exists w0,
    self w0 = set_nunique (length (Np.unique (Np.sort (data (self w))))) (self w)
    /\ plfit.plfit kw w =
       plfit.continuous_fit kw (Np.sort (data (self w)))
         (Np.unique (Np.sort (data (self w))))
         (snd (Np.unique_index (Np.sort (data (self w))))) w0.
Proof.
  intros Hneg [Hx Hd]. unfold plfit.plfit, plfit.get_data. unfold bind at 1.
  rewrite Hneg. unfold plfit.fit_checked, Np.unique in *.
  destruct (Np.unique_index (Np.sort (data (self w)))) as [xmins argxmins].
  cbn [fst snd] in *. rewrite Hx. unfold plfit.classify.
  destruct Hd as [Hd | [Hd Hlen]]; rewrite Hd.
  - eexists. split; [|reflexivity]. reflexivity.
  - rewrite Hlen, Nat.eqb_refl.
    destruct (kw_verbose kw); (eexists; split; [|reflexivity]); reflexivity.
Qed.

Lemma alpha_gen_direct (z : list float) (xmin : float) :
  (2 <= length (filter (fun v => geb v xmin) z))%nat ->
  alpha_gen z xmin = plfit.direct_alpha z xmin.
Proof.
  intros Hn. unfold alpha_gen, plfit.direct_alpha. cbv zeta.
  rewrite count_nonzero_filter.
  replace (length (filter (fun v => geb v xmin) z) <? 2)%nat with false
    by (symmetry; apply Nat.ltb_ge; exact Hn).
  reflexivity.
Qed.

(** On the numpy backend the consistency check compares a number with
    itself whenever the selected candidate has two points or more. *)
Lemma consistency_check_python (kw : kwargs) (z xmins : list float) (argxmins : list nat)
    (w w1 : world) (s : plfit.selection) :
  tolerance_positive -> python_only kw ->
  plfit.search kw z xmins argxmins w = (inr s, w1) ->
  (2 <= length (filter (fun v => geb v (plfit.sel_xmin s)) z))%nat ->
  forall w2, plfit.consistency_check kw z s w2 = (inr tt, w2).
Proof.
  intros Htol Hpy Hs Hn w2.
  destruct (search_python_values _ _ _ _ _ _ _ Hpy Hs) as [_ Hal].
  destruct (search_inr _ _ _ _ _ _ _ Hs) as (_ & _ & _ & Hxm).
  unfold plfit.consistency_check. destruct (kw_skip_consistency_check kw); [reflexivity|].
  rewrite Hal, (map_nth_error _ _ _ Hxm). cbn [or_raise].
  rewrite (bind_step (ret _) _ w2 w2 _ eq_refl).
  rewrite (alpha_gen_direct _ _ Hn), (assert_almost_equal_refl _ 4 Htol). reflexivity.
Qed.

End ContinuousPath.

(** *** The fit at a threshold, run *)

Section FitAt.
Context {P : Platform}.

Lemma zip_with_length {A B C : Type} (f : A -> B -> C) (a : list A) (b : list B) :
  length a = length b -> length (Np.zip_with f a b) = length a.
Proof.
  revert b; induction a as [|x a IH]; intros [|y b] H; simpl in *;
    try reflexivity; try discriminate.
  f_equal. apply IH. lia.
Qed.

Lemma max_nonempty (a : list float) : (1 <= length a)%nat -> Np.max a <> None.
Proof. destruct a; simpl; [lia | discriminate]. Qed.

(** What [fit_at] does when at least one point lies at or above the
    threshold: the attributes it binds, what it prints and how it ends. *)
Lemma fit_at_run (kw : kwargs) (z xmins : list float) (xmin : float) (w : world) :
  let zz := filter (fun v => geb v xmin) z in
  let n := length zz in
  let a0 := 1 + of_nat n / Np.sum (map log (map (fun v => v / xmin) zz)) in
  let alpha :=
    if kw_finite kw then a0 * (of_nat n - 1) / of_nat n + 1 / of_nat n else a0 in
  let L := of_nat n * log ((alpha - 1) / xmin)
           - alpha * Np.sum (map log (map (fun v => v / xmin) zz)) in
  let ks :=
    match Np.max (map PrimFloat.abs
                    (Np.zip_with PrimFloat.sub
                       (map (fun i => i / of_nat n) (Np.arange n))
                       (map (fun v => 1 - pow (xmin / v) (alpha - 1)) zz))) with
    | Some k => k
    | None => nan
    end in
  let out :=
    if (n <? 50)%nat && negb (kw_finite kw) && negb (kw_silent kw)
    then stdout w ++ [FiniteSizeBias n] else stdout w in
  let o :=
    set_ngtx n
      ((if scipyOK then set_ks_prob (ksone_sf ks n) else fun o => o)
         (set_ks ks
            (set_alphaerr ((alpha - 1) / PrimFloat.sqrt (of_nat n))
               (set_alpha alpha
                  (set_xmins xmins (set_xmin xmin (set_likelihood L (self w)))))))) in
  (1 <= n)%nat ->
  plfit.fit_at kw z xmins xmin w =
    if (n =? 1)%nat then
      (inr (xmin, 0),
       mk_world
         (set_xmin xmin
            (set_ks_prob 0 (set_ks 0 (set_likelihood 0 (set_alphaerr 0 (set_alpha 0 o))))))
         (if kw_silent kw then out else out ++ [OnlyOnePoint]))
    else if is_nan L || is_nan xmin || is_nan alpha then
      (inl (ValueError "plfit failed; returned a nan"), mk_world o out)
    else
      (inr (xmin, alpha),
       mk_world o
         (if kw_quiet kw then out
          else out ++ [FitReport (kw_verbose kw) xmin n alpha
                         ((alpha - 1) / PrimFloat.sqrt (of_nat n)) L ks
                         (if scipyOK then Some (ksone_sf ks n) else None)])).
Proof.
  intros zz n a0 alpha L ks out o Hn.
  unfold plfit.fit_at. rewrite mask_select_filter. cbv zeta.
  fold zz. fold n. fold a0.
  assert (Hmax : Np.max (map PrimFloat.abs
                    (Np.zip_with PrimFloat.sub
                       (map (fun i => i / of_nat n) (Np.arange n))
                       (map (fun v => 1 - pow (xmin / v) (alpha - 1)) zz))) = Some ks).
  { unfold ks.
    destruct (Np.max _) as [k|] eqn:E; [reflexivity|].
    exfalso. revert E. apply max_nonempty.
    rewrite length_map, zip_with_length; unfold Np.arange;
      rewrite !length_map, length_seq; fold n; lia. }
  assert (Hn0 : (n =? 0)%nat = false) by (apply Nat.eqb_neq; lia).
  rewrite Hn0.
  replace (if kw_finite kw
           then ret (a0 * (of_nat n - 1) / of_nat n + 1 / of_nat n) else ret a0)
    with (@ret float alpha) by (unfold alpha; destruct (kw_finite kw); reflexivity).
  rewrite (bind_step (ret alpha) _ w w alpha eq_refl).
  fold L. clearbody ks L alpha. clear Hn0.
  unfold out, o. clear out o.
  destruct ((n <? 50)%nat && negb (kw_finite kw) && negb (kw_silent kw));
    unfold bind at 1; cbn [when print ret]; unfold bind at 1; rewrite Hmax;
    cbn [or_raise ret];
    destruct scipyOK, (n =? 1)%nat, (kw_silent kw);
    try reflexivity;
    destruct (is_nan L || is_nan xmin || is_nan alpha);
    try reflexivity;
    destruct (kw_quiet kw); reflexivity.
Qed.

End FitAt.

(** *** Maxima of absolute values *)

Section Distances.
Context {P : Platform}.

Lemma abs_not_negative (v : float) :
  is_nan (PrimFloat.abs v) = true \/ (0 <=? PrimFloat.abs v) = true.
Proof.
  rewrite is_nan_fkey, leb_fkey. change (fkey 0) with (Some (0, 0, 0)%Z).
  unfold fkey. rewrite FloatAxioms.abs_spec.
  destruct (Prim2SF v) as [s|s| |s m e]; simpl; auto; right; lia.
Qed.

Lemma fold_maximum_in (t : list float) :
  forall v, In (fold_left Np.maximum t v) (v :: t).
Proof.
  induction t as [|u t IH]; intros v; simpl; [left; reflexivity|].
  destruct (IH (Np.maximum v u)) as [H | H]; [|right; right; exact H].
  rewrite <- H. unfold Np.maximum.
  destruct (is_nan v); [left; reflexivity|].
  destruct (is_nan u); [right; left; reflexivity|].
  destruct (geb v u); [left | right; left]; reflexivity.
Qed.

Lemma max_in (a : list float) (m : float) : Np.max a = Some m -> In m a.
Proof.
  destruct a as [|v t]; simpl; [discriminate|].
  intros H. injection H as <-. apply fold_maximum_in.
Qed.

Lemma max_abs_not_negative (a : list float) :
  let d := match Np.max (map PrimFloat.abs a) with Some ks => ks | None => nan end in
  is_nan d = true \/ (0 <=? d) = true.
Proof.
  cbv zeta. destruct (Np.max (map PrimFloat.abs a)) as [ks|] eqn:E.
  - apply max_in, in_map_iff in E as (v & <- & _). apply abs_not_negative.
  - left. reflexivity.
Qed.

End Distances.

(** *** The discrete fitter, run *)

Section DiscreteRun.
Context {P : Platform}.

Lemma mapM_pure {A B : Type} (f : A -> M B) (l : list A) :
  (forall a w r w', f a w = (r, w') -> forall w0, f a w0 = (r, w0)) ->
  forall w r w', plfit.mapM f l w = (r, w') -> forall w0, plfit.mapM f l w0 = (r, w0).
Proof.
  intros Hf. induction l as [|a t IH]; simpl; intros w r w' H w0.
  - unfold ret in *. injection H as <- _. reflexivity.
  - unfold bind in *.
    destruct (f a w) as [[e|b] w1] eqn:Ea.
    + injection H as <- _. rewrite (Hf a w _ _ Ea w0). reflexivity.
    + rewrite (Hf a w _ _ Ea w0). rewrite (Hf a w _ _ Ea w) in Ea.
      injection Ea as <-.
      destruct (plfit.mapM f t w) as [[e|bs] w2] eqn:Et.
      * injection H as <- _. rewrite (IH w _ _ Et w0). reflexivity.
      * rewrite (IH w _ _ Et w0). unfold ret in *. injection H as <- _. reflexivity.
Qed.

(** The exponents of the candidates do not depend on the instance. *)
Lemma discrete_alphas_pure (d xmins : list float) (n_alpha : nat) (approximate : bool)
    (w w' : world) (r : exn + list float) :
  (if approximate then ret (map (fun xmin => discrete_alpha_mle d xmin) xmins)
   else
     plfit.mapM (fun '(xmin, ar) => lift (most_likely_alpha d xmin ar n_alpha))
       (combine xmins
          (map (fun a => (0.9 * a, 1.1 * a))
             (map (fun xmin => discrete_alpha_mle d xmin) xmins)))) w = (r, w') ->
  forall w0,
    (if approximate then ret (map (fun xmin => discrete_alpha_mle d xmin) xmins)
     else
       plfit.mapM (fun '(xmin, ar) => lift (most_likely_alpha d xmin ar n_alpha))
         (combine xmins
            (map (fun a => (0.9 * a, 1.1 * a))
               (map (fun xmin => discrete_alpha_mle d xmin) xmins)))) w0 = (r, w0).
Proof.
  destruct approximate.
  - unfold ret. intros H w0. injection H as <- _. reflexivity.
  - apply mapM_pure. intros [xmin ar] w1 r1 w1'.
    destruct (most_likely_alpha d xmin ar n_alpha); cbn; unfold raise, ret;
      intros H w0; injection H as <- _; reflexivity.
Qed.

(** The method [discrete_best_alpha] without the finite-size correction,
    run from the values it settles on. *)
Lemma discrete_method_run (n_alpha : nat) (approximate verbose : bool) (w : world)
    (alphas : list float) (i : nat) (a x k L : float) :
  let d := data (self w) in
  let xmins := Np.unique d in
  let raw :=
    map (fun '(xmin, alpha) => discrete_ksD d xmin alpha) (combine xmins alphas) in
  let ksvalues := map (fun k => if is_nan k then infinity else k) raw in
  let n := Np.count_nonzero (map (fun v => geb v x) d) in
  (forall w0,
      (if approximate then ret (map (fun xmin => discrete_alpha_mle d xmin) xmins)
       else
         plfit.mapM (fun '(xmin, ar) => lift (most_likely_alpha d xmin ar n_alpha))
           (combine xmins
              (map (fun a => (0.9 * a, 1.1 * a))
                 (map (fun xmin => discrete_alpha_mle d xmin) xmins)))) w0
      = (inr alphas, w0)) ->
  Np.argmin ksvalues = Some i ->
  nth_error alphas i = Some a ->
  nth_error xmins i = Some x ->
  nth_error ksvalues i = Some k ->
  discrete_likelihood d x a = inr L ->
  plfit.discrete_best_alpha n_alpha approximate verbose false w =
    (inr (a, x, k, L),
     mk_world
       ((if scipyOK then set_ks_prob (ksone_sf k n) else fun o => o)
          (set_alphaerr ((a - 1.0) / PrimFloat.sqrt (of_nat n))
             (set_ngtx n
                (set_likelihood L
                   (set_ks k
                      (set_xmin x
                         (set_alpha a
                            (set_xmin_kstest ksvalues
                               (set_xmin_kstest raw
                                  (set_alpha_values alphas
                                     (set_xmins xmins (self w))))))))))))
       (if verbose
        then stdout w
             ++ [DiscreteReport a x k L
                   (Np.count_nonzero (map (fun v => v <? x) d)) n]
        else stdout w)).
Proof.
  intros d xmins raw ksvalues n Hpure Hbest Ha Hx Hk HL.
  unfold plfit.discrete_best_alpha, plfit.get_data.
  unfold bind at 1. unfold bind at 1. cbn [setattr self stdout].
  fold d. fold xmins.
  rewrite (bind_step _ _ _ _ _ (Hpure _)).
  unfold bind at 1. cbn [setattr self stdout].
  unfold bind at 1. cbn [setattr self stdout].
  unfold bind at 1. cbn [setattr self stdout].
  fold raw. fold ksvalues.
  rewrite Hbest. cbn [or_raise]. rewrite (bind_step (ret i) _ _ _ i eq_refl).
  rewrite Ha. cbn [or_raise]. rewrite (bind_step (ret a) _ _ _ a eq_refl).
  unfold bind at 1. cbn [setattr self stdout].
  rewrite Hx. cbn [or_raise]. rewrite (bind_step (ret x) _ _ _ x eq_refl).
  unfold bind at 1. cbn [setattr self stdout].
  rewrite Hk. cbn [or_raise]. rewrite (bind_step (ret k) _ _ _ k eq_refl).
  unfold bind at 1. cbn [setattr self stdout].
  rewrite HL. cbn [lift]. rewrite (bind_step (ret L) _ _ _ L eq_refl).
  unfold n.
  lazy beta iota zeta delta
    [bind setattr getattr when print ret self stdout
     _xmin _alpha _ks set_likelihood set_ngtx set_alphaerr set_ks_prob
     set_ks set_xmin set_alpha set_xmin_kstest set_alpha_values set_xmins
     data _nunique _alpha_values _xmin_kstest _ks_prob_all _sigma _likelihood
     _xmins _alphaerr _ks_prob _ngtx].
  destruct scipyOK, verbose; reflexivity.
Qed.

(** What the method [discrete_best_alpha] went through and stored when it
    returns. *)
Lemma discrete_best_alpha_returns (n_alpha : nat) (approximate verbose finite : bool)
    (w w' : world) (a x k L : float) :
  plfit.discrete_best_alpha n_alpha approximate verbose finite w
    = (inr (a, x, k, L), w') ->
  exists alphas i,
    let d := data (self w) in
    let xmins := Np.unique d in
    let raw :=
      map (fun '(xmin, alpha) => discrete_ksD d xmin alpha) (combine xmins alphas) in
    let ksvalues := map (fun k => if is_nan k then infinity else k) raw in
    let n := Np.count_nonzero (map (fun v => geb v x) d) in
    finite = false
    /\ (forall w0,
          (if approximate then ret (map (fun xmin => discrete_alpha_mle d xmin) xmins)
           else
             plfit.mapM (fun '(xmin, ar) => lift (most_likely_alpha d xmin ar n_alpha))
               (combine xmins
                  (map (fun a => (0.9 * a, 1.1 * a))
                     (map (fun xmin => discrete_alpha_mle d xmin) xmins)))) w0
          = (inr alphas, w0))
    /\ Np.argmin ksvalues = Some i
    /\ nth_error alphas i = Some a
    /\ nth_error xmins i = Some x
    /\ nth_error ksvalues i = Some k
    /\ discrete_likelihood d x a = inr L
    /\ self w' =
         (if scipyOK then set_ks_prob (ksone_sf k n) else fun o => o)
           (set_alphaerr ((a - 1.0) / PrimFloat.sqrt (of_nat n))
              (set_ngtx n
                 (set_likelihood L
                    (set_ks k
                       (set_xmin x
                          (set_alpha a
                             (set_xmin_kstest ksvalues
                                (set_xmin_kstest raw
                                   (set_alpha_values alphas
                                      (set_xmins xmins (self w)))))))))))
    /\ stdout w' =
         if verbose
         then stdout w
              ++ [DiscreteReport a x k L
                    (Np.count_nonzero (map (fun v => v <? x) d)) n]
         else stdout w.
Proof.
  intros H. pose proof H as Hrun.
  unfold plfit.discrete_best_alpha in H.
  apply bind_inr in H as (d & w0 & Hd & H).
  unfold plfit.get_data in Hd. injection Hd as <- <-.
  mskip H.
  apply bind_inr in H as (alphas & w2 & Halphas & H).
  pose proof (discrete_alphas_pure _ _ _ _ _ _ _ Halphas) as Hpure.
  do 3 mskip H.
  apply bind_inr in H as (i & w6 & Hbest & H).
  apply or_raise_inr in Hbest as [Hbest _].
  apply bind_inr in H as (a' & w7 & Ha & H).
  apply or_raise_inr in Ha as [Ha _].
  mskip H.
  apply bind_inr in H as (x' & w9 & Hx & H).
  apply or_raise_inr in Hx as [Hx _].
  mskip H.
  apply bind_inr in H as (k' & w11 & Hk & H).
  apply or_raise_inr in Hk as [Hk _].
  mskip H.
  apply bind_inr in H as (L' & w13 & HL & H).
  apply lift_inr in HL as [HL _].
  mskip H.
  apply bind_inr in H as (u8 & w15 & Hfin & H).
  assert (Hfinite : finite = false).
  { destruct finite; [|reflexivity].
    apply bind_inr in Hfin as (? & ? & _ & Hfin).
    apply bind_inr in Hfin as (? & ? & Hn & _).
    unfold local, or_raise, raise in Hn. discriminate. }
  do 6 mskip H.
  unfold ret in H. injection H as -> -> -> -> _.
  clear Hfin. subst finite.
  rewrite (discrete_method_run n_alpha approximate verbose w alphas i a x k L
             Hpure Hbest Ha Hx Hk HL) in Hrun.
  injection Hrun as <-.
  exists alphas, i. cbv zeta. cbn [self stdout].
  split; [reflexivity|]. do 6 (split; [assumption|]). split; reflexivity.
Qed.

End DiscreteRun.

(** *** A call that returns *)

Section Calls.
Context {P : Platform}.

(** The three ways through [plfit.plfit] that return: the fit at a given
    xmin, the continuous search, the discrete fitter. *)
Lemma plfit_returns (kw : kwargs) (w w' : world) (xmin alpha : float) :
  plfit.plfit kw w = (inr (xmin, alpha), w') ->
  exists w1,
    self w1 = set_nunique (length (Np.unique (Np.sort (data (self w))))) (self w)
    /\ ((exists t, kw_xmin kw = Some t
           /\ plfit.fit_at kw (Np.sort (data (self w)))
                (Np.unique (Np.sort (data (self w)))) t w1 = (inr (xmin, alpha), w'))
        \/ (continuous_search kw (data (self w))
            /\ plfit.continuous_fit kw (Np.sort (data (self w)))
                 (Np.unique (Np.sort (data (self w))))
                 (snd (Np.unique_index (Np.sort (data (self w))))) w1
               = (inr (xmin, alpha), w'))
        \/ (kw_xmin kw = None
            /\ (kw_discrete kw = Some true
                \/ (kw_discrete kw = None
                    /\ (length (Np.unique (Np.sort (data (self w))))
                        < length (data (self w)))%nat))
            /\ exists r,
                 plfit.discrete_best_alpha (kw_discrete_n_alpha kw) (kw_discrete_approx kw)
                   (kw_verbose kw) (kw_finite kw) w1 = (inr r, w')
                 /\ _xmin (self w') = Some xmin /\ _alpha (self w') = Some alpha)).
Proof.
  unfold plfit.plfit. intros H.
  apply bind_inr in H as (x & w0 & Hx & H).
  unfold plfit.get_data in Hx. injection Hx as <- <-.
  destruct (existsb _ _); [discriminate|].
  unfold plfit.fit_checked in H.
  pose proof (unique_length (Np.sort (data (self w)))) as Hlen.
  rewrite (Permutation_length (sort_perm _)) in Hlen.
  unfold continuous_search. unfold Np.unique in *.
  destruct (Np.unique_index (Np.sort (data (self w)))) as [xmins argxmins].
  cbn [fst snd] in *.
  apply bind_inr in H as (u & w1 & Hset & H).
  apply setattr_inr in Hset. subst w1.
  apply bind_inr in H as (d & w2 & Hd & H).
  pose proof (classify_keeps_self _ _ _ _ _ _ Hd) as Hself. cbn [self] in Hself.
  exists w2. split; [exact Hself|].
  destruct (kw_xmin kw) as [t|]; [left; eauto|].
  right. unfold plfit.classify in Hd.
  assert (Hdisc : forall w3,
             bind (plfit.discrete_best_alpha (kw_discrete_n_alpha kw)
                     (kw_discrete_approx kw) (kw_verbose kw) (kw_finite kw))
               (fun _ => bind (getattr "_xmin" _xmin)
                           (fun xmin_ => bind (getattr "_alpha" _alpha)
                                           (fun alpha_ => ret (xmin_, alpha_)))) w3
             = (inr (xmin, alpha), w') ->
             exists r,
               plfit.discrete_best_alpha (kw_discrete_n_alpha kw) (kw_discrete_approx kw)
                 (kw_verbose kw) (kw_finite kw) w3 = (inr r, w')
               /\ _xmin (self w') = Some xmin /\ _alpha (self w') = Some alpha).
  { intros w3 Hr.
    apply bind_inr in Hr as (r & w4 & Hr & Hg).
    apply bind_inr in Hg as (xm & w5 & Hxm & Hg).
    apply getattr_inr in Hxm as [Hxm ->].
    apply bind_inr in Hg as (al & w6 & Hal & Hg).
    apply getattr_inr in Hal as [Hal ->].
    unfold ret in Hg. injection Hg as <- <- <-. eauto. }
  destruct (kw_discrete kw) as [[|]|].
  - unfold ret in Hd. injection Hd as <- <-. right. split; [reflexivity|]. split; [auto|].
    apply Hdisc. exact H.
  - unfold ret in Hd. injection Hd as <- <-. left. auto.
  - destruct (length xmins =? length (data (self w)))%nat eqn:Heq.
    + apply Nat.eqb_eq in Heq.
      apply bind_inr in Hd as (? & w3 & Hp & Hd). apply when_print_self in Hp.
      unfold ret in Hd. injection Hd as <- <-. left. auto.
    + apply Nat.eqb_neq in Heq.
      replace (length xmins <? length (data (self w)))%nat with true in Hd
        by (symmetry; apply Nat.ltb_lt; lia).
      apply bind_inr in Hd as (? & w3 & Hp & Hd). apply when_print_self in Hp.
      unfold ret in Hd. injection Hd as <- <-. right. split; [reflexivity|].
      split; [right; split; [reflexivity | lia]|].
      apply Hdisc. exact H.
Qed.

Lemma continuous_fit_returns (kw : kwargs) (z xmins : list float) (argxmins : list nat)
    (w w' : world) (r : float * float) :
  plfit.continuous_fit kw z xmins argxmins w = (inr r, w') ->
  exists s w1 w2,
    plfit.search kw z xmins argxmins w = (inr s, w1)
    /\ plfit.fit_at kw z xmins (plfit.sel_xmin s) w2 = (inr r, w').
Proof.
  unfold plfit.continuous_fit. intros H.
  apply bind_inr in H as (s & w1 & Hs & H).
  apply bind_inr in H as (u & w2 & _ & H). eauto.
Qed.

Lemma fit_at_empty (kw : kwargs) (z xmins : list float) (xmin : float) (w : world) :
  length (filter (fun v => geb v xmin) z) = 0%nat ->
  exists w',
    plfit.fit_at kw z xmins xmin w =
      (inl (if kw_finite kw then ZeroDivisionError
            else ValueError
                   "zero-size array to reduction operation maximum which has no identity"),
       w')
    /\ self w' = self w.
Proof.
  intros Hn. unfold plfit.fit_at. rewrite mask_select_filter. cbv zeta.
  rewrite Hn. destruct (kw_finite kw).
  - exists w. split; reflexivity.
  - destruct (kw_silent kw); cbn; eexists; split; reflexivity.
Qed.

(** The KS distance a fit at a threshold stores. *)
Lemma fit_at_returns_ks (kw : kwargs) (z xmins : list float) (xmin : float)
    (w w' : world) (r : float * float) :
  plfit.fit_at kw z xmins xmin w = (inr r, w') ->
  exists ks, _ks (self w') = Some ks /\ (is_nan ks = true \/ (0 <=? ks) = true).
Proof.
  destruct (length (filter (fun v => geb v xmin) z)) as [|n'] eqn:Hn.
  - destruct (fit_at_empty kw z xmins xmin w Hn) as (w1 & -> & _). discriminate.
  - assert (H1 : (1 <= length (filter (fun v => geb v xmin) z))%nat) by lia.
    rewrite (fit_at_run kw z xmins xmin w H1).
    destruct (_ =? 1)%nat.
    + intros H. injection H as _ <-. exists 0. split; [reflexivity|].
      right. reflexivity.
    + match goal with
      | |- context [if ?c then (inl _, _) else _] => destruct c
      end; [discriminate|].
      intros H. injection H as _ <-. cbn [self].
      eexists. split; [destruct scipyOK; reflexivity|].
      apply max_abs_not_negative.
Qed.

End Calls.

(* ================================================================== *)
(** ** The claims, continued *)

(** *** The ways through [plfit.plfit] *)

Section Paths.
Context {P : Platform}.

(** Where a call goes once the data has passed its validation: to the
    fit at the caller's xmin, to the discrete fitter, or to the
    continuous fitter with its search.  Up to there [_nunique] has been
    bound and at most the choice of the fitter printed. *)
Lemma plfit_paths (kw : kwargs) (w : world) :
  existsb (fun v => v <? 0) (data (self w)) = false ->
  exists w1,
    self w1 = set_nunique (length (Np.unique (Np.sort (data (self w))))) (self w)
    /\ (exists pre, stdout w1 = stdout w ++ pre
          /\ forall m, In m pre -> m = UsingContinuous \/ m = UsingDiscrete)
    /\ plfit.plfit kw w =
       match kw_xmin kw with
       | Some t =>
           plfit.fit_at kw (Np.sort (data (self w)))
             (Np.unique (Np.sort (data (self w)))) t w1
       | None =>
           if discrete_chosen kw (data (self w)) then
             (plfit.discrete_best_alpha (kw_discrete_n_alpha kw) (kw_discrete_approx kw)
                (kw_verbose kw) (kw_finite kw) ;;
              xmin_ <- getattr "_xmin" _xmin ;;
              alpha_ <- getattr "_alpha" _alpha ;;
              ret (xmin_, alpha_)) w1
           else
             plfit.continuous_fit kw (Np.sort (data (self w)))
               (Np.unique (Np.sort (data (self w))))
               (snd (Np.unique_index (Np.sort (data (self w))))) w1
       end.
Proof.
  intros Hneg. unfold plfit.plfit, plfit.get_data. unfold bind at 1.
  rewrite Hneg. unfold plfit.fit_checked, discrete_chosen.
  pose proof (unique_length (Np.sort (data (self w)))) as Hlen.
  rewrite (Permutation_length (sort_perm _)) in Hlen.
  unfold Np.unique in *.
  destruct (Np.unique_index (Np.sort (data (self w)))) as [xmins argxmins].
  cbn [fst snd] in *.
  unfold bind at 1. cbn [setattr self stdout].
  unfold plfit.classify.
  assert (Hpre : forall l, (forall m, In m l -> m = UsingContinuous \/ m = UsingDiscrete) ->
            exists pre, stdout w ++ l = stdout w ++ pre
              /\ forall m, In m pre -> m = UsingContinuous \/ m = UsingDiscrete)
    by (intros l Hl; exists l; auto).
  assert (Hnil : exists pre, stdout w = stdout w ++ pre
              /\ forall m, In m pre -> m = UsingContinuous \/ m = UsingDiscrete)
    by (exists []; rewrite app_nil_r; split; [reflexivity | intros m []]).
  destruct (kw_discrete kw) as [[|]|].
  - unfold bind at 1. cbn [ret].
    eexists. split; [|split; [|destruct (kw_xmin kw); reflexivity]];
      [reflexivity | exact Hnil].
  - unfold bind at 1. cbn [ret].
    eexists. split; [|split; [|destruct (kw_xmin kw); reflexivity]];
      [reflexivity | exact Hnil].
  - destruct (length xmins =? length (data (self w)))%nat eqn:Heq.
    + apply Nat.eqb_eq in Heq.
      replace (length xmins <? length (data (self w)))%nat with false
        by (symmetry; apply Nat.ltb_ge; lia).
      destruct (kw_verbose kw); unfold bind at 1; cbn [when print ret bind self stdout];
        (eexists; split; [|split; [|destruct (kw_xmin kw); reflexivity]];
         [reflexivity|]); cbn [stdout].
      * apply Hpre. intros m [<- | []]. left. reflexivity.
      * exact Hnil.
    + apply Nat.eqb_neq in Heq.
      replace (length xmins <? length (data (self w)))%nat with true
        by (symmetry; apply Nat.ltb_lt; lia).
      destruct (kw_verbose kw); unfold bind at 1; cbn [when print ret bind self stdout];
        (eexists; split; [|split; [|destruct (kw_xmin kw); reflexivity]];
         [reflexivity|]); cbn [stdout].
      * apply Hpre. intros m [<- | []]. right. reflexivity.
      * exact Hnil.
Qed.

End Paths.

(** *** The degenerate fit *)

Section Degenerate.
Context {P : Platform}.






End Degenerate.



(** *** The reported error *)

Section ReportedError.
Context {P : Platform}.

(** C9, as the code has it.  For every fit that returns, [alpha] is the
    reported exponent, [n], the number of sample points at or above the
    reported [xmin], is the reported count, and [alpha_error] is exactly
    [(alpha - 1) / sqrt(n)], with one exception: the continuous fit with
    [n = 1], whose zeroed-out result reports [alpha = 0] and
    [alpha_error = 0].  A discrete fit follows the formula for every
    [n], 1 included. *)
Theorem alpha_error_formula (kw : kwargs) (w w' : world) (xmin alpha : float) :
  plfit.plfit kw w = (inr (xmin, alpha), w') ->
  let n := Np.count_nonzero (map (fun v => geb v xmin) (data (self w))) in
  _xmin (self w') = Some xmin
  /\ _alpha (self w') = Some alpha
  /\ _ngtx (self w') = Some n
  /\ (n <> 1%nat ->
      _alphaerr (self w') = Some ((alpha - 1) / PrimFloat.sqrt (of_nat n)))
  /\ (n = 1%nat ->
      if discrete_chosen kw (data (self w))
      then _alphaerr (self w') = Some ((alpha - 1) / PrimFloat.sqrt (of_nat n))
      else alpha = 0 /\ _alphaerr (self w') = Some 0).
Proof.
  intros Hrun n.
  assert (Hneg : existsb (fun v => v <? 0) (data (self w)) = false).
  { unfold plfit.plfit, plfit.get_data in Hrun. unfold bind at 1 in Hrun.
    destruct (existsb _ _); [discriminate | reflexivity]. }
  destruct (plfit_paths kw w Hneg) as (w1 & Hself & _ & Hpath).
  rewrite Hrun in Hpath. symmetry in Hpath.
  assert (Hdata : data (self w1) = data (self w)) by (rewrite Hself; reflexivity).
  assert (Hfit : forall w3 t,
             plfit.fit_at kw (Np.sort (data (self w)))
               (Np.unique (Np.sort (data (self w)))) t w3 = (inr (xmin, alpha), w') ->
             _xmin (self w') = Some xmin
             /\ _alpha (self w') = Some alpha
             /\ _ngtx (self w') = Some n
             /\ (n <> 1%nat ->
                 _alphaerr (self w') = Some ((alpha - 1) / PrimFloat.sqrt (of_nat n)))
             /\ (n = 1%nat -> alpha = 0 /\ _alphaerr (self w') = Some 0)).
  { intros w3 t Hf. apply fit_at_inr in Hf as (-> & Hal & Hxm & Hn & Herr).
    rewrite count_sorted in Hn, Herr. fold n in Hn, Herr.
    do 3 (split; [assumption|]). split.
    - intros Hne. apply Nat.eqb_neq in Hne. rewrite Hne in Herr. apply Herr.
    - intros He. rewrite He in Herr. exact Herr. }
  destruct (kw_xmin kw) as [t|] eqn:Hx.
  { replace (discrete_chosen kw (data (self w))) with false
      by (unfold discrete_chosen; rewrite Hx; reflexivity).
    destruct (Hfit _ _ Hpath) as (H1 & H2 & H3 & H4 & H5). auto 6. }
  destruct (discrete_chosen kw (data (self w))).
  - apply bind_inr in Hpath as (r & w3 & Hdisc & H).
    apply discrete_best_alpha_inr in Hdisc as (xm & al & Hxm & Hal & Hn & Herr).
    apply bind_inr in H as (xm' & w4 & Hxm' & H).
    apply getattr_inr in Hxm' as [Hxm' ->].
    apply bind_inr in H as (al' & w5 & Hal' & H).
    apply getattr_inr in Hal' as [Hal' ->].
    unfold ret in H. injection H as <- <- <-.
    rewrite Hxm in Hxm'. injection Hxm' as ->.
    rewrite Hal in Hal'. injection Hal' as ->.
    rewrite Hdata in Hn, Herr. fold n in Hn, Herr.
    do 3 (split; [assumption|]). split; intros _; exact Herr.
  - apply continuous_fit_returns in Hpath as (s & w2 & w3 & _ & Hf).
    destruct (Hfit _ _ Hf) as (H1 & H2 & H3 & H4 & H5). auto 6.
Qed.

End ReportedError.

(** Witness of C9: the fit of [1, 10, 1e7, 2e7, 3e7] keeps its five
    points. *)
Lemma alpha_error_formula_witness :
  exists xmin alpha w',
    Ref.run Ref.sample_spread defaults = (inr (xmin, alpha), w')
    /\ _ngtx (self w') = Some 5%nat
    /\ _alphaerr (self w') = Some ((alpha - 1) / PrimFloat.sqrt 5).
Proof.
  do 3 eexists. split; [vm_compute; reflexivity|].
  pose proof (alpha_error_formula (P := Ref.platform) defaults
                (mk_world (set_data Ref.sample_spread new_obj) []) _ _ _
                ltac:(vm_compute; reflexivity)) as (_ & _ & Hn & Herr & _).
  split; [exact Hn|]. apply Herr. vm_compute. discriminate.
Defined.

(** C9 as the specification words it fails on [1, nan], fitted with the
    consistency check skipped: the search selects the threshold 1, the
    fit returns with [alpha = 0] and one point, for which
    [(alpha - 1) / sqrt(n)] is -1, and reports [alpha_error = 0]. *)
Lemma alpha_error_formula_counterexample :
  exists xmin alpha w',
    Ref.run Ref.sample_nan (with_skip_consistency_check true defaults)
    = (inr (xmin, alpha), w')
    /\ Np.count_nonzero (map (fun v => geb v xmin) Ref.sample_nan) = 1%nat
    /\ _alphaerr (self w') = Some 0
    /\ (alpha - 1) / PrimFloat.sqrt (of_nat 1) = -1
    /\ _alphaerr (self w') <> Some ((alpha - 1) / PrimFloat.sqrt (of_nat 1)).
Proof.
  do 3 eexists. split; [vm_compute; reflexivity|].
  repeat split; try (vm_compute; reflexivity).
  intros H.
  apply (f_equal (fun o => match o with Some v => v <? 0 | None => false end)) in H.
  vm_compute in H. discriminate.
Qed.

(* ================================================================== *)
(** ** Further properties

    What follows goes beyond the claims: the continuous search on the
    numpy backend, what a call returns and stores, what it leaves alone
    and prints, the discrete fitter and its module-level twin, and the
    piecewise distribution. *)

(** *** Further properties: the continuous search *)

Section ContinuousSearch.
Context {P : Platform}.

(** X1.  A sample with fewer than two distinct values cannot be fitted by
    the continuous search: the call ends in the [ValueError] of [argmin]
    on an empty range.  The constructor on a single observation, with the
    defaults, is the common case. *)
Theorem too_few_distinct_values (kw : kwargs) (w : world) :
  python_only kw ->
  existsb (fun v => v <? 0) (data (self w)) = false ->
  continuous_search kw (data (self w)) ->
  (length (Np.unique (Np.sort (data (self w)))) <= 1)%nat ->
  exists w', plfit.plfit kw w = (inl plfit.empty_argmin, w').
Proof.
  intros Hpy Hneg Hcont Hlen.
  destruct (plfit_continuous_search kw w Hneg Hcont) as (w0 & _ & ->).
  unfold plfit.continuous_fit.
  destruct (search_python_too_few kw (Np.sort (data (self w)))
              (Np.unique (Np.sort (data (self w))))
              (snd (Np.unique_index (Np.sort (data (self w))))) w0 Hpy
              (unique_index_lengths _) Hlen) as (w' & Hs).
  exists w'. apply bind_raise. exact Hs.
Qed.

(** X2.  On the numpy backend, with two candidate thresholds or more, the
    xmin search raises nothing, its sweeps are [kstest_gen] and
    [alpha_gen] over the candidates, and the candidate it selects is
    never the last one. *)
Theorem search_stops_before_the_last (kw : kwargs) (z xmins : list float)
    (argxmins : list nat) (w : world) :
  python_only kw -> length argxmins = length xmins -> (2 <= length xmins)%nat ->
  exists s w',
    plfit.search kw z xmins argxmins w = (inr s, w')
    /\ plfit.sel_kstest_values s = map (kstest_gen z false false) xmins
    /\ plfit.sel_alpha_values s = map (alpha_gen z) xmins
    /\ (S (plfit.sel_best_ks_index s) < length xmins)%nat
    /\ nth_error xmins (plfit.sel_best_ks_index s) = Some (plfit.sel_xmin s).
Proof.
  intros Hpy Harg Hlen.
  destruct (search_python_returns kw z xmins argxmins w Hpy Harg Hlen) as (s & w' & Hs & Hi).
  exists s, w'. split; [exact Hs|].
  destruct (search_python_values _ _ _ _ _ _ _ Hpy Hs) as [Hks Hal].
  destruct (search_inr _ _ _ _ _ _ _ Hs) as (_ & _ & _ & Hxm).
  auto.
Qed.

(** X3.  On the numpy backend the consistency check cannot fail once the
    selected threshold has two points or more at or above it: the alpha
    it recomputes is the selector's own, and the fit goes on. *)
Theorem numpy_backend_passes_the_check (kw : kwargs) (z xmins : list float)
    (argxmins : list nat) (w w1 : world) (s : plfit.selection) :
  tolerance_positive -> python_only kw ->
  plfit.search kw z xmins argxmins w = (inr s, w1) ->
  (2 <= Np.count_nonzero (map (fun v => geb v (plfit.sel_xmin s)) z))%nat ->
  nth_error (plfit.sel_alpha_values s) (plfit.sel_best_ks_index s)
    = Some (plfit.direct_alpha z (plfit.sel_xmin s))
  /\ plfit.continuous_fit kw z xmins argxmins w
     = plfit.fit_at kw z xmins (plfit.sel_xmin s) w1.
Proof.
  intros Htol Hpy Hs Hn. rewrite count_nonzero_filter in Hn. split.
  - destruct (search_python_values _ _ _ _ _ _ _ Hpy Hs) as [_ ->].
    destruct (search_inr _ _ _ _ _ _ _ Hs) as (_ & _ & _ & Hxm).
    rewrite (map_nth_error _ _ _ Hxm), (alpha_gen_direct _ _ Hn). reflexivity.
  - unfold plfit.continuous_fit.
    rewrite (bind_step _ _ _ _ _ Hs).
    rewrite (bind_step _ _ _ _ _
               (consistency_check_python kw z xmins argxmins w w1 s Htol Hpy Hs Hn w1)).
    reflexivity.
Qed.

(** X4.  On a sample without NaN, fitted by the continuous search on the
    numpy backend, no call ends in [AssertionError], and a call that
    returns has kept at least two points at or above the threshold, so
    the result is never the zeroed-out one of the single-point case. *)
Theorem fit_of_numbers_keeps_two_points (kw : kwargs) (w : world) :
  tolerance_positive -> python_only kw ->
  continuous_search kw (data (self w)) ->
  forallb (fun v => negb (is_nan v)) (data (self w)) = true ->
  (forall a b w', plfit.plfit kw w <> (inl (AssertionError a b), w'))
  /\ (forall xmin alpha w',
        plfit.plfit kw w = (inr (xmin, alpha), w') ->
        exists n, _ngtx (self w') = Some n /\ (2 <= n)%nat
                  /\ n = Np.count_nonzero (map (fun v => geb v xmin) (data (self w)))).
Proof.
  intros Htol Hpy Hcont Hnum.
  destruct (existsb (fun v => v <? 0) (data (self w))) eqn:Hneg.
  { unfold plfit.plfit, plfit.get_data. unfold bind at 1. unfold bind at 1.
    rewrite Hneg. split; intros; discriminate. }
  destruct (plfit_continuous_search kw w Hneg Hcont) as (w0 & _ & ->).
  set (z := Np.sort (data (self w))).
  set (xmins := Np.unique z).
  set (argxmins := snd (Np.unique_index z)).
  assert (Harg : length argxmins = length xmins) by apply unique_index_lengths.
  destruct (Nat.le_gt_cases (length xmins) 1) as [Hlen | Hlen].
  { destruct (search_python_too_few kw z xmins argxmins w0 Hpy Harg Hlen) as (w1 & Hs).
    unfold plfit.continuous_fit. rewrite (bind_raise _ _ _ _ _ Hs).
    split; intros; discriminate. }
  destruct (search_python_returns kw z xmins argxmins w0 Hpy Harg Hlen)
    as (s & w1 & Hs & Hi).
  destruct (search_inr _ _ _ _ _ _ _ Hs) as (_ & _ & _ & Hxm).
  pose proof (candidate_has_two_points _ _ _ Hnum Hi Hxm) as Hn.
  change (2 <= length (filter (fun v => geb v (plfit.sel_xmin s)) z))%nat in Hn.
  unfold plfit.continuous_fit.
  rewrite (bind_step _ _ _ _ _ Hs).
  rewrite (bind_step _ _ _ _ _
             (consistency_check_python kw z xmins argxmins w0 w1 s Htol Hpy Hs Hn w1)).
  assert (H1 : (1 <= length (filter (fun v => geb v (plfit.sel_xmin s)) z))%nat) by lia.
  rewrite (fit_at_run kw z xmins (plfit.sel_xmin s) w1 H1).
  replace (length (filter (fun v => geb v (plfit.sel_xmin s)) z) =? 1)%nat with false
    by (symmetry; apply Nat.eqb_neq; lia).
  match goal with
  | |- context [if ?c then (inl _, _) else _] => destruct c
  end.
  - split; intros; discriminate.
  - split; [intros; discriminate|].
    intros xmin alpha w' H. injection H as <- _ <-. cbn [self].
    eexists. split; [reflexivity|]. split; [exact Hn|].
    unfold z. apply count_sorted.
Qed.

(** X5.  How the fit at a settled threshold can fail.  With no point of
    the sample at or above the threshold it always does: the finite-size
    correction divides by zero, and without it the KS distance is the
    maximum of an empty array; nothing has been assigned by then.  With
    one point or more the only failure left is the [ValueError] of a NaN
    result. *)
Theorem fit_at_failures (kw : kwargs) (z xmins : list float) (xmin : float) (w : world) :
  let n := length (filter (fun v => geb v xmin) z) in
  (n = 0%nat ->
   exists w',
     plfit.fit_at kw z xmins xmin w =
       (inl (if kw_finite kw then ZeroDivisionError
             else ValueError
                    "zero-size array to reduction operation maximum which has no identity"),
        w')
     /\ self w' = self w)
  /\ ((1 <= n)%nat ->
      forall e w', plfit.fit_at kw z xmins xmin w = (inl e, w') ->
        e = ValueError "plfit failed; returned a nan").
Proof.
  intros n. split.
  - intros Hn. unfold plfit.fit_at. rewrite mask_select_filter. cbv zeta.
    fold n. rewrite Hn. destruct (kw_finite kw).
    + exists w. split; reflexivity.
    + destruct (kw_silent kw); cbn; eexists; split; reflexivity.
  - intros Hn e w'. rewrite (fit_at_run kw z xmins xmin w Hn). fold n.
    destruct (n =? 1)%nat; [discriminate|].
    match goal with
    | |- context [if ?c then (inl _, _) else _] => destruct c
    end; [|discriminate].
    intros H. injection H as <- _. reflexivity.
Qed.

End ContinuousSearch.

(** Witness of X1: the constructor's call on the single observation 5. *)
Lemma too_few_distinct_values_witness :
  exists w',
    plfit.plfit (P := Ref.platform) defaults (Ref.holding [5])
    = (inl plfit.empty_argmin, w').
Proof.
  apply (too_few_distinct_values (P := Ref.platform) defaults (Ref.holding [5])).
  - split; reflexivity.
  - vm_compute. reflexivity.
  - split; [reflexivity|]. right. split; [reflexivity | vm_compute; reflexivity].
  - vm_compute. apply le_n.
Defined.

(** Witness of X2: the search on [1, 10, 1e7, 2e7, 3e7], five candidates. *)
Lemma search_stops_before_the_last_witness :
  exists s w',
    plfit.search (P := Ref.platform) defaults Ref.sample_spread Ref.sample_spread
      [0; 1; 2; 3; 4]%nat (Ref.holding Ref.sample_spread) = (inr s, w')
    /\ plfit.sel_kstest_values s
       = map (kstest_gen (P := Ref.platform) Ref.sample_spread false false) Ref.sample_spread
    /\ plfit.sel_alpha_values s = map (alpha_gen (P := Ref.platform) Ref.sample_spread) Ref.sample_spread
    /\ (S (plfit.sel_best_ks_index s) < length Ref.sample_spread)%nat
    /\ nth_error Ref.sample_spread (plfit.sel_best_ks_index s) = Some (plfit.sel_xmin s).
Proof.
  apply (search_stops_before_the_last (P := Ref.platform)).
  - split; reflexivity.
  - reflexivity.
  - vm_compute. lia.
Defined.

(** Witness of X3: on [1, 10, 1e7, 2e7, 3e7] the search selects the
    candidate 1, which has the five points at or above it. *)
Lemma numpy_backend_passes_the_check_witness :
  exists s w1,
    plfit.search (P := Ref.platform) defaults Ref.sample_spread Ref.sample_spread
      [0; 1; 2; 3; 4]%nat (Ref.holding Ref.sample_spread) = (inr s, w1)
    /\ plfit.continuous_fit (P := Ref.platform) defaults Ref.sample_spread
         Ref.sample_spread [0; 1; 2; 3; 4]%nat (Ref.holding Ref.sample_spread)
       = plfit.fit_at (P := Ref.platform) defaults Ref.sample_spread Ref.sample_spread
           (plfit.sel_xmin s) w1.
Proof.
  eexists. eexists. split; [vm_compute; reflexivity|].
  refine (proj2 (numpy_backend_passes_the_check (P := Ref.platform) defaults
                   Ref.sample_spread Ref.sample_spread [0; 1; 2; 3; 4]%nat
                   (Ref.holding Ref.sample_spread) _ _ _ _ _ _)).
  - vm_compute. reflexivity.
  - split; reflexivity.
  - vm_compute. reflexivity.
  - vm_compute. lia.
Defined.

(** Witness of X4: the fit of [1, 10, 1e7, 2e7, 3e7] with the defaults. *)
Lemma fit_of_numbers_keeps_two_points_witness :
  (forall a b w',
      plfit.plfit (P := Ref.platform) defaults (Ref.holding Ref.sample_spread)
      <> (inl (AssertionError a b), w'))
  /\ (forall xmin alpha w',
        plfit.plfit (P := Ref.platform) defaults (Ref.holding Ref.sample_spread)
        = (inr (xmin, alpha), w') ->
        exists n, _ngtx (self w') = Some n /\ (2 <= n)%nat
                  /\ n = Np.count_nonzero (map (fun v => geb v xmin) Ref.sample_spread)).
Proof.
  apply (fit_of_numbers_keeps_two_points (P := Ref.platform) defaults
           (Ref.holding Ref.sample_spread)).
  - vm_compute. reflexivity.
  - split; reflexivity.
  - split; [reflexivity|]. right. split; [reflexivity | vm_compute; reflexivity].
  - vm_compute. reflexivity.
Defined.

(** *** Further properties: what a call returns *)

Section Returned.
Context {P : Platform}.

(** X6.  A NaN reaches the caller only through the discrete fitter: when
    a call returns a NaN threshold or a NaN exponent, no [xmin] was given
    and the fit was discrete, by request or because values of the sample
    repeat. *)
Theorem nan_comes_from_the_discrete_fitter (kw : kwargs) (w w' : world)
    (xmin alpha : float) :
  plfit.plfit kw w = (inr (xmin, alpha), w') ->
  is_nan xmin || is_nan alpha = true ->
  kw_xmin kw = None
  /\ (kw_discrete kw = Some true
      \/ (kw_discrete kw = None
          /\ (length (Np.unique (Np.sort (data (self w)))) < length (data (self w)))%nat)).
Proof.
  intros H Hnan.
  destruct (plfit_returns kw w w' xmin alpha H)
    as (w1 & _ & [(t & _ & Hfit) | [(_ & Hcont) | (Hx & Hd & _)]]).
  - apply fit_at_returns_no_nan in Hfit as [H1 H2].
    rewrite H1, H2 in Hnan. discriminate.
  - apply continuous_fit_returns in Hcont as (s & w2 & w3 & _ & Hfit).
    apply fit_at_returns_no_nan in Hfit as [H1 H2].
    rewrite H1, H2 in Hnan. discriminate.
  - auto.
Qed.

(** X7.  A KS distance is never negative: what [kstest_gen] and
    [discrete_ksD] return is NaN or at least 0, and so is the distance a
    fit that returns has stored. *)
Theorem ks_distance_is_not_negative :
  (forall (x : list float) (unique finite : bool) (xmin : float),
      let d := kstest_gen x unique finite xmin in
      is_nan d = true \/ (0 <=? d) = true)
  /\ (forall (data : list float) (xmin alpha : float),
        let d := discrete_ksD data xmin alpha in
        is_nan d = true \/ (0 <=? d) = true)
  /\ (forall (kw : kwargs) (w w' : world) (xmin alpha : float),
        plfit.plfit kw w = (inr (xmin, alpha), w') ->
        exists ks, _ks (self w') = Some ks /\ (is_nan ks = true \/ (0 <=? ks) = true)).
Proof.
  assert (Hdisc : forall (data : list float) (xmin alpha : float),
             is_nan (discrete_ksD data xmin alpha) = true
             \/ (0 <=? discrete_ksD data xmin alpha) = true).
  { intros data xmin alpha. unfold discrete_ksD. cbv zeta.
    destruct (_ <? 2); [right; reflexivity|].
    apply (max_abs_not_negative (Np.zip_with PrimFloat.sub _ _)). }
  split; [|split].
  - intros x unique finite xmin. unfold kstest_gen. cbv zeta.
    destruct (_ =? 0)%nat; [right; reflexivity|].
    apply (max_abs_not_negative (Np.zip_with PrimFloat.sub _ _)).
  - exact Hdisc.
  - intros kw w w' xmin alpha H.
    destruct (plfit_returns kw w w' xmin alpha H)
      as (w1 & _ & [(t & _ & Hfit) | [(_ & Hcont) | (_ & _ & [[[a x] k] L] & Hrun & _)]]).
    + eapply fit_at_returns_ks; eauto.
    + apply continuous_fit_returns in Hcont as (s & w2 & w3 & _ & Hfit).
      eapply fit_at_returns_ks; eauto.
    + apply discrete_best_alpha_returns in Hrun
        as (alphas & i & _ & _ & _ & _ & _ & Hk & _ & Hself & _).
      exists k. split; [rewrite Hself; destruct scipyOK; reflexivity|].
      apply nth_error_In, in_map_iff in Hk as (raw & <- & Hraw).
      apply in_map_iff in Hraw as ([xm al] & <- & _).
      destruct (is_nan (discrete_ksD (data (self w1)) xm al)) eqn:Hn.
      * right. reflexivity.
      * destruct (Hdisc (data (self w1)) xm al) as [Hc | Hc]; [congruence | auto].
Qed.

(** X8.  The threshold a call returns is the one it was given, and
    otherwise a value of the sample. *)
Theorem returned_xmin_is_given_or_sampled (kw : kwargs) (w w' : world)
    (xmin alpha : float) :
  plfit.plfit kw w = (inr (xmin, alpha), w') ->
  match kw_xmin kw with
  | Some t => xmin = t
  | None => In xmin (data (self w))
  end.
Proof.
  intros H.
  assert (Hin : forall v, In v (Np.unique (Np.sort (data (self w)))) ->
                          In v (data (self w))).
  { intros v Hv. apply unique_incl in Hv.
    eapply Permutation_in; [apply sort_perm | exact Hv]. }
  destruct (plfit_returns kw w w' xmin alpha H)
    as (w1 & Hw1 & [(t & Ht & Hfit) | [([Hx _] & Hcont) | (Hx & _ & [[[a x] k] L] & Hrun & Hxm & _)]]).
  - rewrite Ht. apply fit_at_inr in Hfit as [-> _]. reflexivity.
  - rewrite Hx.
    apply continuous_fit_returns in Hcont as (s & w2 & w3 & Hs & Hfit).
    apply fit_at_inr in Hfit as [-> _].
    apply search_inr in Hs as (_ & _ & _ & Hs).
    apply Hin. eapply nth_error_In; eauto.
  - rewrite Hx.
    apply discrete_best_alpha_returns in Hrun
      as (alphas & i & _ & _ & _ & _ & Hxi & _ & _ & Hself & _).
    rewrite Hself in Hxm.
    assert (Hxx : xmin = x) by (destruct scipyOK; cbn in Hxm; congruence).
    subst x. apply nth_error_In, unique_incl in Hxi.
    rewrite Hw1 in Hxi. exact Hxi.
Qed.

End Returned.

(** Witness of X6: the fit of [0, 0, 1] with the defaults, which returns
    a NaN exponent. *)
Lemma nan_comes_from_the_discrete_fitter_witness :
  exists xmin alpha w',
    plfit.plfit (P := Ref.platform) defaults (Ref.holding Ref.sample_zeros)
    = (inr (xmin, alpha), w')
    /\ is_nan xmin || is_nan alpha = true
    /\ kw_xmin defaults = None
    /\ (kw_discrete defaults = Some true
        \/ (kw_discrete defaults = None
            /\ (length (Np.unique (Np.sort Ref.sample_zeros))
                < length Ref.sample_zeros)%nat)).
Proof.
  eexists. eexists. eexists.
  split; [vm_compute; reflexivity|]. split; [vm_compute; reflexivity|].
  refine (nan_comes_from_the_discrete_fitter (P := Ref.platform) defaults
            (Ref.holding Ref.sample_zeros) _ _ _ _ _).
  - vm_compute. reflexivity.
  - vm_compute. reflexivity.
Defined.

(** Witness of X8: the fit of [1, 10, 1e7, 2e7, 3e7] with the defaults. *)
Lemma returned_xmin_is_given_or_sampled_witness :
  exists xmin alpha w',
    plfit.plfit (P := Ref.platform) defaults (Ref.holding Ref.sample_spread)
    = (inr (xmin, alpha), w')
    /\ In xmin Ref.sample_spread.
Proof.
  eexists. eexists. eexists. split; [vm_compute; reflexivity|].
  refine (returned_xmin_is_given_or_sampled (P := Ref.platform) defaults
            (Ref.holding Ref.sample_spread) _ _ _ _).
  vm_compute. reflexivity.
Defined.

(** *** The sample is left alone *)

Section KeepsData.
Context {P : Platform}.

Lemma keeps_data_ret {A : Type} (a : A) : keeps_data (ret a).
Proof. intros w r w' H. injection H as _ <-. reflexivity. Qed.

Lemma keeps_data_raise {A : Type} (e : exn) : keeps_data (@raise A e).
Proof. intros w r w' H. injection H as _ <-. reflexivity. Qed.

Lemma keeps_data_print (msg : message) : keeps_data (print msg).
Proof. intros w r w' H. injection H as _ <-. reflexivity. Qed.

Lemma keeps_data_get_data : keeps_data plfit.get_data.
Proof. intros w r w' H. injection H as _ <-. reflexivity. Qed.

Lemma keeps_data_getattr {A : Type} (name : string) (f : plfit_obj -> option A) :
  keeps_data (getattr name f).
Proof.
  intros w r w'. unfold getattr. destruct (f (self w)); intros H;
    injection H as _ <-; reflexivity.
Qed.

Lemma keeps_data_or_raise {A : Type} (e : exn) (o : option A) : keeps_data (or_raise e o).
Proof. destruct o; [apply keeps_data_ret | apply keeps_data_raise]. Qed.

Lemma keeps_data_lift {A : Type} (r : exn + A) : keeps_data (lift r).
Proof. destruct r; [apply keeps_data_raise | apply keeps_data_ret]. Qed.

Lemma keeps_data_setattr (f : plfit_obj -> plfit_obj) :
  (forall o, data (f o) = data o) -> keeps_data (setattr f).
Proof. intros Hf w r w' H. injection H as _ <-. apply Hf. Qed.

Lemma keeps_data_when (b : bool) (m : M unit) : keeps_data m -> keeps_data (when b m).
Proof. destruct b; simpl; [auto | intros _; apply keeps_data_ret]. Qed.

Lemma keeps_data_bind {A B : Type} (m : M A) (k : A -> M B) :
  keeps_data m -> (forall a, keeps_data (k a)) -> keeps_data (bind m k).
Proof.
  intros Hm Hk w r w'. unfold bind.
  destruct (m w) as [[e|a] w1] eqn:E.
  - intros H. injection H as _ <-. apply (Hm _ _ _ E).
  - intros H. rewrite (Hk a _ _ _ H). apply (Hm _ _ _ E).
Qed.

Lemma keeps_data_mapM {A B : Type} (f : A -> M B) (l : list A) :
  (forall a, keeps_data (f a)) -> keeps_data (plfit.mapM f l).
Proof.
  intros Hf. induction l as [|a t IH]; simpl.
  - apply keeps_data_ret.
  - apply keeps_data_bind; [apply Hf|]. intros b.
    apply keeps_data_bind; [exact IH|]. intros bs. apply keeps_data_ret.
Qed.

Ltac data_step :=
  first
    [ apply keeps_data_ret
    | apply keeps_data_raise
    | apply keeps_data_print
    | apply keeps_data_get_data
    | apply keeps_data_getattr
    | apply keeps_data_or_raise
    | apply keeps_data_lift
    | apply keeps_data_setattr; intros ?; reflexivity
    | apply keeps_data_when
    | apply keeps_data_mapM; intros ?
    | apply keeps_data_bind; [|intros ?]
    | match goal with
      | |- keeps_data (if ?b then _ else _) => destruct b
      | |- keeps_data (match ?x with _ => _ end) => destruct x
      | |- keeps_data (let '(_, _) := ?x in _) => destruct x
      end ].

Ltac data_tac := repeat data_step.

Lemma fit_at_keeps_data (kw : kwargs) (z xmins : list float) (xmin : float) :
  keeps_data (plfit.fit_at kw z xmins xmin).
Proof. unfold plfit.fit_at. data_tac. Qed.

Lemma search_keeps_data (kw : kwargs) (z xmins : list float) (argxmins : list nat) :
  keeps_data (plfit.search kw z xmins argxmins).
Proof. unfold plfit.search, plfit.run_backend, plfit.usable_nmax. data_tac. Qed.

Lemma discrete_best_alpha_keeps_data (n_alpha : nat) (approximate verbose finite : bool) :
  keeps_data (plfit.discrete_best_alpha n_alpha approximate verbose finite).
Proof. unfold plfit.discrete_best_alpha, local. data_tac. Qed.

Lemma plfit_keeps_data (kw : kwargs) : keeps_data (plfit.plfit kw).
Proof.
  unfold plfit.plfit. apply keeps_data_bind; [apply keeps_data_get_data|]. intros x.
  destruct (existsb _ x); [apply keeps_data_raise|].
  unfold plfit.fit_checked.
  destruct (Np.unique_index (Np.sort x)) as [xmins argxmins].
  apply keeps_data_bind; [data_tac|]. intros _.
  apply keeps_data_bind; [unfold plfit.classify; data_tac|]. intros d.
  destruct (kw_xmin kw); [apply fit_at_keeps_data|].
  assert (Hcont : keeps_data (plfit.continuous_fit kw (Np.sort x) xmins argxmins)).
  { unfold plfit.continuous_fit.
    apply keeps_data_bind; [apply search_keeps_data|]. intros s.
    apply keeps_data_bind; [unfold plfit.consistency_check; data_tac|]. intros _.
    apply fit_at_keeps_data. }
  destruct d as [[|]|]; try exact Hcont.
  apply keeps_data_bind; [apply discrete_best_alpha_keeps_data|]. intros _. data_tac.
Qed.

End KeepsData.

(** *** What is printed *)

Section Printing.
Context {P : Platform}.

Lemma prints_nothing_ret {A : Type} (a : A) : prints_nothing (ret a).
Proof. intros w r w' H. injection H as _ <-. reflexivity. Qed.

Lemma prints_nothing_raise {A : Type} (e : exn) : prints_nothing (@raise A e).
Proof. intros w r w' H. injection H as _ <-. reflexivity. Qed.

Lemma prints_nothing_get_data : prints_nothing plfit.get_data.
Proof. intros w r w' H. injection H as _ <-. reflexivity. Qed.

Lemma prints_nothing_getattr {A : Type} (name : string) (f : plfit_obj -> option A) :
  prints_nothing (getattr name f).
Proof.
  intros w r w'. unfold getattr. destruct (f (self w)); intros H;
    injection H as _ <-; reflexivity.
Qed.

Lemma prints_nothing_or_raise {A : Type} (e : exn) (o : option A) :
  prints_nothing (or_raise e o).
Proof. destruct o; [apply prints_nothing_ret | apply prints_nothing_raise]. Qed.

Lemma prints_nothing_lift {A : Type} (r : exn + A) : prints_nothing (lift r).
Proof. destruct r; [apply prints_nothing_raise | apply prints_nothing_ret]. Qed.

Lemma prints_nothing_setattr (f : plfit_obj -> plfit_obj) : prints_nothing (setattr f).
Proof. intros w r w' H. injection H as _ <-. reflexivity. Qed.

Lemma prints_nothing_when (b : bool) (m : M unit) :
  prints_nothing m -> prints_nothing (when b m).
Proof. destruct b; simpl; [auto | intros _; apply prints_nothing_ret]. Qed.

Lemma prints_nothing_bind {A B : Type} (m : M A) (k : A -> M B) :
  prints_nothing m -> (forall a, prints_nothing (k a)) -> prints_nothing (bind m k).
Proof.
  intros Hm Hk w r w'. unfold bind.
  destruct (m w) as [[e|a] w1] eqn:E.
  - intros H. injection H as _ <-. apply (Hm _ _ _ E).
  - intros H. rewrite (Hk a _ _ _ H). apply (Hm _ _ _ E).
Qed.

Lemma prints_nothing_mapM {A B : Type} (f : A -> M B) (l : list A) :
  (forall a, prints_nothing (f a)) -> prints_nothing (plfit.mapM f l).
Proof.
  intros Hf. induction l as [|a t IH]; simpl.
  - apply prints_nothing_ret.
  - apply prints_nothing_bind; [apply Hf|]. intros b.
    apply prints_nothing_bind; [exact IH|]. intros bs. apply prints_nothing_ret.
Qed.

Ltac quiet_step :=
  first
    [ apply prints_nothing_ret
    | apply prints_nothing_raise
    | apply prints_nothing_get_data
    | apply prints_nothing_getattr
    | apply prints_nothing_or_raise
    | apply prints_nothing_lift
    | apply prints_nothing_setattr
    | apply prints_nothing_when
    | apply prints_nothing_mapM; intros ?
    | apply prints_nothing_bind; [|intros ?]
    | match goal with
      | |- prints_nothing (if ?b then _ else _) => destruct b
      | |- prints_nothing (match ?x with _ => _ end) => destruct x
      | |- prints_nothing (let '(_, _) := ?x in _) => destruct x
      end ].

(** With the three flags set against output every [print] of the method
    sits under a condition that is off. *)
Ltac quiet_tac Hq Hs Hv :=
  rewrite ?Hq, ?Hs, ?Hv; cbn [negb]; rewrite ?andb_false_r; cbn [when];
  repeat quiet_step.

Lemma plfit_prints_nothing (kw : kwargs) :
  kw_quiet kw = true -> kw_silent kw = true -> kw_verbose kw = false ->
  prints_nothing (plfit.plfit kw).
Proof.
  intros Hq Hs Hv.
  assert (Hfit : forall z xmins xmin, prints_nothing (plfit.fit_at kw z xmins xmin))
    by (intros; unfold plfit.fit_at; quiet_tac Hq Hs Hv).
  unfold plfit.plfit. apply prints_nothing_bind; [apply prints_nothing_get_data|].
  intros x. destruct (existsb _ x); [apply prints_nothing_raise|].
  unfold plfit.fit_checked.
  destruct (Np.unique_index (Np.sort x)) as [xmins argxmins].
  apply prints_nothing_bind; [apply prints_nothing_setattr|]. intros _.
  apply prints_nothing_bind; [unfold plfit.classify; quiet_tac Hq Hs Hv|]. intros d.
  destruct (kw_xmin kw); [apply Hfit|].
  assert (Hcont : prints_nothing (plfit.continuous_fit kw (Np.sort x) xmins argxmins)).
  { unfold plfit.continuous_fit.
    apply prints_nothing_bind.
    - unfold plfit.search, plfit.run_backend, plfit.usable_nmax. quiet_tac Hq Hs Hv.
    - intros s. apply prints_nothing_bind; [|intros _; apply Hfit].
      unfold plfit.consistency_check. quiet_tac Hq Hs Hv. }
  destruct d as [[|]|]; try exact Hcont.
  apply prints_nothing_bind; [|intros _; repeat quiet_step].
  unfold plfit.discrete_best_alpha, local. quiet_tac Hq Hs Hv.
Qed.

End Printing.

(** *** The options on output *)

Section OutputOptions.
Context {P : Platform}.

Lemma same_outcome_ret {A : Type} (a : A) : same_outcome (ret a) (ret a).
Proof. intros w1 w2 H. split; [reflexivity | exact H]. Qed.

Lemma same_outcome_raise {A : Type} (e : exn) : same_outcome (@raise A e) (raise e).
Proof. intros w1 w2 H. split; [reflexivity | exact H]. Qed.

Lemma same_outcome_get_data : same_outcome plfit.get_data plfit.get_data.
Proof. intros w1 w2 H. unfold plfit.get_data. cbn. rewrite H. auto. Qed.

Lemma same_outcome_getattr {A : Type} (name : string) (f : plfit_obj -> option A) :
  same_outcome (getattr name f) (getattr name f).
Proof.
  intros w1 w2 H. unfold getattr. rewrite H.
  destruct (f (self w2)); cbn; auto.
Qed.

Lemma same_outcome_or_raise {A : Type} (e : exn) (o : option A) :
  same_outcome (or_raise e o) (or_raise e o).
Proof. destruct o; [apply same_outcome_ret | apply same_outcome_raise]. Qed.

Lemma same_outcome_lift {A : Type} (r : exn + A) : same_outcome (lift r) (lift r).
Proof. destruct r; [apply same_outcome_raise | apply same_outcome_ret]. Qed.

Lemma same_outcome_setattr (f : plfit_obj -> plfit_obj) :
  same_outcome (setattr f) (setattr f).
Proof. intros w1 w2 H. unfold setattr. cbn. rewrite H. auto. Qed.

(** Printing or not makes no difference. *)
Lemma same_outcome_print (b1 b2 : bool) (m1 m2 : message) :
  same_outcome (when b1 (print m1)) (when b2 (print m2)).
Proof. intros w1 w2 H. destruct b1, b2; cbn; auto. Qed.

Lemma same_outcome_when (b : bool) (m1 m2 : M unit) :
  same_outcome m1 m2 -> same_outcome (when b m1) (when b m2).
Proof. destruct b; simpl; [auto | intros _; apply same_outcome_ret]. Qed.

Lemma same_outcome_bind {A B : Type} (m1 m2 : M A) (k1 k2 : A -> M B) :
  same_outcome m1 m2 -> (forall a, same_outcome (k1 a) (k2 a)) ->
  same_outcome (bind m1 k1) (bind m2 k2).
Proof.
  intros Hm Hk w1 w2 H. unfold bind.
  destruct (Hm w1 w2 H) as [Hr Hs].
  destruct (m1 w1) as [[e1|a1] w1'], (m2 w2) as [[e2|a2] w2']; cbn in Hr, Hs;
    try discriminate.
  - injection Hr as <-. cbn. auto.
  - injection Hr as <-. apply Hk. exact Hs.
Qed.

Lemma same_outcome_mapM {A B : Type} (f : A -> M B) (l : list A) :
  (forall a, same_outcome (f a) (f a)) -> same_outcome (plfit.mapM f l) (plfit.mapM f l).
Proof.
  intros Hf. induction l as [|a t IH]; simpl.
  - apply same_outcome_ret.
  - apply same_outcome_bind; [apply Hf|]. intros b.
    apply same_outcome_bind; [exact IH|]. intros bs. apply same_outcome_ret.
Qed.

Ltac same_step :=
  first
    [ apply same_outcome_ret
    | apply same_outcome_raise
    | apply same_outcome_get_data
    | apply same_outcome_getattr
    | apply same_outcome_or_raise
    | apply same_outcome_lift
    | apply same_outcome_setattr
    | apply same_outcome_print
    | apply same_outcome_when
    | apply same_outcome_mapM; intros ?
    | apply same_outcome_bind; [|intros ?]
    | match goal with
      | |- same_outcome (if ?b then _ else _) (if ?b then _ else _) => destruct b
      | |- same_outcome (match ?x with _ => _ end) (match ?x with _ => _ end) => destruct x
      end ].

Ltac same_tac := repeat same_step.

Lemma run_backend_same_outcome (kw : kwargs) (q : bool)
    (z xmins : list float) (argxmins : list nat) :
  no_backend_missing kw ->
  same_outcome (plfit.run_backend (with_quiet q kw) z xmins argxmins)
               (plfit.run_backend kw z xmins argxmins).
Proof.
  intros [Hf Hc]. unfold plfit.run_backend. cbn [with_quiet kw_quiet kw_usefortran kw_usecy].
  rewrite Hf, Hc.
  apply same_outcome_bind.
  - destruct (kw_usefortran kw && fortranOK); [|destruct (kw_usecy kw && cyOK)]; same_tac.
  - intros [ks al]. apply same_outcome_bind; [|intros _; apply same_outcome_ret].
    intros w1 w2 H. destruct q, (kw_quiet kw); cbn; auto.
Qed.

Lemma fit_at_same_outcome (kw : kwargs) (q s v : bool)
    (z xmins : list float) (xmin : float) :
  same_outcome (plfit.fit_at (with_quiet q (with_silent s (with_verbose v kw))) z xmins xmin)
               (plfit.fit_at kw z xmins xmin).
Proof.
  intros w1 w2 H.
  destruct (length (filter (fun u => geb u xmin) z)) as [|n'] eqn:Hn.
  - destruct (fit_at_empty (with_quiet q (with_silent s (with_verbose v kw)))
                z xmins xmin w1 Hn) as (w1' & -> & H1).
    destruct (fit_at_empty kw z xmins xmin w2 Hn) as (w2' & -> & H2).
    cbn. split; [reflexivity | congruence].
  - assert (H1 : (1 <= length (filter (fun u => geb u xmin) z))%nat) by lia.
    rewrite (fit_at_run _ z xmins xmin w1 H1), (fit_at_run kw z xmins xmin w2 H1).
    cbn [with_quiet with_silent with_verbose kw_finite kw_quiet kw_silent kw_verbose].
    rewrite H.
    destruct (_ =? 1)%nat; [cbn; auto|].
    match goal with
    | |- context [if ?c then (inl _, _) else _] => destruct c
    end; cbn; auto.
Qed.

Lemma plfit_same_outcome (kw : kwargs) (q s v : bool) :
  no_backend_missing kw ->
  same_outcome (plfit.plfit (with_quiet q (with_silent s (with_verbose v kw))))
               (plfit.plfit kw).
Proof.
  intros Hb.
  assert (Hb' : no_backend_missing (with_silent s (with_verbose v kw))) by exact Hb.
  unfold plfit.plfit. apply same_outcome_bind; [apply same_outcome_get_data|].
  intros x. destruct (existsb _ x); [apply same_outcome_raise|].
  unfold plfit.fit_checked.
  destruct (Np.unique_index (Np.sort x)) as [xmins argxmins].
  apply same_outcome_bind; [apply same_outcome_setattr|]. intros _.
  apply same_outcome_bind.
  { unfold plfit.classify.
    cbn [with_quiet with_silent with_verbose kw_discrete kw_verbose].
    same_tac. }
  intros d.
  cbn [with_quiet with_silent with_verbose kw_xmin kw_discrete_n_alpha
       kw_discrete_approx kw_verbose kw_finite].
  destruct (kw_xmin kw); [apply fit_at_same_outcome|].
  assert (Hcont : same_outcome
            (plfit.continuous_fit (with_quiet q (with_silent s (with_verbose v kw)))
               (Np.sort x) xmins argxmins)
            (plfit.continuous_fit kw (Np.sort x) xmins argxmins)).
  { unfold plfit.continuous_fit.
    apply same_outcome_bind.
    - unfold plfit.search.
      apply same_outcome_bind.
      { intros w1 w2 H.
        destruct (run_backend_same_outcome (with_silent s (with_verbose v kw)) q
                    (Np.sort x) xmins argxmins Hb' w1 w2 H) as [E1 E2].
        rewrite E1, E2. clear E1 E2.
        unfold plfit.run_backend.
        cbn [with_silent with_verbose kw_quiet kw_usefortran kw_usecy].
        auto. }
      intros [ks al].
      apply same_outcome_bind; [apply same_outcome_or_raise|]. intros sg.
      apply same_outcome_bind.
      { unfold plfit.usable_nmax.
        cbn [with_quiet with_silent with_verbose kw_nosmall kw_silent].
        same_tac. }
      intros nmax. same_tac.
    - intros sel. apply same_outcome_bind; [|intros _; apply fit_at_same_outcome].
      unfold plfit.consistency_check.
      cbn [with_quiet with_silent with_verbose kw_skip_consistency_check].
      same_tac. }
  destruct d as [[|]|]; try exact Hcont.
  apply same_outcome_bind; [|intros _; same_tac].
  unfold plfit.discrete_best_alpha, local. same_tac.
Qed.

End OutputOptions.

(** *** Further properties: the sample, the output, the options *)

Section Instance.
Context {P : Platform}.

(** X9.  No call of the method changes the sample: whether it returns or
    raises, [self.data] is afterwards what it was; and after the
    constructor it is the sample as the constructor stored it, without
    its non-positive entries when one of them was negative. *)
Theorem fit_leaves_the_sample (kw : kwargs) (x : list float) (w : world) :
  data (self (snd (plfit.plfit kw w))) = data (self w)
  /\ data (self (snd (plfit.__init__ x kw w)))
     = if existsb (fun v => v <? 0) x then filter (fun v => gtb v 0) x else x.
Proof.
  assert (Hkeep : forall w0, data (self (snd (plfit.plfit kw w0))) = data (self w0)).
  { intros w0. apply (plfit_keeps_data kw w0 (fst (plfit.plfit kw w0))).
    destruct (plfit.plfit kw w0); reflexivity. }
  split; [apply Hkeep|].
  unfold plfit.__init__. cbv zeta. rewrite count_nonzero_positive, mask_select_filter.
  destruct (existsb (fun v => v <? 0) x).
  - unfold bind at 1. unfold bind at 1. unfold bind at 1.
    cbn [print ret setattr self stdout]. rewrite Hkeep. reflexivity.
  - unfold bind at 1. unfold bind at 1.
    cbn [ret setattr self stdout]. rewrite Hkeep. reflexivity.
Qed.

(** X10.  With [quiet] and [silent] on and [verbose] off the method prints
    nothing, whether it returns or raises. *)
Theorem silenced_fit_prints_nothing (kw : kwargs) (w : world) :
  kw_quiet kw = true -> kw_silent kw = true -> kw_verbose kw = false ->
  stdout (snd (plfit.plfit kw w)) = stdout w.
Proof.
  intros Hq Hs Hv.
  apply (plfit_prints_nothing kw Hq Hs Hv w (fst (plfit.plfit kw w))).
  destruct (plfit.plfit kw w); reflexivity.
Qed.

(** X11.  As long as no compiled backend is asked for that did not load,
    [quiet], [silent] and [verbose] change what is printed and nothing
    else: the call returns the same pair or raises the same exception,
    and leaves the same attributes. *)
Theorem output_options_change_only_the_output (kw : kwargs) (q s v : bool) (w : world) :
  no_backend_missing kw ->
  fst (plfit.plfit (with_quiet q (with_silent s (with_verbose v kw))) w)
    = fst (plfit.plfit kw w)
  /\ self (snd (plfit.plfit (with_quiet q (with_silent s (with_verbose v kw))) w))
     = self (snd (plfit.plfit kw w)).
Proof.
  intros Hb. apply (plfit_same_outcome kw q s v Hb w w eq_refl).
Qed.

(** X12.  A compiled backend that was asked for and did not load is
    reported only when [quiet] is off: the continuous search then ends in
    [ImportError], after the numpy backend has run and before any result
    is bound; with [quiet] on, asking for the fortran backend that is
    not there changes nothing at all. *)
Theorem missing_backend_raises_unless_quiet (kw : kwargs) (w : world) :
  fortranOK = false ->
  (kw_quiet kw = false -> kw_usefortran kw = true ->
   existsb (fun v => v <? 0) (data (self w)) = false ->
   continuous_search kw (data (self w)) ->
   exists w',
     plfit.plfit kw w = (inl (ImportError "fortran fplfit did not load"), w')
     /\ self w' = set_nunique (length (Np.unique (Np.sort (data (self w))))) (self w))
  /\ (kw_quiet kw = true ->
      plfit.plfit (with_usefortran true kw) w = plfit.plfit (with_usefortran false kw) w).
Proof.
  intros Hok. split.
  - intros Hq Hf Hneg Hcont.
    destruct (plfit_continuous_search kw w Hneg Hcont) as (w0 & Hw0 & ->).
    assert (Hrb : forall z xmins argxmins,
               exists w',
                 plfit.run_backend kw z xmins argxmins w0
                 = (inl (ImportError "fortran fplfit did not load"), w')
                 /\ self w' = self w0).
    { intros z xmins argxmins. unfold plfit.run_backend.
      rewrite Hq, Hf, Hok. cbn [andb negb].
      destruct (kw_usecy kw && cyOK);
        [destruct (cplfit_plfit_loop z xmins argxmins) as [ks al] eqn:E|];
        unfold bind, when, print, ret, raise; rewrite ?E;
        eexists; split; reflexivity. }
    destruct (Hrb (Np.sort (data (self w))) (Np.unique (Np.sort (data (self w))))
                (snd (Np.unique_index (Np.sort (data (self w))))))
      as (w' & Hrun & Hself).
    exists w'. split; [|congruence].
    unfold plfit.continuous_fit, plfit.search.
    apply bind_raise, bind_raise. exact Hrun.
  - intros Hq.
    unfold plfit.plfit, plfit.fit_checked, plfit.continuous_fit, plfit.search,
      plfit.run_backend, plfit.usable_nmax, plfit.consistency_check, plfit.fit_at,
      plfit.classify.
    cbn [with_usefortran kw_nosmall kw_finite kw_quiet kw_silent kw_usefortran kw_usecy
         kw_xmin kw_verbose kw_discrete kw_discrete_approx kw_discrete_n_alpha
         kw_skip_consistency_check].
    rewrite Hq, Hok. reflexivity.
Qed.

End Instance.

(** Witness of X10: the fit of [1, 2, 3] at the threshold 3, which warns
    twice when it is not silenced. *)
Lemma silenced_fit_prints_nothing_witness :
  stdout (snd (plfit.plfit (P := Ref.platform)
                 (with_quiet true (with_silent true (with_xmin 3 defaults)))
                 (Ref.holding Ref.sample_small))) = [].
Proof.
  apply (silenced_fit_prints_nothing (P := Ref.platform)
           (with_quiet true (with_silent true (with_xmin 3 defaults)))
           (Ref.holding Ref.sample_small)); reflexivity.
Defined.

(** Witness of X11: the fit of [1, 10, 1e7, 2e7, 3e7], silenced and with
    the defaults. *)
Lemma output_options_change_only_the_output_witness :
  fst (plfit.plfit (P := Ref.platform)
         (with_quiet true (with_silent true (with_verbose false defaults)))
         (Ref.holding Ref.sample_spread))
    = fst (plfit.plfit (P := Ref.platform) defaults (Ref.holding Ref.sample_spread))
  /\ self (snd (plfit.plfit (P := Ref.platform)
                  (with_quiet true (with_silent true (with_verbose false defaults)))
                  (Ref.holding Ref.sample_spread)))
     = self (snd (plfit.plfit (P := Ref.platform) defaults
                    (Ref.holding Ref.sample_spread))).
Proof.
  apply (output_options_change_only_the_output (P := Ref.platform) defaults
           true true false (Ref.holding Ref.sample_spread)).
  split; reflexivity.
Defined.

(** Witness of X12: on the reference platform, where the fortran backend
    is absent, the fit of [1, 10, 1e7, 2e7, 3e7] with [usefortran]. *)
Lemma missing_backend_raises_unless_quiet_witness :
  (exists w',
     plfit.plfit (P := Ref.platform) (with_usefortran true defaults)
       (Ref.holding Ref.sample_spread)
     = (inl (ImportError "fortran fplfit did not load"), w'))
  /\ plfit.plfit (P := Ref.platform) (with_usefortran true (with_quiet true defaults))
       (Ref.holding Ref.sample_spread)
     = plfit.plfit (P := Ref.platform) (with_usefortran false (with_quiet true defaults))
         (Ref.holding Ref.sample_spread).
Proof.
  split.
  - destruct (proj1 (missing_backend_raises_unless_quiet (P := Ref.platform)
                       (with_usefortran true defaults) (Ref.holding Ref.sample_spread)
                       eq_refl) eq_refl eq_refl)
      as (w' & Hrun & _).
    + vm_compute. reflexivity.
    + split; [reflexivity|]. right. split; [reflexivity | vm_compute; reflexivity].
    + exists w'. exact Hrun.
  - apply (proj2 (missing_backend_raises_unless_quiet (P := Ref.platform)
                    (with_quiet true defaults) (Ref.holding Ref.sample_spread) eq_refl)).
    reflexivity.
Defined.

(** *** The discrete primitives *)

Section DiscreteFacts.
Context {P : Platform}.

Lemma unique_nonempty (ar : list float) : ar <> [] -> Np.unique ar <> [].
Proof.
  intros Har. unfold Np.unique, Np.unique_index. cbn [fst].
  pose proof (unique_aux_perm ar) as Hp.
  destruct (map fst (Np.sort_entries (Np.enumerate ar))) as [|v t].
  - apply Permutation_nil in Hp. congruence.
  - destruct (unique_mask_head v t) as [mask ->]. simpl. discriminate.
Qed.

Lemma argmin_nonempty (a : list float) : a <> [] -> exists i, Np.argmin a = Some i.
Proof. destruct a; [congruence | simpl; eauto]. Qed.

Lemma fold_maximum_nan (t : list float) (mp : float) :
  is_nan mp = true -> fold_left Np.maximum t mp = mp.
Proof.
  intros H. induction t as [|v t IH]; simpl; [reflexivity|].
  unfold Np.maximum at 2. rewrite H. exact IH.
Qed.

(** [argmax] points at the value [max] returns. *)
Lemma argmax_loop_max (l : list float) :
  forall (i mi : nat) (mp : float),
  (Np.argmax_loop l i mp mi = mi /\ fold_left Np.maximum l mp = mp)
  \/ (exists k, Np.argmax_loop l i mp mi = (i + k)%nat
                /\ nth_error l k = Some (fold_left Np.maximum l mp)).
Proof.
  induction l as [|v t IH]; intros i mi mp; simpl; [left; auto|].
  destruct (is_nan mp) eqn:Hmp.
  - left. split; [reflexivity|].
    unfold Np.maximum at 2. rewrite Hmp. apply fold_maximum_nan. exact Hmp.
  - unfold Np.maximum at 2. unfold Np.maximum at 3. rewrite Hmp. unfold geb.
    destruct (v <=? mp) eqn:Hle; simpl.
    + destruct (leb_not_nan _ _ Hle) as [Hv _]. rewrite Hv.
      destruct (IH (S i) mi mp) as [[Hr Hf] | (k & Hr & Hk)].
      * left. auto.
      * right. exists (S k). split; [rewrite Hr; lia | exact Hk].
    + assert (Hmax : (if is_nan v then v else v) = v) by (destruct (is_nan v); reflexivity).
      rewrite Hmax.
      destruct (IH (S i) i v) as [[Hr Hf] | (k & Hr & Hk)].
      * right. exists 0%nat. split; [rewrite Hr; lia|]. simpl. rewrite Hf. reflexivity.
      * right. exists (S k). split; [rewrite Hr; lia | exact Hk].
Qed.

Lemma argmax_max (a : list float) (i : nat) (m : float) :
  Np.argmax a = Some i -> Np.max a = Some m -> nth_error a i = Some m.
Proof.
  destruct a as [|v t]; simpl; [discriminate|].
  intros Hi Hm. injection Hi as <-. injection Hm as <-.
  destruct (argmax_loop_max t 1 0 v) as [[Hr Hf] | (k & Hr & Hk)].
  - rewrite Hr, Hf. reflexivity.
  - rewrite Hr. exact Hk.
Qed.

Lemma argmax_in_range (a : list float) (i : nat) :
  Np.argmax a = Some i -> (i < length a)%nat.
Proof.
  intros Hi. destruct (Np.max a) as [m|] eqn:Hm.
  - apply nth_error_Some. rewrite (argmax_max a i m Hi Hm). discriminate.
  - destruct a; discriminate.
Qed.

Lemma nan_to_inf_id (l : list float) :
  existsb is_nan l = false ->
  map (fun k => if is_nan k then infinity else k) l = l.
Proof.
  induction l as [|v t IH]; simpl; [reflexivity|].
  intros H. apply orb_false_iff in H as [Hv Ht]. rewrite Hv, (IH Ht). reflexivity.
Qed.

Lemma zip_with_map {A B C D : Type} (f : B -> C -> D) (g : A -> B) (h : A -> C)
    (l : list A) :
  Np.zip_with f (map g l) (map h l) = map (fun a => f (g a) (h a)) l.
Proof.
  induction l as [|a t IH]; simpl; [reflexivity|]. rewrite IH. reflexivity.
Qed.

(** The likelihoods over the grid are [discrete_likelihood] at its points. *)
Lemma likelihood_vector_entry (data : list float) (xmin : float)
    (alpharange : float * float) (n_alpha : nat) (likelihoods : list float)
    (j : nat) (a : float) :
  discrete_likelihood_vector data xmin alpharange n_alpha = inr likelihoods ->
  nth_error (Np.linspace (fst alpharange) (snd alpharange) n_alpha) j = Some a ->
  exists l, nth_error likelihoods j = Some l /\ discrete_likelihood data xmin a = inr l.
Proof.
  unfold discrete_likelihood_vector, discrete_likelihood.
  destruct (negb scipyOK); [discriminate|].
  cbv zeta. intros H Ha. injection H as <-.
  rewrite map_map, zip_with_map, (map_nth_error _ _ _ Ha).
  eexists. split; reflexivity.
Qed.

End DiscreteFacts.

(** *** Further properties: the discrete fitter *)

Section DiscreteFitter.
Context {P : Platform}.

(** X13.  The discrete fitter cannot do without scipy: when scipy did not
    import, the method ends in [ImportError] on every sample that is not
    empty, whatever its options. *)
Theorem discrete_fit_needs_scipy (n_alpha : nat) (approximate verbose finite : bool)
    (w : world) :
  scipyOK = false -> data (self w) <> [] ->
  exists msg w',
    plfit.discrete_best_alpha n_alpha approximate verbose finite w
    = (inl (ImportError msg), w').
Proof.
  intros Hscipy Hdata.
  pose proof (unique_nonempty _ Hdata) as Hx.
  unfold plfit.discrete_best_alpha, plfit.get_data.
  unfold bind at 1. unfold bind at 1. cbn [setattr self stdout].
  destruct approximate.
  - set (xmins := Np.unique (data (self w))) in *.
    set (alphas := map (fun xmin => discrete_alpha_mle (data (self w)) xmin) xmins).
    unfold bind at 1. cbn [ret].
    unfold bind at 1. cbn [setattr self stdout].
    unfold bind at 1. cbn [setattr self stdout].
    unfold bind at 1. cbn [setattr self stdout].
    set (ksvalues := map (fun k => if is_nan k then infinity else k) _).
    assert (Hlen : length ksvalues = length xmins).
    { unfold ksvalues, alphas. rewrite !length_map, length_combine, length_map. lia. }
    assert (Hks : ksvalues <> []).
    { intros E. rewrite E in Hlen. destruct xmins; [congruence | discriminate]. }
    destruct (argmin_nonempty _ Hks) as (i & Hi).
    pose proof (argmin_in_range _ _ Hi) as Hr.
    rewrite Hi. cbn [or_raise]. rewrite (bind_step (ret i) _ _ _ i eq_refl).
    destruct (nth_error alphas i) as [a|] eqn:Ha;
      [|apply nth_error_None in Ha; unfold alphas in Ha; rewrite length_map in Ha; lia].
    cbn [or_raise]. rewrite (bind_step (ret a) _ _ _ a eq_refl).
    unfold bind at 1. cbn [setattr self stdout].
    destruct (nth_error xmins i) as [x|] eqn:Hxi; [|apply nth_error_None in Hxi; lia].
    cbn [or_raise]. rewrite (bind_step (ret x) _ _ _ x eq_refl).
    unfold bind at 1. cbn [setattr self stdout].
    destruct (nth_error ksvalues i) as [k|] eqn:Hk; [|apply nth_error_None in Hk; lia].
    cbn [or_raise]. rewrite (bind_step (ret k) _ _ _ k eq_refl).
    unfold bind at 1. cbn [setattr self stdout].
    unfold discrete_likelihood. rewrite Hscipy. cbn [negb lift].
    eexists. eexists. reflexivity.
  - destruct (Np.unique (data (self w))) as [|x0 xs]; [congruence|].
    cbn [map combine plfit.mapM].
    unfold most_likely_alpha, discrete_max_likelihood_arg, discrete_likelihood_vector.
    rewrite Hscipy. cbn [negb lift].
    eexists. eexists. reflexivity.
Qed.

(** X14.  What the discrete fitter returns is what it has stored: the
    four values of the tuple are the attributes [_alpha], [_xmin], [_ks]
    and [_likelihood], the likelihood is that of the data at the returned
    threshold and exponent, the threshold is a value of the sample, the
    KS distance is not NaN, and [_ngtx] and [_alphaerr] follow.  A call
    that returns was made without the finite-size correction. *)
Theorem discrete_fit_stores_what_it_returns (n_alpha : nat)
    (approximate verbose finite : bool) (w w' : world) (a x k L : float) :
  plfit.discrete_best_alpha n_alpha approximate verbose finite w
    = (inr (a, x, k, L), w') ->
  let n := Np.count_nonzero (map (fun v => geb v x) (data (self w))) in
  _alpha (self w') = Some a /\ _xmin (self w') = Some x /\ _ks (self w') = Some k
  /\ _likelihood (self w') = Some L
  /\ discrete_likelihood (data (self w)) x a = inr L
  /\ In x (data (self w)) /\ is_nan k = false
  /\ _ngtx (self w') = Some n
  /\ _alphaerr (self w') = Some ((a - 1.0) / PrimFloat.sqrt (of_nat n))
  /\ finite = false.
Proof.
  intros H n.
  apply discrete_best_alpha_returns in H
    as (alphas & i & Hfin & _ & _ & _ & Hx & Hk & HL & Hself & _).
  rewrite Hself. fold n.
  assert (Hnan : is_nan k = false).
  { apply nth_error_In, in_map_iff in Hk as (raw & <- & _).
    destruct (is_nan raw) eqn:E; [reflexivity | exact E]. }
  apply nth_error_In, unique_incl in Hx.
  destruct scipyOK; cbn; auto 12.
Qed.

(** X15.  The module-level function [discrete_best_alpha] and the method
    agree unless a KS distance is NaN: whenever the function returns a
    tuple whose KS distance is not NaN, the method, on an instance that
    holds the same data and without the finite-size correction, returns
    the same tuple. *)
Theorem discrete_function_agrees_with_method (d : list float) (mults : float * float)
    (n_alpha : nat) (approximate verbose : bool) (w0 w0' w : world) (a x k L : float) :
  discrete_best_alpha d mults n_alpha approximate verbose w0 = (inr (a, x, k, L), w0') ->
  is_nan k = false ->
  data (self w) = d ->
  exists w',
    plfit.discrete_best_alpha n_alpha approximate verbose false w = (inr (a, x, k, L), w').
Proof.
  intros H Hk Hd. subst d. unfold discrete_best_alpha in H.
  apply bind_inr in H as (alphas & w2 & Halphas & H).
  pose proof (discrete_alphas_pure _ _ _ _ _ _ _ Halphas) as Hpure.
  apply bind_inr in H as (i & w3 & Hbest & H).
  apply or_raise_inr in Hbest as [Hbest _].
  apply bind_inr in H as (a' & w4 & Ha & H).
  apply or_raise_inr in Ha as [Ha _].
  apply bind_inr in H as (x' & w5 & Hx & H).
  apply or_raise_inr in Hx as [Hx _].
  apply bind_inr in H as (k' & w6 & Hki & H).
  apply or_raise_inr in Hki as [Hki _].
  apply bind_inr in H as (L' & w7 & HL & H).
  apply lift_inr in HL as [HL _].
  mskip H. unfold ret in H. injection H as -> -> -> -> _.
  set (raw := map (fun '(xmin, alpha) => discrete_ksD (data (self w)) xmin alpha)
                (combine (Np.unique (data (self w))) alphas)) in *.
  assert (Hraw : existsb is_nan raw = false).
  { destruct (existsb is_nan raw) eqn:E; [|reflexivity].
    destruct (argmin_first_nan raw i E Hbest) as (m & Hm & Hnan & _).
    rewrite Hki in Hm. injection Hm as <-. congruence. }
  pose proof (discrete_method_run n_alpha approximate verbose w alphas i a x k L) as Hrun.
  cbv zeta in Hrun. fold raw in Hrun. rewrite (nan_to_inf_id raw Hraw) in Hrun.
  eexists. apply Hrun; assumption.
Qed.

(** X16.  [most_likely_alpha] returns the grid point at the index
    [discrete_max_likelihood_arg] finds, never an [IndexError], and the
    likelihood of the data there, as [discrete_likelihood] computes it, is
    the value [discrete_max_likelihood] returns. *)
Theorem most_likely_alpha_is_at_the_maximum (data : list float) (xmin : float)
    (alpharange : float * float) (n_alpha : nat) (i : nat) :
  discrete_max_likelihood_arg data xmin alpharange n_alpha = inr i ->
  exists a Lmax,
    most_likely_alpha data xmin alpharange n_alpha = inr a
    /\ nth_error (Np.linspace (fst alpharange) (snd alpharange) n_alpha) i = Some a
    /\ discrete_max_likelihood data xmin alpharange n_alpha = inr Lmax
    /\ discrete_likelihood data xmin a = inr Lmax.
Proof.
  unfold most_likely_alpha, discrete_max_likelihood, discrete_max_likelihood_arg.
  destruct (discrete_likelihood_vector data xmin alpharange n_alpha)
    as [e|likelihoods] eqn:Hv; [discriminate|].
  destruct (Np.argmax likelihoods) as [j|] eqn:Hj; [|discriminate].
  intros H. injection H as ->.
  pose proof (argmax_in_range _ _ Hj) as Hr.
  assert (Hlen : length likelihoods
                 = length (Np.linspace (fst alpharange) (snd alpharange) n_alpha)).
  { unfold discrete_likelihood_vector in Hv. destruct (negb scipyOK); [discriminate|].
    injection Hv as <-. rewrite zip_with_length; rewrite !length_map; reflexivity. }
  destruct (nth_error (Np.linspace (fst alpharange) (snd alpharange) n_alpha) i)
    as [a|] eqn:Ha; [|apply nth_error_None in Ha; lia].
  destruct (Np.max likelihoods) as [m|] eqn:Hm; [|destruct likelihoods; discriminate].
  exists a, m. repeat split; try reflexivity.
  destruct (likelihood_vector_entry _ _ _ _ _ _ _ Hv Ha) as (l & Hl & HL).
  rewrite (argmax_max _ _ _ Hj Hm) in Hl. injection Hl as <-. exact HL.
Qed.

End DiscreteFitter.

(** Witness of X13: the sample with ties of the specification, on a
    platform where scipy did not import. *)
Lemma discrete_fit_needs_scipy_witness :
  exists msg w',
    plfit.discrete_best_alpha
      (P := Build_Platform Ref.log Ref.pow Ref.ksone_sf Ref.zeta false false false
              (fun _ => ([], [])) (fun _ _ _ => ([], [])))
      1000 true false false (Ref.holding Ref.sample_ties)
    = (inl (ImportError msg), w').
Proof.
  apply (discrete_fit_needs_scipy
           (P := Build_Platform Ref.log Ref.pow Ref.ksone_sf Ref.zeta false false false
                   (fun _ => ([], [])) (fun _ _ _ => ([], [])))).
  - reflexivity.
  - discriminate.
Defined.

(** Witness of X14: the discrete fit of [1, 1, 2, 2, 3, 4, 5, 10, 20, 50]. *)
Lemma discrete_fit_stores_what_it_returns_witness :
  exists a x k L w',
    plfit.discrete_best_alpha (P := Ref.platform) 1000 true false false
      (Ref.holding Ref.sample_ties) = (inr (a, x, k, L), w')
    /\ _alpha (self w') = Some a /\ _xmin (self w') = Some x /\ _ks (self w') = Some k
    /\ _likelihood (self w') = Some L
    /\ In x Ref.sample_ties /\ is_nan k = false.
Proof.
  pose proof (discrete_fit_stores_what_it_returns (P := Ref.platform) 1000 true false false
                (Ref.holding Ref.sample_ties) _ _ _ _ _
                ltac:(vm_compute; reflexivity))
    as (Ha & Hx & Hk & HL & _ & Hin & Hnan & _).
  eexists. eexists. eexists. eexists. eexists.
  split; [vm_compute; reflexivity|].
  split; [exact Ha|]. split; [exact Hx|]. split; [exact Hk|]. split; [exact HL|].
  split; [exact Hin | exact Hnan].
Defined.

(** Witness of X15: the function and the method on
    [1, 1, 2, 2, 3, 4, 5, 10, 20, 50]. *)
Lemma discrete_function_agrees_with_method_witness :
  exists a x k L w0' w',
    discrete_best_alpha (P := Ref.platform) Ref.sample_ties (0.9, 1.1) 1000 true false
      (mk_world new_obj []) = (inr (a, x, k, L), w0')
    /\ plfit.discrete_best_alpha (P := Ref.platform) 1000 true false false
         (Ref.holding Ref.sample_ties) = (inr (a, x, k, L), w').
Proof.
  pose proof (discrete_function_agrees_with_method (P := Ref.platform) Ref.sample_ties
                (0.9, 1.1) 1000 true false (mk_world new_obj []) _
                (Ref.holding Ref.sample_ties) _ _ _ _
                ltac:(vm_compute; reflexivity) ltac:(vm_compute; reflexivity) eq_refl)
    as [w' Hw'].
  eexists. eexists. eexists. eexists. eexists. exists w'.
  split; [vm_compute; reflexivity | exact Hw'].
Defined.

(** Witness of X16: eleven exponents between 1.5 and 3.5 for
    [1, 1, 2, 2, 3, 4, 5, 10, 20, 50] above the threshold 1. *)
Lemma most_likely_alpha_is_at_the_maximum_witness :
  exists i a Lmax,
    discrete_max_likelihood_arg (P := Ref.platform) Ref.sample_ties 1 (1.5, 3.5) 11 = inr i
    /\ most_likely_alpha (P := Ref.platform) Ref.sample_ties 1 (1.5, 3.5) 11 = inr a
    /\ nth_error (Np.linspace 1.5 3.5 11) i = Some a
    /\ discrete_max_likelihood (P := Ref.platform) Ref.sample_ties 1 (1.5, 3.5) 11 = inr Lmax
    /\ discrete_likelihood (P := Ref.platform) Ref.sample_ties 1 a = inr Lmax.
Proof.
  pose proof (most_likely_alpha_is_at_the_maximum (P := Ref.platform) Ref.sample_ties 1
                (1.5, 3.5) 11 _ ltac:(vm_compute; reflexivity))
    as (a & Lmax & Hr).
  eexists. exists a, Lmax.
  split; [vm_compute; reflexivity | exact Hr].
Defined.

(** *** The sweep and the reported fit *)

Section Sweep.
Context {P : Platform}.

Lemma map_abs_sub_comm (a b : list float) :
  map PrimFloat.abs (Np.zip_with PrimFloat.sub a b)
  = map PrimFloat.abs (Np.zip_with PrimFloat.sub b a).
Proof.
  revert b; induction a as [|x a IH]; intros [|y b]; simpl; try reflexivity.
  rewrite abs_sub_comm, IH. reflexivity.
Qed.

(** What the search has stored when it returns. *)
Lemma search_stores (kw : kwargs) (z xmins : list float) (argxmins : list nat)
    (w w' : world) (s : plfit.selection) :
  plfit.search kw z xmins argxmins w = (inr s, w') ->
  _alpha_values (self w') = Some (plfit.sel_alpha_values s)
  /\ _xmin_kstest (self w') = Some (plfit.sel_kstest_values s)
  /\ _sigma (self w') = Some (plfit.sel_sigma s).
Proof.
  unfold plfit.search. intros H.
  apply bind_inr in H as ([ks al] & w1 & _ & H).
  do 4 mskip H.
  do 4 mset H.
  unfold ret in H. injection H as <- <-. cbn.
  destruct scipyOK; cbn; auto.
Qed.

Lemma consistency_check_world (kw : kwargs) (z : list float) (s : plfit.selection)
    (w w' : world) (u : unit) :
  plfit.consistency_check kw z s w = (inr u, w') -> w' = w.
Proof.
  unfold plfit.consistency_check.
  destruct (kw_skip_consistency_check kw).
  - unfold ret. intros H. injection H as _ <-. reflexivity.
  - intros H. apply bind_inr in H as (r & w1 & Hr & H).
    apply or_raise_inr in Hr as [_ ->].
    destruct (assert_almost_equal _ _ _); [|discriminate].
    unfold ret in H. injection H as _ <-. reflexivity.
Qed.

(** The KS distance of the sweep at a threshold is the one the fit at
    that threshold computes, the finite-size correction apart. *)
Lemma kstest_gen_is_the_fit_distance (z : list float) (xmin : float) :
  let zz := filter (fun v => geb v xmin) z in
  let n := length zz in
  let alpha := 1 + of_nat n / Np.sum (map log (map (fun v => v / xmin) zz)) in
  (1 <= n)%nat ->
  kstest_gen z false false xmin =
    match Np.max (map PrimFloat.abs
                    (Np.zip_with PrimFloat.sub
                       (map (fun i => i / of_nat n) (Np.arange n))
                       (map (fun v => 1 - pow (xmin / v) (alpha - 1)) zz))) with
    | Some k => k
    | None => nan
    end.
Proof.
  intros zz n alpha Hn. unfold kstest_gen. rewrite mask_select_filter. cbv zeta.
  fold zz. fold n.
  replace (n =? 0)%nat with false by (symmetry; apply Nat.eqb_neq; lia).
  rewrite map_abs_sub_comm. reflexivity.
Qed.

End Sweep.

(** *** Further properties: the reported fit and the sweep *)

Section Reported.
Context {P : Platform}.

(** X17.  On the numpy backend and without the finite-size correction,
    the continuous search reports a row of its own sweep: unless the fit
    is the zeroed-out one of a single point, the exponent and the KS
    distance it returns and stores are the entries of [_alpha_values] and
    [_xmin_kstest] at the index of the threshold among the candidates. *)
Theorem fit_reports_a_row_of_the_sweep (kw : kwargs) (w w' : world) (xmin alpha : float) :
  python_only kw -> kw_finite kw = false ->
  continuous_search kw (data (self w)) ->
  plfit.plfit kw w = (inr (xmin, alpha), w') ->
  _ngtx (self w') <> Some 1%nat ->
  exists i xmins alpha_values kstest_values ks,
    _xmins (self w') = Some xmins
    /\ _alpha_values (self w') = Some alpha_values
    /\ _xmin_kstest (self w') = Some kstest_values
    /\ _ks (self w') = Some ks
    /\ nth_error xmins i = Some xmin
    /\ nth_error alpha_values i = Some alpha
    /\ nth_error kstest_values i = Some ks.
Proof.
  intros Hpy Hfin [Hx Hd] H Hn1.
  destruct (plfit_returns kw w w' xmin alpha H)
    as (w1 & _ & [(t & Ht & _) | [(_ & Hcont) | (_ & Hdd & _)]]).
  - congruence.
  - set (z := Np.sort (data (self w))) in *.
    set (xmins := Np.unique z) in *.
    unfold plfit.continuous_fit in Hcont.
    apply bind_inr in Hcont as (s & w2 & Hs & Hcont).
    apply bind_inr in Hcont as (u & w3 & Hc & Hfit).
    apply consistency_check_world in Hc. subst w3.
    destruct (search_python_values _ _ _ _ _ _ _ Hpy Hs) as [Hks Hal].
    destruct (search_stores _ _ _ _ _ _ _ Hs) as (Hsal & Hsks & _).
    destruct (search_inr _ _ _ _ _ _ _ Hs) as (_ & _ & _ & Hxm).
    pose proof (fit_at_inr _ _ _ _ _ _ _ _ Hfit) as (Hxeq & _ & _ & Hngtx & _).
    subst xmin.
    set (xm := plfit.sel_xmin s) in *.
    assert (Hn : (2 <= length (filter (fun v => geb v xm) z))%nat).
    { destruct (length (filter (fun v => geb v xm) z)) as [|[|n]] eqn:En; [| |lia].
      - destruct (fit_at_empty kw z xmins xm w2 En) as (w4 & Hraise & _).
        rewrite Hraise in Hfit. discriminate.
      - congruence. }
    assert (H1 : (1 <= length (filter (fun v => geb v xm) z))%nat) by lia.
    rewrite (fit_at_run kw z xmins xm w2 H1) in Hfit.
    replace (length (filter (fun v => geb v xm) z) =? 1)%nat with false in Hfit
      by (symmetry; apply Nat.eqb_neq; lia).
    rewrite Hfin in Hfit.
    match type of Hfit with
    | context [if ?c then (inl _, _) else _] => destruct c
    end; [discriminate|].
    injection Hfit as <- <-. cbn [self].
    exists (plfit.sel_best_ks_index s), xmins, (plfit.sel_alpha_values s),
      (plfit.sel_kstest_values s).
    eexists.
    split; [destruct scipyOK; reflexivity|].
    split; [destruct scipyOK; cbn; exact Hsal|].
    split; [destruct scipyOK; cbn; exact Hsks|].
    split; [destruct scipyOK; reflexivity|].
    split; [exact Hxm|].
    split.
    + rewrite Hal, (map_nth_error _ _ _ Hxm), (alpha_gen_direct _ _ Hn).
      unfold plfit.direct_alpha. rewrite count_nonzero_filter, mask_select_filter.
      reflexivity.
    + rewrite Hks, (map_nth_error _ _ _ Hxm).
      rewrite (kstest_gen_is_the_fit_distance z xm H1). reflexivity.
  - destruct Hd as [Hd | [Hd Hlen]], Hdd as [Hdd | [Hdd Hlt]]; try congruence. lia.
Qed.

End Reported.

(** Witness of X17: the fit of [1, 10, 1e7, 2e7, 3e7] with the defaults,
    which selects the first candidate. *)
Lemma fit_reports_a_row_of_the_sweep_witness :
  exists xmin alpha w' i xmins alpha_values kstest_values ks,
    plfit.plfit (P := Ref.platform) defaults (Ref.holding Ref.sample_spread)
    = (inr (xmin, alpha), w')
    /\ _xmins (self w') = Some xmins
    /\ _alpha_values (self w') = Some alpha_values
    /\ _xmin_kstest (self w') = Some kstest_values
    /\ _ks (self w') = Some ks
    /\ nth_error xmins i = Some xmin
    /\ nth_error alpha_values i = Some alpha
    /\ nth_error kstest_values i = Some ks.
Proof.
  assert (Hc : continuous_search defaults (data (self (Ref.holding Ref.sample_spread)))).
  { split; [reflexivity|]. right. split; [reflexivity | vm_compute; reflexivity]. }
  pose proof (fit_reports_a_row_of_the_sweep (P := Ref.platform) defaults
                (Ref.holding Ref.sample_spread) _ _ _
                (conj eq_refl eq_refl) eq_refl Hc
                ltac:(vm_compute; reflexivity)
                ltac:(vm_compute; discriminate))
    as (i & xmins & al & kss & ks & Hr).
  eexists. eexists. eexists. exists i, xmins, al, kss, ks.
  split; [vm_compute; reflexivity | exact Hr].
Defined.

(** *** Repeated values *)

Section Repeats.

Lemma sort_lt_asym (a b : float) : Np.sort_lt a b = true -> Np.sort_lt b a = false.
Proof.
  unfold Np.sort_lt. destruct (is_nan a) eqn:Ha, (is_nan b) eqn:Hb; simpl;
    rewrite ?orb_false_r, ?orb_true_r; intros H; try discriminate; try reflexivity;
    float_order.
Qed.

Lemma sort_lt_trans (a b c : float) :
  Np.sort_lt a b = true -> Np.sort_lt b c = true -> Np.sort_lt a c = true.
Proof.
  unfold Np.sort_lt. destruct (is_nan a) eqn:Ha, (is_nan b) eqn:Hb, (is_nan c) eqn:Hc;
    simpl; rewrite ?orb_false_r, ?orb_true_r; intros H1 H2;
    try discriminate; try reflexivity; float_order.
Qed.

Lemma sort_lt_cotrans (a b c : float) :
  Np.sort_lt a b = false -> Np.sort_lt b c = false -> Np.sort_lt a c = false.
Proof.
  unfold Np.sort_lt. destruct (is_nan a) eqn:Ha, (is_nan b) eqn:Hb, (is_nan c) eqn:Hc;
    simpl; rewrite ?orb_false_r, ?orb_true_r; intros H1 H2;
    try discriminate; try reflexivity; float_order.
Qed.

(** The insertion sort sorts, in numpy's order. *)
Lemma insert_entry_ordered {A : Type} (p : float * A) (l : list (float * A)) :
  StronglySorted (fun a b => Np.sort_lt (fst b) (fst a) = false) l ->
  StronglySorted (fun a b => Np.sort_lt (fst b) (fst a) = false) (Np.insert_entry p l).
Proof.
  induction l as [|q t IH]; intros Hs; simpl.
  - constructor; constructor.
  - inversion Hs as [|? ? Hst Hqt]; subst.
    destruct (Np.sort_lt (fst q) (fst p)) eqn:Hlt.
    + constructor; [apply IH; assumption|].
      eapply Permutation_Forall; [symmetry; apply insert_entry_perm|].
      constructor; [apply sort_lt_asym; exact Hlt | exact Hqt].
    + constructor; [exact Hs|]. constructor; [exact Hlt|].
      eapply Forall_impl; [|exact Hqt]. simpl. intros r Hr.
      eapply sort_lt_cotrans; eassumption.
Qed.

Lemma sort_entries_ordered {A : Type} (l : list (float * A)) :
  StronglySorted (fun a b => Np.sort_lt (fst b) (fst a) = false) (Np.sort_entries l).
Proof.
  induction l as [|p t IH]; simpl; [constructor|].
  apply insert_entry_ordered, IH.
Qed.

Lemma eqb_sym (a b : float) : (a =? b) = (b =? a).
Proof.
  destruct (a =? b) eqn:E1, (b =? a) eqn:E2; try reflexivity;
    [apply not_true_iff_false in E2 | apply not_true_iff_false in E1];
    rewrite eqb_fkey in *;
    destruct (fkey a) as [[[? ?] ?]|], (fkey b) as [[[? ?] ?]|];
    unfold keq in *; try tauto; lia.
Qed.

Lemma has_repeat_perm (l l' : list float) :
  Permutation l l' -> has_repeat l = has_repeat l'.
Proof.
  induction 1 as [|a l l' Hp IH|a b l|l l' l'' H1 IH1 H2 IH2]; simpl.
  - reflexivity.
  - rewrite IH. f_equal.
    destruct (existsb (fun b => a =? b) l) eqn:E1, (existsb (fun b => a =? b) l') eqn:E2;
      try reflexivity.
    + apply existsb_exists in E1 as (v & Hv & Hav).
      assert (Hex : existsb (fun b => a =? b) l' = true)
        by (apply existsb_exists; exists v; split;
            [eapply Permutation_in; eauto | exact Hav]).
      congruence.
    + apply existsb_exists in E2 as (v & Hv & Hav).
      assert (Hex : existsb (fun b => a =? b) l = true)
        by (apply existsb_exists; exists v; split;
            [eapply Permutation_in; [symmetry|]; eauto | exact Hav]).
      congruence.
  - rewrite (eqb_sym a b).
    destruct (b =? a), (existsb (fun v => b =? v) l), (existsb (fun v => a =? v) l);
      reflexivity.
  - congruence.
Qed.

(** In a sorted array a repeated value shows between neighbours. *)
Lemma change_mask_repeat (l : list float) :
  forall prev,
  StronglySorted (fun a b => Np.sort_lt b a = false) (prev :: l) ->
  existsb negb (Np.change_mask_from prev l) = has_repeat (prev :: l).
Proof.
  induction l as [|v t IH]; intros prev Hs; [reflexivity|].
  inversion Hs as [|? ? Hvt Hprev]; subst.
  inversion Hprev as [|? ? Hpv Hpt]; subst.
  cbn [Np.change_mask_from existsb]. rewrite (IH v Hvt).
  change (has_repeat (prev :: v :: t))
    with (existsb (fun b => prev =? b) (v :: t) || has_repeat (v :: t)).
  cbn [existsb]. unfold neqb. rewrite negb_involutive, (eqb_sym v prev).
  destruct (prev =? v) eqn:Epv; [reflexivity|]. cbn [orb].
  destruct (existsb (fun b => prev =? b) t) eqn:Ex; [|reflexivity].
  exfalso. apply existsb_exists in Ex as (u & Hu & Hpu).
  inversion Hvt as [|? ? _ Hvu]; subst.
  rewrite Forall_forall in Hvu. specialize (Hvu u Hu).
  clear - Hpv Hvu Hpu Epv.
  unfold Np.sort_lt in *.
  apply orb_false_iff in Hpv as [Hpv1 Hpv2].
  apply orb_false_iff in Hvu as [Hvu1 Hvu2].
  apply not_true_iff_false in Epv. rewrite eqb_fkey in Epv, Hpu.
  destruct (is_nan prev) eqn:Hp, (is_nan v) eqn:Hv, (is_nan u) eqn:Hn;
    simpl in *; try discriminate; float_order.
Qed.

Lemma mask_select_shorter {A : Type} (x : list A) (mask : list bool) :
  length x = length mask ->
  (length (Np.mask_select x mask) <? length x)%nat = existsb negb mask.
Proof.
  revert mask; induction x as [|a t IH]; intros [|b m] H; simpl in *;
    try reflexivity; try discriminate.
  injection H as H. specialize (IH m H).
  pose proof (mask_select_length t m) as Hle.
  destruct b; simpl.
  - rewrite <- IH. reflexivity.
  - apply Nat.ltb_lt. lia.
Qed.

(** A sorted array is its numbers followed by its NaN entries. *)
Lemma sorted_split (l : list float) :
  StronglySorted (fun a b => Np.sort_lt b a = false) l ->
  exists nums nans, l = nums ++ nans
    /\ forallb (fun v => negb (is_nan v)) nums = true
    /\ forallb is_nan nans = true.
Proof.
  induction 1 as [|a t Ht IH Ha].
  - exists [], []. auto.
  - destruct (is_nan a) eqn:Hnan.
    + exists [], (a :: t). split; [reflexivity|]. split; [reflexivity|].
      simpl. rewrite Hnan. simpl. apply forallb_forall. intros b Hb.
      rewrite Forall_forall in Ha. specialize (Ha b Hb).
      unfold Np.sort_lt in Ha. rewrite Hnan in Ha. simpl in Ha.
      apply orb_false_iff in Ha as [_ Ha]. apply negb_false_iff in Ha. exact Ha.
    + destruct IH as (nums & nans & -> & Hn & Hm).
      exists (a :: nums), nans. simpl. rewrite Hnan. auto.
Qed.

Lemma ltb_nan_l (a b : float) : is_nan a = true -> (a <? b) = false.
Proof.
  intros Ha. destruct (a <? b) eqn:E; [|reflexivity].
  apply ltb_not_nan in E. destruct E; congruence.
Qed.

Lemma eqb_nan_r (a b : float) : is_nan b = true -> (a =? b) = false.
Proof.
  intros Hb. apply not_true_iff_false. rewrite eqb_fkey.
  apply is_nan_fkey in Hb. rewrite Hb. destruct (fkey a) as [[[? ?] ?]|]; auto.
Qed.

Lemma searchsorted_nan (nums nans : list float) (v : float) :
  forallb (fun v => negb (is_nan v)) nums = true ->
  forallb is_nan nans = true ->
  is_nan v = true ->
  Np.searchsorted_left (nums ++ nans) v = length nums.
Proof.
  intros Hn Hm Hv. unfold Np.searchsorted_left, Np.sort_lt.
  rewrite filter_app, length_app, Hv.
  replace (filter _ nans) with (@nil float).
  - simpl. rewrite Nat.add_0_r. f_equal.
    rewrite forallb_forall in Hn.
    clear Hm. induction nums as [|a t IH]; simpl; [reflexivity|].
    rewrite (Hn a (or_introl eq_refl)), orb_true_r. f_equal.
    apply IH. intros y Hy. apply Hn. right. exact Hy.
  - symmetry. rewrite forallb_forall in Hm.
    induction nans as [|a t IH]; simpl; [reflexivity|].
    rewrite (ltb_nan_l a v) by (apply Hm; left; reflexivity).
    rewrite (Hm a) by (left; reflexivity). simpl.
    apply IH. intros y Hy. apply Hm. right. exact Hy.
Qed.

(** The mask of [np.unique] when the sorted array holds a NaN. *)
Lemma unique_mask_nans (nums nans : list float) (n0 : float) :
  forallb (fun v => negb (is_nan v)) nums = true ->
  forallb is_nan (n0 :: nans) = true ->
  Np.unique_mask (nums ++ n0 :: nans)
  = Np.change_mask nums ++ true :: repeat false (length nans).
Proof.
  intros Hn Hm. unfold Np.unique_mask.
  assert (Hlast : is_nan (last (nums ++ n0 :: nans) 0) = true).
  { destruct (exists_last (l := n0 :: nans) ltac:(discriminate)) as (l' & a & E).
    rewrite forallb_forall in Hm. rewrite E, app_assoc, last_last. apply Hm.
    rewrite E. apply in_or_app. right. left. reflexivity. }
  rewrite Hlast, (searchsorted_nan nums (n0 :: nans) _ Hn Hm Hlast).
  rewrite firstn_app, firstn_all, Nat.sub_diag. simpl firstn. rewrite app_nil_r.
  rewrite length_app. simpl length.
  replace (length nums + S (length nans) - length nums - 1)%nat with (length nans) by lia.
  reflexivity.
Qed.

Lemma mask_select_app {A : Type} (x1 x2 : list A) (m1 m2 : list bool) :
  length x1 = length m1 ->
  Np.mask_select (x1 ++ x2) (m1 ++ m2) = Np.mask_select x1 m1 ++ Np.mask_select x2 m2.
Proof.
  revert m1; induction x1 as [|a t IH]; intros [|b m] H; simpl in *; try discriminate.
  - reflexivity.
  - injection H as H. rewrite (IH m H). destruct b; reflexivity.
Qed.

Lemma mask_select_none {A : Type} (x : list A) (n : nat) :
  Np.mask_select x (repeat false n) = [].
Proof.
  revert n; induction x as [|a t IH]; intros [|n]; simpl; auto.
Qed.

Lemma has_repeat_nans (nums nans : list float) :
  forallb is_nan nans = true -> has_repeat (nums ++ nans) = has_repeat nums.
Proof.
  intros Hm. rewrite forallb_forall in Hm.
  assert (Hno : forall a l, (forall b, In b l -> is_nan b = true) ->
                existsb (fun b => a =? b) l = false).
  { intros a l Hl. induction l as [|b t IH]; simpl; [reflexivity|].
    rewrite (eqb_nan_r a b) by (apply Hl; left; reflexivity). simpl.
    apply IH. intros y Hy. apply Hl. right. exact Hy. }
  induction nums as [|a t IH]; simpl.
  - induction nans as [|b u IHu]; simpl; [reflexivity|].
    rewrite Hno by (intros y Hy; apply Hm; right; exact Hy). simpl.
    apply IHu. intros y Hy. apply Hm. right. exact Hy.
  - rewrite existsb_app, (Hno a nans Hm), orb_false_r, IH. reflexivity.
Qed.

Lemma StronglySorted_app_l {A : Type} (R : A -> A -> Prop) (l1 l2 : list A) :
  StronglySorted R (l1 ++ l2) -> StronglySorted R l1.
Proof.
  induction l1 as [|a t IH]; simpl; intros H; [constructor|].
  inversion H as [|? ? Ht Ha]; subst. constructor; [apply IH; exact Ht|].
  apply Forall_app in Ha. apply Ha.
Qed.

Lemma change_mask_shorter (l : list float) :
  StronglySorted (fun a b => Np.sort_lt b a = false) l ->
  (length (Np.mask_select l (Np.change_mask l)) <? length l)%nat = has_repeat l.
Proof.
  intros Hs. destruct l as [|v t]; [reflexivity|].
  rewrite <- (change_mask_repeat t v Hs).
  rewrite mask_select_shorter;
    [reflexivity | simpl; rewrite change_mask_from_length; reflexivity].
Qed.

(** [np.unique] drops an entry exactly when two entries of the array
    compare equal or two of them are NaN. *)
Lemma unique_shorter (ar : list float) :
  (length (Np.unique ar) <? length ar)%nat
  = has_repeat ar || (2 <=? length (filter is_nan ar))%nat.
Proof.
  unfold Np.unique, Np.unique_index. cbn [fst].
  pose proof (unique_aux_perm ar) as Hp.
  rewrite <- (has_repeat_perm _ _ Hp), <- (Permutation_length Hp),
    <- (filter_length_perm is_nan _ _ Hp).
  assert (Hs : StronglySorted (fun a b => Np.sort_lt b a = false)
                 (map fst (Np.sort_entries (Np.enumerate ar))))
    by apply StronglySorted_map, sort_entries_ordered.
  destruct (sorted_split _ Hs) as (nums & nans & E & Hn & Hm).
  rewrite E in *. clear E Hp.
  assert (Hfn : filter is_nan (nums ++ nans) = nans).
  { rewrite filter_app.
    replace (filter is_nan nums) with (@nil float).
    - simpl. apply forallb_filter_id. exact Hm.
    - symmetry. clear - Hn. rewrite forallb_forall in Hn.
      induction nums as [|a t IH]; simpl; [reflexivity|].
      rewrite (proj1 (negb_true_iff _) (Hn a (or_introl eq_refl))).
      apply IH. intros y Hy. apply Hn. right. exact Hy. }
  rewrite Hfn, (has_repeat_nans nums nans Hm).
  apply StronglySorted_app_l in Hs.
  destruct nans as [|n0 nans'].
  - rewrite app_nil_r, orb_false_r. rewrite unique_mask_numbers by exact Hn.
    apply change_mask_shorter. exact Hs.
  - rewrite (unique_mask_nans nums nans' n0 Hn Hm).
    rewrite mask_select_app by (rewrite change_mask_length; reflexivity).
    cbn [Np.mask_select]. rewrite mask_select_none.
    rewrite !length_app. cbn [length].
    pose proof (change_mask_shorter nums Hs) as Hlt.
    pose proof (mask_select_length nums (Np.change_mask nums)) as Hle.
    destruct (has_repeat nums).
    + apply Nat.ltb_lt in Hlt. apply Nat.ltb_lt. lia.
    + apply Nat.ltb_ge in Hlt. cbn [orb].
      destruct nans' as [|n1 nans'']; cbn [length].
      * apply Nat.ltb_ge. lia.
      * apply Nat.ltb_lt. lia.
Qed.

End Repeats.

(** *** Further properties: the classification, the piecewise distribution *)

Section Classification.
Context {P : Platform}.

(** X18.  Left to the data, the choice between the fitters follows the
    repeats: the discrete fitter is chosen exactly when two entries of
    the sample compare equal or two of them are NaN, the continuous one
    otherwise, and no sample leaves the choice open. *)
Theorem classification_follows_repeats (kw : kwargs) (x : list float) (w : world) :
  kw_discrete kw = None ->
  plfit.classify kw x (Np.unique (Np.sort x)) w =
    (inr (Some (repeated_value x)),
     if kw_verbose kw
     then mk_world (self w)
            (stdout w ++ [if repeated_value x then UsingDiscrete else UsingContinuous])
     else w).
Proof.
  intros Hd. unfold plfit.classify. rewrite Hd.
  pose proof (unique_shorter (Np.sort x)) as Hlt.
  pose proof (unique_length (Np.sort x)) as Hle.
  rewrite (has_repeat_perm _ _ (sort_perm x)) in Hlt.
  rewrite (filter_length_perm is_nan _ _ (sort_perm x)) in Hlt.
  rewrite (Permutation_length (sort_perm x)) in Hlt, Hle.
  rewrite <- count_nonzero_filter in Hlt. fold (repeated_value x) in Hlt.
  rewrite Hlt.
  destruct (repeated_value x).
  - apply Nat.ltb_lt in Hlt.
    replace (length (Np.unique (Np.sort x)) =? length x)%nat with false
      by (symmetry; apply Nat.eqb_neq; lia).
    destruct (kw_verbose kw); reflexivity.
  - apply Nat.ltb_ge in Hlt.
    replace (length (Np.unique (Np.sort x)) =? length x)%nat with true
      by (symmetry; apply Nat.eqb_eq; lia).
    destruct (kw_verbose kw); reflexivity.
Qed.

Lemma mask_assign_piecewise {A B : Type} (f g : A -> B) (p : A -> bool) (x : list A) :
  mask_assign (map f x) (map p x) (Np.mask_select (map g x) (map p x))
  = Some (map (fun v => if p v then g v else f v) x).
Proof.
  induction x as [|a t IH]; simpl; [reflexivity|].
  destruct (p a); simpl; rewrite IH; reflexivity.
Qed.

(** X19.  Called with Python numbers [xmin] and [alpha], [plexp_cdf]
    and [plexp_pdf] raise [ZeroDivisionError] when [1 - alpha] or [alpha]
    is zero, whatever the array and the flags, as at [alpha = 1] and
    [alpha = 0]; otherwise they are the piecewise functions their
    docstring announces, entry by entry: the exponential branch where
    [x < xmin], the power-law branch elsewhere (a NaN entry included),
    and the masked assignment they are written with never fails. *)
Theorem plexp_is_piecewise (exp : float -> float) (x : list float) (xmin alpha : float) :
  (if (1 - alpha =? 0) || (alpha =? 0) then
     (forall pl_only exp_only,
         plexp_cdf exp x xmin alpha pl_only exp_only = inl ZeroDivisionError)
     /\ plexp_pdf exp x xmin alpha = inl ZeroDivisionError
   else
     let C := 1 / (- xmin / (1 - alpha) - xmin / alpha + exp alpha * xmin / alpha) in
     plexp_cdf exp x xmin alpha false false =
       inr (map (fun v =>
                   if v <? xmin
                   then C * xmin / alpha * exp alpha
                        - C * (xmin / alpha) * exp (- alpha * (v / xmin - 1))
                   else 1 + C * (xmin / (1 - alpha) * pow (v / xmin) (1 - alpha))) x)
     /\ plexp_pdf exp x xmin alpha =
          inr (map (fun v =>
                      if v <? xmin then C * exp (- alpha * (v / xmin - 1))
                      else C * pow (v / xmin) (- alpha)) x))
  /\ plexp_cdf exp x xmin 1 false false = inl ZeroDivisionError
  /\ plexp_pdf exp x xmin 1 = inl ZeroDivisionError
  /\ plexp_cdf exp x xmin 0 false false = inl ZeroDivisionError
  /\ plexp_pdf exp x xmin 0 = inl ZeroDivisionError.
Proof.
  split.
  - unfold plexp_cdf, plexp_pdf, plexp_C, py_div.
    destruct (1 - alpha =? 0); [split; reflexivity|].
    destruct (alpha =? 0); [split; reflexivity|].
    cbn [orb]. cbv zeta. rewrite !mask_assign_piecewise. split; reflexivity.
  - unfold plexp_cdf, plexp_pdf, plexp_C, py_div.
    change (1 - 1 =? 0) with true. change (1 - 0 =? 0) with false.
    change (0 =? 0) with true. cbv iota. repeat split; reflexivity.
Qed.

End Classification.

(** Witness of X18: in [1, nan, nan] no two entries compare equal, two
    are NaN, and the discrete fitter is chosen. *)
Lemma classification_follows_repeats_witness :
  has_repeat Ref.sample_two_nan = false
  /\ plfit.classify defaults Ref.sample_two_nan
       (Np.unique (Np.sort Ref.sample_two_nan)) (Ref.holding Ref.sample_two_nan)
     = (inr (Some true), Ref.holding Ref.sample_two_nan).
Proof.
  split; [reflexivity|].
  apply (classification_follows_repeats defaults Ref.sample_two_nan
           (Ref.holding Ref.sample_two_nan)).
  reflexivity.
Defined.

(** *** The attributes a fit leaves *)

Section Attributes.
Context {P : Platform}.

(** What a fit at a threshold that returns has bound, and what it has
    left as it was. *)
Lemma fit_at_returns_attributes (kw : kwargs) (z xmins : list float) (xmin : float)
    (w w' : world) (r : float * float) :
  plfit.fit_at kw z xmins xmin w = (inr r, w') ->
  _alpha_values (self w') = _alpha_values (self w)
  /\ _xmin_kstest (self w') = _xmin_kstest (self w)
  /\ _xmins (self w') = Some xmins
  /\ _xmin (self w') = Some xmin
  /\ (exists a, _alpha (self w') = Some a)
  /\ (exists k, _ks (self w') = Some k)
  /\ (exists e, _alphaerr (self w') = Some e).
Proof.
  destruct (length (filter (fun v => geb v xmin) z)) as [|n'] eqn:Hn.
  - destruct (fit_at_empty kw z xmins xmin w Hn) as (w1 & -> & _). discriminate.
  - assert (H1 : (1 <= length (filter (fun v => geb v xmin) z))%nat) by lia.
    rewrite (fit_at_run kw z xmins xmin w H1).
    destruct (_ =? 1)%nat.
    + intros H. injection H as _ <-. cbn [self].
      destruct scipyOK; cbn; eauto 10.
    + match goal with
      | |- context [if ?c then (inl _, _) else _] => destruct c
      end; [discriminate|].
      intros H. injection H as _ <-. cbn [self].
      destruct scipyOK; cbn; eauto 10.
Qed.

(** The constructor stores the sample and calls the method. *)
Lemma init_calls_plfit (x : list float) (kw : kwargs) (w : world) :
  exists w0,
    plfit.__init__ x kw w = plfit.plfit kw w0
    /\ _alpha_values (self w0) = _alpha_values (self w)
    /\ _xmin_kstest (self w0) = _xmin_kstest (self w).
Proof.
  unfold plfit.__init__. cbv zeta.
  destruct (Nat.ltb 0 (Np.count_nonzero (map (fun v => v <? 0) x))).
  - unfold bind at 1. unfold bind at 1. unfold bind at 1.
    cbn [print ret setattr self stdout]. eexists. split; [reflexivity|]. split; reflexivity.
  - unfold bind at 1. unfold bind at 1.
    cbn [ret setattr self stdout]. eexists. split; [reflexivity|]. split; reflexivity.
Qed.

Lemma continuous_fit_steps (kw : kwargs) (z xmins : list float) (argxmins : list nat)
    (w w' : world) (r : float * float) :
  plfit.continuous_fit kw z xmins argxmins w = (inr r, w') ->
  exists s w1,
    plfit.search kw z xmins argxmins w = (inr s, w1)
    /\ plfit.fit_at kw z xmins (plfit.sel_xmin s) w1 = (inr r, w').
Proof.
  unfold plfit.continuous_fit. intros H.
  apply bind_inr in H as (s & w1 & Hs & H).
  apply bind_inr in H as (u & w2 & Hc & H).
  apply consistency_check_world in Hc. subst w2. eauto.
Qed.

End Attributes.

(** *** Further properties: the diagnostic plots *)

Section Diagnostics.
Context {P : Platform}.

(** X20.  The diagnostic plots need the xmin search to have run.  On an
    instance whose constructor returned, [xminvsks] and [alphavsks] find
    every attribute they read when no [xmin] was given, whichever fitter
    ran; when an [xmin] was given, the sweeps were never bound, and both
    end in [AttributeError], on [_xmin_kstest] and on [_alpha_values],
    before anything is drawn. *)
Theorem diagnostic_plots_need_the_search (x : list float) (kw : kwargs)
    (out : list message) (r : float * float) (w' : world)
    (canvas : list pylab_call) (autozoom : bool) :
  plfit.__init__ x kw (mk_world new_obj out) = (inr r, w') ->
  match kw_xmin kw with
  | None =>
      (exists canvas', xminvsks (self w') canvas = (inr tt, canvas'))
      /\ (exists canvas', alphavsks autozoom (self w') canvas = (inr tt, canvas'))
  | Some _ =>
      xminvsks (self w') canvas = (inl (AttributeError "_xmin_kstest"), canvas)
      /\ alphavsks autozoom (self w') canvas
         = (inl (AttributeError "_alpha_values"), canvas)
  end.
Proof.
  intros H.
  destruct (init_calls_plfit x kw (mk_world new_obj out)) as (w0 & Hinit & Hal0 & Hks0).
  rewrite Hinit in H. cbn in Hal0, Hks0. destruct r as [xmin alpha].
  destruct (plfit_returns kw w0 w' xmin alpha H)
    as (w1 & Hw1 & [(t & Ht & Hfit) | [([Hx _] & Hcont) | (Hx & _ & [[[a xm] k] L] & Hrun & _)]]).
  - rewrite Ht.
    apply fit_at_returns_attributes in Hfit as (Hal & Hks & Hxmins & _).
    rewrite Hw1 in Hal, Hks. cbn in Hal, Hks. rewrite Hal0 in Hal. rewrite Hks0 in Hks.
    unfold xminvsks, alphavsks, reading. rewrite Hal, Hks, Hxmins. split; reflexivity.
  - rewrite Hx.
    apply continuous_fit_steps in Hcont as (s & w2 & Hs & Hfit).
    destruct (search_stores _ _ _ _ _ _ _ Hs) as (Hsal & Hsks & _).
    apply fit_at_returns_attributes in Hfit
      as (Hal & Hks & Hxmins & Hxmin & [a Ha] & [k Hk] & [e He]).
    rewrite Hsal in Hal. rewrite Hsks in Hks.
    unfold xminvsks, alphavsks, reading.
    rewrite Hal, Hks, Hxmins, Hxmin, Ha, Hk, He. split; eexists; reflexivity.
  - rewrite Hx.
    apply discrete_best_alpha_returns in Hrun as (alphas & i & _ & _ & _ & _ & _ & _ & _ & Hself & _).
    unfold xminvsks, alphavsks, reading. rewrite Hself.
    destruct scipyOK; cbn; split; eexists; reflexivity.
Qed.

End Diagnostics.

(** Witness of X20: the sample [1, 2, 3] fitted at the given threshold 2;
    the plot of the sweep has no sweep to show. *)
Lemma diagnostic_plots_need_the_search_witness :
  exists r w',
    Ref.run Ref.sample_small (with_xmin 2 defaults) = (inr r, w')
    /\ xminvsks (self w') [] = (inl (AttributeError "_xmin_kstest"), [])
    /\ alphavsks true (self w') [] = (inl (AttributeError "_alpha_values"), []).
Proof.
  eexists. eexists. split; [vm_compute; reflexivity|].
  refine (diagnostic_plots_need_the_search (P := Ref.platform) Ref.sample_small
            (with_xmin 2 defaults) [] _ _ [] true _).
  vm_compute. reflexivity.
Defined.

(** *** Further properties: skipping the consistency check *)

Section Skipping.
Context {P : Platform}.

Lemma bind_returns_alike {A B : Type} (m1 m2 : M A) (k1 k2 : A -> M B) :
  (forall w a w', m1 w = (inr a, w') -> m2 w = (inr a, w')) ->
  (forall a w b w', k1 a w = (inr b, w') -> k2 a w = (inr b, w')) ->
  forall w b w', bind m1 k1 w = (inr b, w') -> bind m2 k2 w = (inr b, w').
Proof.
  intros Hm Hk w b w' H.
  apply bind_inr in H as (a & w1 & H1 & H2).
  rewrite (bind_step _ _ _ _ _ (Hm _ _ _ H1)). apply Hk. exact H2.
Qed.

Lemma consistency_check_skipped (kw : kwargs) (z : list float) (s : plfit.selection)
    (w : world) (u : unit) (w' : world) :
  plfit.consistency_check kw z s w = (inr u, w') ->
  plfit.consistency_check (with_skip_consistency_check true kw) z s w = (inr u, w').
Proof.
  intros H. pose proof (consistency_check_world _ _ _ _ _ _ H) as ->.
  destruct u. reflexivity.
Qed.

(** X21.  Switching the consistency check off never changes a fit that
    passes it: a call that returns with the check on returns the same
    pair, with the same attributes and the same output, with
    [skip_consistency_check] set. *)
Theorem skipping_the_check_keeps_a_fit (kw : kwargs) (w w' : world) (r : float * float) :
  plfit.plfit kw w = (inr r, w') ->
  plfit.plfit (with_skip_consistency_check true kw) w = (inr r, w').
Proof.
  unfold plfit.plfit.
  apply bind_returns_alike; [auto|]. intros x w0 r0 w0'.
  destruct (existsb _ x); [auto|].
  unfold plfit.fit_checked.
  destruct (Np.unique_index (Np.sort x)) as [xmins argxmins].
  apply bind_returns_alike; [auto|]. intros _ w1 r1 w1'.
  apply bind_returns_alike; [auto|]. intros d w2 r2 w2'.
  cbn [with_skip_consistency_check kw_xmin].
  destruct (kw_xmin kw); [auto|].
  assert (Hcont : forall w3 r3 w3',
             plfit.continuous_fit kw (Np.sort x) xmins argxmins w3 = (inr r3, w3') ->
             plfit.continuous_fit (with_skip_consistency_check true kw)
               (Np.sort x) xmins argxmins w3 = (inr r3, w3')).
  { unfold plfit.continuous_fit.
    apply bind_returns_alike; [auto|]. intros s w4 r4 w4'.
    apply bind_returns_alike; [|auto]. apply consistency_check_skipped. }
  destruct d as [[|]|]; auto.
Qed.

End Skipping.

(** Witness of X21: the fit of [1, 10, 1e7, 2e7, 3e7], with the check and
    without it. *)
Lemma skipping_the_check_keeps_a_fit_witness :
  exists r w',
    plfit.plfit (P := Ref.platform) defaults (Ref.holding Ref.sample_spread) = (inr r, w')
    /\ plfit.plfit (P := Ref.platform) (with_skip_consistency_check true defaults)
         (Ref.holding Ref.sample_spread) = (inr r, w').
Proof.
  eexists. eexists. split; [vm_compute; reflexivity|].
  apply (skipping_the_check_keeps_a_fit (P := Ref.platform) defaults
           (Ref.holding Ref.sample_spread)).
  vm_compute. reflexivity.
Defined.

